(** * Verification of the idh bench driver scripts

    Shallow embedding of the two Jython drivers
    [bench/src/lss/sos2.py] and [bench/src/warp/waveletwarpingab.py].

    - Python [int]s are [Z]; [/] on ints is Python 2 floor division and
      raises [ZeroDivisionError] on a zero divisor.
    - Java [float] array elements and Python [float] scalars are values of a
      carrier [F] with the operations of the class [FloatOps].  Two instances
      are given: the reals (exact arithmetic, used for the algebraic
      properties) and IEEE-754 numbers as [spec_float] (binary32 array
      elements, binary64 Python scalars; executable).
    - Arrays that a function receives from its caller live in a store and are
      addressed by reference, because the helpers overwrite them in place.
      Arrays that a function allocates itself and hands back are threaded as
      values.
    - What a call can observe besides its arguments (the generator behind
      ArrayMath's [randfloat(n1,n2)], the sinc interpolators built so far) is
      a [World], passed explicitly.
    - Exceptions are results [Raise e].
    - The Mines JTK is a library: of its operations the drivers' properties
      depend on, ArrayMath's element-wise ones and java.util.Random are
      written out, the filters are left open as section variables. *)

From stdpp Require Import base option list.
From Stdlib Require Import ZArith Lia Reals Lra.
From Stdlib Require Import Floats.SpecFloat.

Local Open Scope Z_scope.

(** ** Exceptions and results *)

Inductive error : Type :=
  | ZeroDivisionError
  | IndexError
  | TypeError
  | NegativeArraySizeException
  | NotARealNumber.
(* [NotARealNumber] is not an exception of the program: it marks the places
   where IEEE arithmetic continues with an infinity or a NaN (logarithm of a
   number that is not positive, square root of a negative number), which the
   exact-arithmetic instance cannot represent. *)

Inductive res (A : Type) : Type :=
  | Ok (a : A)
  | Raise (e : error).
Arguments Ok {A} a.
Arguments Raise {A} e.

#[global] Instance res_ret : MRet res := fun A a => Ok a.
#[global] Instance res_bind : MBind res := fun A B f m =>
  match m with
  | Ok a => f a
  | Raise e => Raise e
  end.
#[global] Instance res_fmap : FMap res := fun A B f m =>
  match m with
  | Ok a => Ok (f a)
  | Raise e => Raise e
  end.

(** ** Floating-point values *)

Class FloatOps (F : Type) : Type := {
  f0 : F;                      (* 0.0 *)
  f1 : F;                      (* 1.0 *)
  fopp : F -> F;               (* unary minus *)
  fabs : F -> F;               (* abs *)
  flt : F -> F -> bool;        (* a < b *)
  feq0 : F -> bool;            (* a == 0.0 *)
  ddiv : F -> F -> F;          (* Python float quotient (double precision) *)
  to_float : F -> F;           (* Python float passed for a Java float parameter *)
  fmul : F -> F -> F;          (* Java float product *)
  fdiv : F -> F -> F;          (* Java float quotient *)
  fsqrt : F -> F               (* (float)Math.sqrt *)
}.

(** Python's [a/b] on floats: raises on a zero divisor. *)
Definition py_fdiv `{FloatOps F} (a b : F) : res F :=
  if feq0 b then Raise ZeroDivisionError else Ok (ddiv a b).

(** Python 2's [a/b] on ints. *)
Definition py_idiv (a b : Z) : res Z :=
  if b =? 0 then Raise ZeroDivisionError else Ok (a / b).

(** [range(n)] *)
Definition range (n : Z) : list Z := Z.of_nat <$> seq 0 (Z.to_nat n).

(** Index of a Python subscript [x[i]] into a sequence of length [len]:
    negative subscripts count from the end, anything else out of range
    raises. *)
Definition py_index (len i : Z) : res nat :=
  let i' := if i <? 0 then i + len else i in
  if (0 <=? i') && (i' <? len) then Ok (Z.to_nat i') else Raise IndexError.

(** [for x in xs: body] over a loop-carried value. *)
Fixpoint for_each {A S : Type} (xs : list A) (body : A -> S -> res S) (s : S)
  : res S :=
  match xs with
  | [] => Ok s
  | x :: xs' => s' ← body x s; for_each xs' body s'
  end.

(** ** Instances of [FloatOps] *)

(** Exact arithmetic: every operation is the real one, nothing is rounded. *)
#[global] Instance R_ops : FloatOps R := {|
  f0 := 0%R;
  f1 := 1%R;
  fopp := Ropp;
  fabs := Rabs;
  flt := fun a b => if Rlt_dec a b then true else false;
  feq0 := fun a => if Req_dec_T a 0%R then true else false;
  ddiv := Rdiv;
  to_float := fun a => a;
  fmul := Rmult;
  fdiv := Rdiv;
  fsqrt := sqrt
|}.

(** IEEE-754 arithmetic, round to nearest even: array elements are binary32
    (24-bit significand), Python floats are binary64 (53-bit significand).
    Array elements are kept in the canonical form of binary32, on which the
    comparisons of [spec_float] are those of the numbers. *)
Definition narrow32 (x : spec_float) : spec_float :=
  match x with
  | S754_finite s m e => binary_round 24 128 s m e
  | _ => x
  end.

#[global] Instance ieee_ops : FloatOps spec_float := {|
  f0 := S754_zero false;
  f1 := SFone 24 128;
  fopp := SFopp;
  fabs := SFabs;
  flt := SFltb;
  feq0 := fun a => SFeqb a (S754_zero false);
  ddiv := SFdiv 53 1024;
  to_float := narrow32;
  fmul := SFmul 24 128;
  fdiv := SFdiv 24 128;
  fsqrt := SFsqrt 24 128
|}.

(** The binary32 number [n]. *)
Definition float_of_Z (n : Z) : spec_float := binary_normalize 24 128 n 0 false.

(** ** State and exceptions

    A computation over a state [S] returns a result and the state it leaves
    behind; the state reached when an exception is raised is kept. *)

Definition M (S A : Type) : Type := S -> res A * S.

#[global] Instance M_ret {S : Type} : MRet (M S) := fun A a s => (Ok a, s).
#[global] Instance M_bind {S : Type} : MBind (M S) := fun A B k m s =>
  match m s with
  | (Ok a, s') => k a s'
  | (Raise e, s') => (Raise e, s')
  end.

Definition lift {S A : Type} (r : res A) : M S A := fun s => (r, s).

(** ** Arrays in a store

    A Java array is a reference; [float[]] and [float[][]] values are kept
    apart as ArrayMath's overloads do. *)

Inductive array (F : Type) : Type :=
  | Array1 (x : list F)
  | Array2 (x : list (list F)).
Arguments Array1 {F} x.
Arguments Array2 {F} x.

Definition ref : Type := nat.
Abbreviation store F := (list (array F)).

Section ArrayMath.
Context {F : Type} `{FloatOps F}.

Definition elements (a : array F) : list F :=
  match a with
  | Array1 x => x
  | Array2 x => concat x
  end.

Definition alloc (a : array F) : M (store F) ref :=
  fun h => (Ok (length h), h ++ [a]).

(** Reading through a reference; one that names no array of the store (as
    [None] would) is a type error. *)
Definition load (r : ref) : M (store F) (array F) :=
  fun h => (match h !! r with Some a => Ok a | None => Raise TypeError end, h).

Definition store_at (r : ref) (a : array F) : M (store F) unit :=
  fun h => (Ok tt, <[r := a]> h).

(** ArrayMath.max and ArrayMath.min: start from the first element and scan. *)
Definition amax (a : array F) : res F :=
  match elements a with
  | [] => Raise IndexError
  | v :: vs => Ok (foldl (fun m x => if flt m x then x else m) v vs)
  end.

Definition amin (a : array F) : res F :=
  match elements a with
  | [] => Raise IndexError
  | v :: vs => Ok (foldl (fun m x => if flt x m then x else m) v vs)
  end.

(** Element-wise operations run over the extent of their first array
    operand; a shorter second operand or output array is an index error, a
    longer one keeps its tail. *)
Definition amap (g : F -> F) (a : array F) : array F :=
  match a with
  | Array1 x => Array1 (g <$> x)
  | Array2 x => Array2 (map g <$> x)
  end.

Fixpoint zip1 (g : F -> F -> F) (x y : list F) : res (list F) :=
  match x, y with
  | [], _ => Ok []
  | a :: x', b :: y' => r ← zip1 g x' y'; Ok (g a b :: r)
  | _ :: _, [] => Raise IndexError
  end.

Fixpoint zip2 (g : F -> F -> F) (x y : list (list F)) : res (list (list F)) :=
  match x, y with
  | [], _ => Ok []
  | a :: x', b :: y' => r ← zip1 g a b; rs ← zip2 g x' y'; Ok (r :: rs)
  | _ :: _, [] => Raise IndexError
  end.

Definition azip (g : F -> F -> F) (a b : array F) : res (array F) :=
  match a, b with
  | Array1 x, Array1 y => Array1 <$> zip1 g x y
  | Array2 x, Array2 y => Array2 <$> zip2 g x y
  | _, _ => Raise TypeError
  end.

Definition blit1 (new old : list F) : res (list F) :=
  if decide (length new <= length old)%nat
  then Ok (new ++ drop (length new) old)
  else Raise IndexError.

Fixpoint blit2 (new old : list (list F)) : res (list (list F)) :=
  match new, old with
  | [], _ => Ok old
  | a :: new', b :: old' => r ← blit1 a b; rs ← blit2 new' old'; Ok (r :: rs)
  | _ :: _, [] => Raise IndexError
  end.

Definition blit (new old : array F) : res (array F) :=
  match new, old with
  | Array1 x, Array1 y => Array1 <$> blit1 x y
  | Array2 x, Array2 y => Array2 <$> blit2 x y
  | _, _ => Raise TypeError
  end.

(** Store [new] through the output parameter [rz]. *)
Definition write_into (rz : ref) (new : array F) : M (store F) unit :=
  z ← load rz;
  z' ← lift (blit new z);
  store_at rz z'.

(** [mul(rx,ry)] and [sqrt(rx)]: the result is a new array. *)
Definition mul_new (rx ry : ref) : M (store F) ref :=
  x ← load rx;
  y ← load ry;
  z ← lift (azip fmul x y);
  alloc z.

Definition sqrt_new (rx : ref) : M (store F) ref :=
  x ← load rx;
  alloc (amap fsqrt x).

(** [mul(ra,rx,rz)] and [div(rx,ry,rz)]: the result goes to [rz]. *)
Definition mul_into (ra : F) (rx rz : ref) : M (store F) unit :=
  x ← load rx;
  write_into rz (amap (fmul (to_float ra)) x).

Definition div_into (rx ry rz : ref) : M (store F) unit :=
  x ← load rx;
  y ← load ry;
  z ← lift (azip fdiv x y);
  write_into rz z.

End ArrayMath.

(** ** java.util.Random

    The linear congruential generator of the Java class library: a 48-bit
    state, scrambled from the seed by the constructor. *)

Definition RANDOM_MULTIPLIER : Z := 0x5DEECE66D.
Definition RANDOM_ADDEND : Z := 0xB.
Definition RANDOM_MASK : Z := Z.shiftl 1 48 - 1.

(** [new Random(seed)] *)
Definition Random_new (seed : Z) : Z :=
  Z.land (Z.lxor seed RANDOM_MULTIPLIER) RANDOM_MASK.

(** [next(bits)] *)
Definition Random_next (bits : Z) (s : Z) : Z * Z :=
  let s' := Z.land (s * RANDOM_MULTIPLIER + RANDOM_ADDEND) RANDOM_MASK in
  (Z.shiftr s' (48 - bits), s').

(** [nextFloat()]: 24 random bits over 2^24. *)
Definition Random_nextFloat (s : Z) : R * Z :=
  let '(n, s') := Random_next 24 s in
  ((IZR n / IZR (Z.shiftl 1 24))%R, s').

Fixpoint Random_floats (n : nat) (s : Z) : list R * Z :=
  match n with
  | O => ([], s)
  | S n' =>
      let '(x, s1) := Random_nextFloat s in
      let '(xs, s2) := Random_floats n' s1 in
      (x :: xs, s2)
  end.

(** ** The world outside a call

    What a call can see besides its arguments: the sinc interpolators built
    so far (oldest first), and the state of the generator that ArrayMath's
    [randfloat(n1,n2)] without a [Random] argument draws from. *)

Record SincInterpolator : Type := {
  si_emax : R;   (* maximum interpolation error *)
  si_fmax : R    (* passband edge, in cycles per sample *)
}.

Record World : Type := {
  sincs : list SincInterpolator;
  shared_random : Z
}.

(** [SincInterpolator.fromErrorAndFrequency(emax,fmax)] *)
Definition fromErrorAndFrequency (emax fmax : R) : M World SincInterpolator :=
  fun w =>
    let si := {| si_emax := emax; si_fmax := fmax |} in
    (Ok si, {| sincs := sincs w ++ [si]; shared_random := shared_random w |}).

(** ** ArrayMath on arrays local to a call (exact arithmetic) *)

(** [zerofloat(n)] *)
Definition zerofloat (n : Z) : res (list R) :=
  if n <? 0 then Raise NegativeArraySizeException
  else Ok (replicate (Z.to_nat n) 0%R).

(** [rampfloat(ra,rb,n)]: [ra + rb*i] for [i] in [0..n-1]. *)
Definition rampfloat (ra rb : R) (n : Z) : res (list R) :=
  if n <? 0 then Raise NegativeArraySizeException
  else Ok ((fun i => (ra + rb * IZR i)%R) <$> range n).

(** [randfloat(rand,n)] *)
Definition randfloat (rand : Z) (n : Z) : res (list R * Z) :=
  if n <? 0 then Raise NegativeArraySizeException
  else Ok (Random_floats (Z.to_nat n) rand).

(** [randfloat(n1,n2)]: [n2] rows of [n1] draws from the shared generator. *)
Fixpoint Random_rows (n2 n1 : nat) (s : Z) : list (list R) * Z :=
  match n2 with
  | O => ([], s)
  | S n2' =>
      let '(row, s1) := Random_floats n1 s in
      let '(rows, s2) := Random_rows n2' n1 s1 in
      (row :: rows, s2)
  end.

Definition randfloat_shared (n1 n2 : Z) : M World (list (list R)) :=
  fun w =>
    if (n1 <? 0) || (n2 <? 0) then (Raise NegativeArraySizeException, w)
    else
      let '(x, s) := Random_rows (Z.to_nat n2) (Z.to_nat n1) (shared_random w) in
      (Ok x, {| sincs := sincs w; shared_random := s |}).

(** [x[i]] *)
Definition getitem (x : list R) (i : Z) : res R :=
  k ← py_index (Z.of_nat (length x)) i;
  match x !! k with
  | Some v => Ok v
  | None => Raise IndexError
  end.

(** [log] and [sqrt] where the result is a real number.  Outside that
    domain the program goes on with a NaN or an infinity, which the reals
    cannot hold; the model stops there with [NotARealNumber], so it says
    nothing about such runs.  Results on what a generator returns are
    therefore stated for parameters on which this marker is not reached. *)
Definition real_log (x : R) : res R :=
  if Rlt_dec 0 x then Ok (ln x) else Raise NotARealNumber.

Definition real_sqrt (x : R) : res R :=
  if Rle_dec 0 x then Ok (sqrt x) else Raise NotARealNumber.

(** ** bench/src/lss/sos2.py *)

Module Sos2.
Section WithFloat.
Context {F : Type} `{FloatOps F}.

(** [zerofloat(n1,n2)]: [n2] rows of [n1] zeros. *)
Definition zerofloat2 (n1 n2 : Z) : res (list (list F)) :=
  if (n1 <? 0) || (n2 <? 0) then Raise NegativeArraySizeException
  else Ok (replicate (Z.to_nat n2) (replicate (Z.to_nat n1) f0)).

(** [f[i2][i1] = v] *)
Definition setitem2 (f : list (list F)) (i2 i1 : Z) (v : F)
  : res (list (list F)) :=
  r2 ← py_index (Z.of_nat (length f)) i2;
  match f !! r2 with
  | None => Raise IndexError
  | Some row =>
      r1 ← py_index (Z.of_nat (length row)) i1;
      Ok (<[r2 := <[r1 := v]> row]> f)
  end.

(** Number of impulses along an axis of [n] samples with spacing [k], and
    the index of the first one. *)
Definition impulse_count (n k : Z) : res Z := py_idiv n k.
Definition impulse_first (n k m : Z) : res Z := py_idiv (n - (m - 1) * k) 2.

Definition makeImpulses (n1 n2 k1 k2 : Z) : res (list (list F)) :=
  m1 ← impulse_count n1 k1;
  m2 ← impulse_count n2 k2;
  j1 ← impulse_first n1 k1 m1;
  j2 ← impulse_first n2 k2 m2;
  f ← zerofloat2 n1 n2;
  for_each (range m2) (fun i2 f =>
    for_each (range m1) (fun i1 f =>
      setitem2 f (j2 + i2 * k2) (j1 + i1 * k1) f1) f) f.

End WithFloat.

Section MakeRandom.
Local Open Scope R_scope.

(** The two passes of the JTK's RecursiveGaussianFilter are left open:
    [apply0X x y] and [applyX0 x y] give the contents of the output array
    [y] after the call on the input [x]. *)
Variable apply0X : list (list R) -> list (list R) -> list (list R).
Variable applyX0 : list (list R) -> list (list R) -> list (list R).

(** [smooth]: the sizes are read off the field itself, so an empty field
    fails at [x[0]]. *)
Definition smooth (x : list (list R)) : res (list (list R)) :=
  row0 ← match x with
         | [] => Raise IndexError
         | row :: _ => Ok row
         end;
  let n1 := Z.of_nat (length row0) in
  let n2 := Z.of_nat (length x) in
  t ← zerofloat2 n1 n2;
  y ← zerofloat2 n1 n2;
  let t := apply0X x t in
  let y := applyX0 t y in
  Ok y.

Definition fClip : R := 9.

(** [makeRandom]: the only place that draws from the shared generator. *)
Definition makeRandom (n1 n2 : Z) : M World (list (list R)) :=
  x ← randfloat_shared n1 n2;
  let f := map (fun v => 2 * fClip * v - fClip) <$> x in
  let f := map (fun v => 2 * v) <$> f in
  lift (smooth f).

End MakeRandom.

Section TensorVectors.
Local Open Scope R_scope.

(** The tensor field [t] is a JTK EigenTensors2.  Of its interface the
    driver uses three accessors, each of which fills a two-element array
    for the sample [(i1,i2)] and fails outside the field. *)
Record EigenTensors2 : Type := {
  getEigenvectorU : Z -> Z -> res (R * R);
  getEigenvectorV : Z -> Z -> res (R * R);
  getEigenvalues : Z -> Z -> res (R * R)
}.

Definition segments : Type :=
  (list (list R) * list (list R) * list (list R) * list (list R))%type.

(** [makeTensorVectors]: one line segment per lattice point and
    eigenvector, as end points [xu1[ll],xu2[ll]] and [xv1[ll],xv2[ll]].
    The image size [n1], [n2] is read from the module's globals. *)
Definition makeTensorVectors (n1 n2 : Z) (t : EigenTensors2) : res segments :=
  let k1 := 30%Z in
  let k2 := 30%Z in
  let s1 := IZR k1 / 3 in
  let s2 := IZR k2 / 3 in
  m1 ← py_idiv n1 k1;
  m2 ← py_idiv n2 k2;
  j1 ← py_idiv (n1 - (m1 - 1) * k1) 2;
  j2 ← py_idiv (n2 - (m2 - 1) * k2) 2;
  xu1 ← zerofloat2 2 (m1 * m2);
  xu2 ← zerofloat2 2 (m1 * m2);
  xv1 ← zerofloat2 2 (m1 * m2);
  xv2 ← zerofloat2 2 (m1 * m2);
  for_each (range m2) (fun l2 x =>
    for_each (range m1) (fun l1 '(xu1, xu2, xv1, xv2) =>
      let ll := (l1 + l2 * m1)%Z in
      let i1 := (j1 + l1 * k1)%Z in
      let i2 := (j2 + l2 * k2)%Z in
      '(u1, u2) ← getEigenvectorU t i1 i2;
      '(v1, v2) ← getEigenvectorV t i1 i2;
      '(eu, ev) ← getEigenvalues t i1 i2;
      el ← py_fdiv (eu - ev) eu;
      xu1 ← setitem2 xu1 ll 0 (IZR i1 - u1 * s1 * el);
      xu2 ← setitem2 xu2 ll 0 (IZR i2 - u2 * s2 * el);
      xu1 ← setitem2 xu1 ll 1 (IZR i1 + u1 * s1 * el);
      xu2 ← setitem2 xu2 ll 1 (IZR i2 + u2 * s2 * el);
      xv1 ← setitem2 xv1 ll 0 (IZR i1 - v1 * s1 * el);
      xv2 ← setitem2 xv2 ll 0 (IZR i2 - v2 * s2 * el);
      xv1 ← setitem2 xv1 ll 1 (IZR i1 + v1 * s1 * el);
      xv2 ← setitem2 xv2 ll 1 (IZR i2 + v2 * s2 * el);
      Ok (xu1, xu2, xv1, xv2)) x)
    (xu1, xu2, xv1, xv2).

End TensorVectors.
End Sos2.


(** ** bench/src/warp/waveletwarpingab.py: the in-place helpers *)

Module Wwab.

Section Helpers.
Context {F : Type} `{FloatOps F}.

(** [RecursiveExponentialFilter(hw).apply1(x,y)] belongs to the Mines JTK and
    is left open: [ref_apply1 hw x] is what it stores in [y] for input [x]. *)
Variable ref_apply1 : Z -> array F -> array F.

Definition gain (hw : Z) (f : ref) : M (store F) unit :=
  g ← mul_new f f;
  x ← load g;
  _ ← write_into g (ref_apply1 hw x);
  s ← sqrt_new g;
  div_into f s f.

Definition normalizeMax (f : ref) : M (store F) unit :=
  x ← load f;
  mx ← lift (amax x);
  let maxf := fabs mx in
  mn ← lift (amin x);
  let minf := fabs mn in
  scale ← lift (if flt minf maxf
                then py_fdiv f1 maxf
                else py_fdiv (fopp f1) minf);
  mul_into scale f f.

End Helpers.

(** ** bench/src/warp/waveletwarpingab.py: the synthetic warp generators *)

Section Generators.

(** [si.accumulate(xout,yout,nxin,dxin,fxin,yin)] belongs to the Mines JTK
    and is left open: the function gives the contents of [yin] afterwards. *)
Variable accumulate :
  SincInterpolator -> R -> R -> Z -> R -> R -> list R -> list R.

Local Open Scope R_scope.

(** The warp curve of [logupq] and its inverse map [t]. *)
Definition logupq_curve (r0 r1 : R) (nt : Z)
  : res (list R * (R -> res R)) :=
  let umax := (nt - 1)%Z in
  if Req_dec_T r0 r1 then
    u ← rampfloat 0 r0 nt;
    Ok (u, fun u => py_fdiv u r0)
  else
    ratio ← py_fdiv r0 r1;
    l ← real_log ratio;
    a ← py_fdiv (IZR umax) l;
    b ← py_fdiv r0 a;
    ramp ← rampfloat 1 b nt;
    lg ← mapM real_log ramp;
    Ok (Rmult a <$> lg,
        fun u => e ← py_fdiv u a; py_fdiv (exp e - 1) b).

Definition logupq (r0 r1 : R) (nt ni : Z)
  : M World (list R * list R * list R) :=
  let rand := Random_new 3 in
  let umax := (nt - 1)%Z in
  '(x1, rand) ← lift (randfloat rand ni);
  let us := Rmult (IZR umax) <$> x1 in
  '(x2, rand) ← lift (randfloat rand ni);
  let rs := (fun x => ((x - 0.5) * 2) ^ 5) <$> x2 in
  '(u, t) ← lift (logupq_curve r0 r1 nt);
  p ← lift (zerofloat nt);
  q ← lift (zerofloat nt);
  si ← fromErrorAndFrequency 0.01 0.45;
  '(p, q) ← lift (for_each (range ni) (fun ji '(p, q) =>
     ui ← getitem us ji;
     ri ← getitem rs ji;
     ti ← t ui;
     Ok (accumulate si ti ri nt 1 0 p, accumulate si ui ri nt 1 0 q)) (p, q));
  mret (u, p, q).

Definition logupqOld (r0 r1 : R) (nt ni : Z)
  : M World (list R * list R * list R) :=
  let umax := (nt - 1)%Z in
  d ← lift (py_idiv umax (ni + 1));
  us ← lift (rampfloat (IZR d) (IZR d) ni);
  '(u, t) ← lift (logupq_curve r0 r1 nt);
  p ← lift (zerofloat nt);
  q ← lift (zerofloat nt);
  si ← fromErrorAndFrequency 0.01 0.45;
  '(p, q) ← lift (for_each (range ni) (fun ji '(p, q) =>
     ui ← getitem us ji;
     ti ← t ui;
     let ri := 1 in
     Ok (accumulate si ti ri nt 1 0 p, accumulate si ui ri nt 1 0 q)) (p, q));
  mret (u, p, q).

Definition expupq (r0 r1 : R) (nt ni : Z)
  : M World (list R * list R * list R) :=
  let tmax := (nt - 1)%Z in
  ratio ← lift (py_fdiv r1 r0);
  l ← lift (real_log ratio);
  b ← lift (py_fdiv l (IZR tmax));
  a ← lift (py_fdiv r0 b);
  ramp ← lift (rampfloat 0 b nt);
  let u := (fun x => IZR tmax - a * (exp x - 1)) <$> ramp in
  d ← lift (py_idiv tmax (ni + 1));
  ts ← lift (rampfloat (IZR d) (IZR d) ni);
  p ← lift (zerofloat nt);
  q ← lift (zerofloat nt);
  si ← fromErrorAndFrequency 0.01 0.45;
  '(p, q, _) ← lift (for_each (range ni) (fun ji '(p, q, rj) =>
     tp ← getitem ts ji;
     let tq := IZR tmax - a * (exp (b * tp) - 1) in
     let rj := - rj in
     Ok (accumulate si tp rj nt 1 0 p, accumulate si tq rj nt 1 0 q, rj))
     (p, q, -1));
  mret (u, p, q).

Definition nmoupq (r0 r1 : R) (nt ni : Z)
  : M World (list R * list R * list R) :=
  let tmax := (nt - 1)%Z in
  inv ← lift (py_fdiv 1 (r1 * r1));
  let a := IZR tmax * IZR tmax * (inv - 1) in
  ramp ← lift (rampfloat 0 1 nt);
  u ← lift (mapM (fun x => real_sqrt (x ^ 2 + a)) ramp);
  d ← lift (py_idiv tmax (ni + 1));
  ts ← lift (rampfloat (IZR d) (IZR d) ni);
  p ← lift (zerofloat nt);
  q ← lift (zerofloat nt);
  si ← fromErrorAndFrequency 0.01 0.45;
  '(p, q, _) ← lift (for_each (range ni) (fun ji '(p, q, rj) =>
     tp ← getitem ts ji;
     tq ← real_sqrt (tp * tp + a);
     let rj := - rj in
     Ok (accumulate si tp rj nt 1 0 p, accumulate si tq rj nt 1 0 q, rj))
     (p, q, -1));
  mret (u, p, q).

Definition makeImpulses (r : R) (nt ni : Z) : M World (list R * list R) :=
  p ← lift (zerofloat nt);
  q ← lift (zerofloat nt);
  let tmax := (nt - 1)%Z in
  d ← lift (py_idiv tmax (ni + 1));
  ts ← lift (if Rle_dec r 1
             then rampfloat (IZR d) (IZR d) ni
             else dr ← py_fdiv (IZR d) r;
                  dr' ← py_fdiv (IZR d) r;
                  rampfloat dr dr' ni);
  si ← fromErrorAndFrequency 0.01 0.45;
  '(p, q, _) ← lift (for_each (range ni) (fun ji '(p, q, rj) =>
     tp ← getitem ts ji;
     let tq := r * tp in
     let tq := if Rle_dec r 1 then tq + (1 - r) * IZR tmax else tq in
     let rj := - rj in
     Ok (accumulate si tp rj nt 1 0 p, accumulate si tq rj nt 1 0 q, rj))
     (p, q, -1));
  mret (p, q).

End Generators.

(** ** bench/src/warp/waveletwarpingab.py: normalizeRms and rms
    (exact arithmetic) *)

Section Rms.
Local Open Scope R_scope.

(** [sum(rx)]: the sum of all samples. *)
Definition asum (a : array R) : R := foldr Rplus 0 (elements a).

(** [len(f)] *)
Definition alen (a : array R) : Z :=
  match a with
  | Array1 x => Z.of_nat (length x)
  | Array2 x => Z.of_nat (length x)
  end.

(** [len(f[0])]: the first element must exist and be an array itself. *)
Definition alen0 (a : array R) : res Z :=
  match a with
  | Array1 [] => Raise IndexError
  | Array1 (_ :: _) => Raise TypeError
  | Array2 [] => Raise IndexError
  | Array2 (row :: _) => Ok (Z.of_nat (length row))
  end.

Definition rms (f : ref) : M (store R) R :=
  g ← mul_new f f;
  x ← load g;
  a ← load f;
  q1 ← lift (py_fdiv (asum x) (IZR (alen a)));
  n1 ← lift (alen0 a);
  q2 ← lift (py_fdiv q1 (IZR n1));
  lift (real_sqrt q2).

Definition normalizeRms (f : ref) : M (store R) unit :=
  r ← rms f;
  s ← lift (py_fdiv 1 r);
  mul_into s f f.

End Rms.
End Wwab.

(** ** The core operations (spec sections 3 and 4)

    The resampling, convolution and estimation operators are methods of the
    Java classes [warp.WaveletWarpingAB] and [warp.WarpingFilter], which the
    drivers only call.  They are modelled from the contracts of the
    specification, in exact arithmetic. *)

Module Core.

Local Open Scope R_scope.

(** Modelled from the spec: the Filter of section 3, a finite sequence of
    real coefficients with an integer time-origin offset. *)
Record Filter : Type := {
  coeff : list R;   (* coefficients *)
  offset : Z        (* time-origin offset *)
}.

Definition Rsum (l : list R) : R := foldr Rplus 0 l.

(** A signal read at an integer index, zero outside its extent. *)
Definition sample_at (x : list R) (i : Z) : R :=
  if ((0 <=? i) && (i <? Z.of_nat (length x)))%Z
  then nth (Z.to_nat i) x 0
  else 0.

(** Modelled from the spec: the sum of section 4.2 over the coefficients
    [c], the first of which has index [k]. *)
Fixpoint conv_sum (c : list R) (k : Z) (off : Z) (x : list R) (i : Z) : R :=
  match c with
  | [] => 0
  | ck :: c' => ck * sample_at x (i - k + off) + conv_sum c' (k + 1) off x i
  end.

(** Modelled from the spec: the convolution operator of section 4.2, whose
    implementation ([WaveletWarpingAB.convolve]) is not part of the drivers:
    [output[i] = sum_k coeff[k] * x[i - k + offset]], zero-padded at the
    boundaries, of the same length as [x]. *)
Definition convolve (h : Filter) (x : list R) : list R :=
  (fun i => conv_sum (coeff h) 0 (offset h) x i) <$> range (Z.of_nat (length x)).

(** [alpha*x + beta*y] on signals. *)
Definition lincomb (alpha : R) (x : list R) (beta : R) (y : list R) : list R :=
  zip_with (fun a b => alpha * a + beta * b) x y.

(** The closed time window [tmin..tmax]. *)
Definition window (tmin tmax : Z) : list Z :=
  (fun t => (tmin + t)%Z) <$> range (tmax - tmin + 1).

Section Resampling.

(** The value of the band-limited interpolant of a signal at a position
    inside its extent, for a given kernel design, and the output sample for
    a position outside it (clamped or skipped: the spec leaves it to the
    implementation). *)
Variable interpolate : SincInterpolator -> list R -> R -> R.
Variable outside : list R -> R -> R.

(** Modelled from the spec: the fixed defaults of section 4.1. *)
Definition default_kernel : SincInterpolator :=
  {| si_emax := 0.01; si_fmax := 0.45 |}.

Definition in_extent (x : list R) (p : R) : bool :=
  if Rle_dec 0 p
  then if Rle_dec p (IZR (Z.of_nat (length x) - 1)) then true else false
  else false.

(** Modelled from the spec: the resampling operator of section 4.1, whose
    implementation ([WaveletWarpingAB.warp]) is not part of the drivers: one
    output sample per sample of the warp function, approximating [x] at the
    position [warp[i]]. *)
Definition resample (warp x : list R) : list R :=
  (fun p => if in_extent x p
            then interpolate default_kernel x p
            else outside x p) <$> warp.

(** Modelled from the spec: the rows of the design of section 4.4, the
    samples of the time window whose warp value falls inside the extent of
    the warped signal (the others are excluded from the sum). *)
Definition rows (warp g : list R) (tmin tmax : Z) : list Z :=
  filter (fun t => is_true (in_extent g (sample_at warp t))) (window tmin tmax).

(** Modelled from the spec: the objective of section 4.4,
    [J(a,b) = sum_t ((a*f)(t) - Warp(b*g)(t))^2] over the time window.  The
    clipping of the window against the half-lengths of the filters, for
    which the spec gives no formula, is left out; filters of length one
    have half-length zero. *)
Definition objective (a b : Filter) (warp f g : list R) (tmin tmax : Z) : R :=
  Rsum ((fun t => (sample_at (convolve a f) t
                   - sample_at (resample warp (convolve b g)) t) ^ 2)
        <$> rows warp g tmin tmax).

(** Modelled from the spec: the squared norm of the concatenation [a; b]
    and the constraint of section 4.4 on a pair of filters of the requested
    lengths and offsets. *)
Definition norm2 (a b : Filter) : R :=
  Rsum ((fun c => c ^ 2) <$> coeff a) + Rsum ((fun c => c ^ 2) <$> coeff b).

Definition admissible (na ka nb kb : Z) (a b : Filter) : Prop :=
  Z.of_nat (length (coeff a)) = na /\ offset a = ka /\
  Z.of_nat (length (coeff b)) = nb /\ offset b = kb /\
  norm2 a b = 1.

(** Modelled from the spec: the estimator of section 4.4, whose
    implementation ([WaveletWarpingAB.getInverseAB]) is not part of the
    drivers.  A pair [(a,b)] is a result when it has the requested shape
    and unit norm and minimises the objective, with the stabilization
    factor added on the diagonal of the normal equations, among all such
    pairs: the eigenvector of the smallest eigenvalue.  The spec fixes the
    result up to this; it is a relation, not a function. *)
Definition is_estimate (na ka nb kb : Z) (warp f g : list R)
    (tmin tmax : Z) (sfac : R) (a b : Filter) : Prop :=
  admissible na ka nb kb a b /\
  forall a' b', admissible na ka nb kb a' b' ->
    objective a b warp f g tmin tmax + sfac * norm2 a b
    <= objective a' b' warp f g tmin tmax + sfac * norm2 a' b'.

End Resampling.

(** The energy of a signal over the time window. *)
Definition energy (f : list R) (tmin tmax : Z) : R :=
  Rsum ((fun t => sample_at f t ^ 2) <$> window tmin tmax).

(** The filter with the single coefficient [c] at lag zero. *)
Definition scalar_filter (c : R) : Filter := {| coeff := [c]; offset := 0 |}.

(** The identity warp on [n] samples. *)
Definition identity_warp (n : nat) : list R := IZR <$> range (Z.of_nat n).

(** Zero-order hold: the sample at the grid position at or below [p].  The
    simplest interpolant that returns the samples at grid positions; it
    stands for the open kernel in the examples. *)
Definition hold (_ : SincInterpolator) (x : list R) (p : R) : R :=
  sample_at x (up p - 1).

Definition skip (_ : list R) (_ : R) : R := 0.

End Core.

(** ** Predicates used in the statements *)

(** An [n2] by [n1] array of zeros and ones. *)
Definition zero_one_image {F : Type} `{FloatOps F} (n1 n2 : nat)
    (f : list (list F)) : Prop :=
  length f = n2 /\
  Forall (fun row => length row = n1 /\ Forall (fun v => v = f0 \/ v = f1) row) f.

(** The extent of an array along each axis. *)
Definition shape {F : Type} (a : array F) : nat + list nat :=
  match a with
  | Array1 x => inl (length x)
  | Array2 x => inr (length <$> x)
  end.

(** [u[i] <= u[i+1]] for all valid [i]. *)
Definition nondecreasing (u : list R) : Prop :=
  forall (i : nat) (x y : R),
    u !! i = Some x -> u !! S i = Some y -> (x <= y)%R.

(** The parameters every sinc interpolator is expected to have. *)
Definition default_parameters (si : SincInterpolator) : Prop :=
  si_emax si = 0.01%R /\ si_fmax si = 0.45%R.

(** Every sinc interpolator that a run of [m] builds, from any world, has
    the default parameters. *)
Definition builds_only_default_kernels {A : Type} (m : M World A) : Prop :=
  forall w, exists new,
    sincs (m w).2 = sincs w ++ new /\ Forall default_parameters new.

(** The result of [m] is the same from any two worlds, and [m] does not
    advance the shared generator. *)
Definition ignores_world {A : Type} (m : M World A) : Prop :=
  forall w1 w2,
    (m w1).1 = (m w2).1 /\ shared_random (m w1).2 = shared_random w1.

(** [u[i] > u[i+1]] for all valid [i]. *)
Definition strictly_decreasing (u : list R) : Prop :=
  forall (i : nat) (x y : R),
    u !! i = Some x -> u !! S i = Some y -> (y < x)%R.

(** The sample at row [r2], column [r1] of a two-dimensional array. *)
Definition entry {A : Type} (f : list (list A)) (r2 r1 : nat) : option A :=
  row ← f !! r2; row !! r1.

(** Index [r] is one of the [n / k] lattice points
    [(n - (n/k - 1)*k)/2 + i*k] along an axis of [n] samples. *)
Definition on_lattice (n k : Z) (r : nat) : Prop :=
  exists i, 0 <= i < n / k /\
            Z.of_nat r = (n - (n / k - 1) * k) / 2 + i * k.

(** The sum of the squares of the samples. *)
Definition sumsq (a : array R) : R :=
  foldr Rplus 0%R ((fun v => (v * v)%R) <$> elements a).

(** An [n2] by [n1] image holding 1.0 exactly at the places [W]. *)
Definition image_of {F : Type} `{FloatOps F} (n1 n2 : nat)
    (W : nat -> nat -> Prop) (f : list (list F)) : Prop :=
  length f = n2 /\
  Forall (fun row => length row = n1) f /\
  forall r2 r1 v, entry f r2 r1 = Some v ->
    (W r2 r1 -> v = f1) /\ (~ W r2 r1 -> v = f0).

(** Lattice point number [l] along an axis of [n] samples with spacing
    [k]. *)
Definition lattice_point (n k l : Z) : Z :=
  (n - (n / k - 1) * k) / 2 + l * k.

(** The two end-point coordinates [c - h] and [c + h] of a segment. *)
Definition segment (c h : R) : list R := [(c - h)%R; (c + h)%R].

(** [M] rows of two samples each. *)
Definition two_point_rows (M : nat) (x : list (list R)) : Prop :=
  length x = M /\ Forall (fun row => length row = 2%nat) x.

(** [M] rows of two samples, of which the first [c] are those of [A]. *)
Definition rows_filled (M c : nat) (A : nat -> list R)
    (x : list (list R)) : Prop :=
  two_point_rows M x /\
  forall ll, (ll < c)%nat -> x !! ll = Some (A ll).

(** * Properties *)

(** ** Loops, indices and integer division *)

Lemma elem_of_range (n x : Z) : x ∈ range n <-> 0 <= x < n.
Proof.
  unfold range. rewrite list_elem_of_fmap. split.
  - intros (k & -> & Hk). apply elem_of_seq in Hk. lia.
  - intros Hx. exists (Z.to_nat x). split; [lia|].
    apply elem_of_seq. lia.
Qed.

Lemma py_index_in_range (len i : Z) :
  0 <= i < len -> py_index len i = Ok (Z.to_nat i).
Proof.
  intros Hi. unfold py_index.
  destruct (Z.ltb_spec i 0); [lia|].
  destruct (Z.leb_spec 0 i); [|lia].
  destruct (Z.ltb_spec i len); [|lia]. reflexivity.
Qed.

Lemma py_idiv_nonzero (a b : Z) : b <> 0 -> py_idiv a b = Ok (a / b).
Proof.
  intros Hb. unfold py_idiv. destruct (Z.eqb_spec b 0); [lia|reflexivity].
Qed.

(** A loop that cannot fail while an invariant holds keeps the invariant. *)
Lemma for_each_invariant {A S : Type} (I : S -> Prop) (xs : list A)
    (body : A -> S -> res S) (s : S) :
  I s ->
  (forall x s, x ∈ xs -> I s -> exists s', body x s = Ok s' /\ I s') ->
  exists s', for_each xs body s = Ok s' /\ I s'.
Proof.
  revert s. induction xs as [|x xs IH]; intros s Hs Hbody; simpl.
  - eauto.
  - destruct (Hbody x s) as (s1 & -> & Hs1); [left|done|]. simpl.
    apply IH; [done|]. intros y t Hy. apply Hbody. by right.
Qed.

(** The impulses of one axis lie inside it. *)
Lemma impulse_index_in_axis (n k i : Z) :
  0 < n -> 0 < k -> 0 <= i < n / k ->
  0 <= (n - (n / k - 1) * k) / 2 + i * k < n.
Proof.
  intros Hn Hk Hi.
  pose proof (Z.mul_div_le n k Hk) as Hle.
  set (m := n / k) in *.
  set (r := n - (m - 1) * k).
  assert (Hr : k <= r) by (unfold r; nia).
  assert (Hj : 0 <= r / 2) by (apply Z.div_pos; lia).
  assert (Hj' : 2 * (r / 2) <= r) by (apply Z.mul_div_le; lia).
  assert (Hik : i * k <= (m - 1) * k) by nia.
  assert (0 <= i * k) by nia.
  split; [lia|]. unfold r in *. nia.
Qed.

(** ** sos2.makeImpulses *)

Section Sos2Properties.
Context {F : Type} `{FloatOps F}.

Lemma zerofloat2_zero_one (n1 n2 : Z) :
  0 <= n1 -> 0 <= n2 ->
  exists f, Sos2.zerofloat2 n1 n2 = Ok f /\
            zero_one_image (Z.to_nat n1) (Z.to_nat n2) f.
Proof.
  intros H1 H2. unfold Sos2.zerofloat2.
  destruct (Z.ltb_spec n1 0); [lia|]. destruct (Z.ltb_spec n2 0); [lia|].
  simpl. eexists; split; [reflexivity|]. split.
  - apply length_replicate.
  - apply Forall_replicate. split; [apply length_replicate|].
    apply Forall_replicate. by left.
Qed.

Lemma setitem2_zero_one (n1 n2 : nat) (f : list (list F)) (i2 i1 : Z) (v : F) :
  zero_one_image n1 n2 f ->
  0 <= i2 < Z.of_nat n2 -> 0 <= i1 < Z.of_nat n1 ->
  v = f0 \/ v = f1 ->
  exists f', Sos2.setitem2 f i2 i1 v = Ok f' /\ zero_one_image n1 n2 f'.
Proof.
  intros [Hlen Hrows] H2 H1 Hv. unfold Sos2.setitem2.
  rewrite py_index_in_range by lia. simpl.
  destruct (lookup_lt_is_Some_2 f (Z.to_nat i2)) as [row Hrow]; [lia|].
  rewrite Hrow.
  destruct (Forall_lookup_1 _ _ _ _ Hrows Hrow) as [Hlrow Hvals].
  rewrite py_index_in_range by lia. simpl.
  eexists; split; [reflexivity|]. split.
  - by rewrite length_insert.
  - apply Forall_insert; [done|]. split.
    + by rewrite length_insert.
    + by apply Forall_insert.
Qed.

(** C9. For positive [n1], [n2], [k1], [k2], [makeImpulses] computes its
    impulse counts and first indices without error, every index pair it
    writes lies in [0,n2) x [0,n1) (rows, columns), no write raises, and the
    array it returns has [n2] rows of [n1] samples, each 0.0 or 1.0. *)
Theorem makeImpulses_in_bounds (n1 n2 k1 k2 : Z) :
  0 < n1 -> 0 < n2 -> 0 < k1 -> 0 < k2 ->
  exists m1 m2 j1 j2 f,
    Sos2.impulse_count n1 k1 = Ok m1 /\
    Sos2.impulse_count n2 k2 = Ok m2 /\
    Sos2.impulse_first n1 k1 m1 = Ok j1 /\
    Sos2.impulse_first n2 k2 m2 = Ok j2 /\
    (forall i1 i2, i1 ∈ range m1 -> i2 ∈ range m2 ->
       0 <= j2 + i2 * k2 < n2 /\ 0 <= j1 + i1 * k1 < n1) /\
    Sos2.makeImpulses n1 n2 k1 k2 = Ok f /\
    zero_one_image (Z.to_nat n1) (Z.to_nat n2) f.
Proof.
  intros Hn1 Hn2 Hk1 Hk2.
  assert (Hb : forall i1 i2, i1 ∈ range (n1 / k1) -> i2 ∈ range (n2 / k2) ->
    0 <= (n2 - (n2 / k2 - 1) * k2) / 2 + i2 * k2 < n2 /\
    0 <= (n1 - (n1 / k1 - 1) * k1) / 2 + i1 * k1 < n1).
  { intros i1 i2 Hi1%elem_of_range Hi2%elem_of_range.
    split; apply impulse_index_in_axis; lia. }
  exists (n1 / k1), (n2 / k2), ((n1 - (n1 / k1 - 1) * k1) / 2),
    ((n2 - (n2 / k2 - 1) * k2) / 2).
  destruct (zerofloat2_zero_one n1 n2) as (z & Hz & Hwf); [lia..|].
  destruct (for_each_invariant (zero_one_image (Z.to_nat n1) (Z.to_nat n2))
    (range (n2 / k2))
    (fun i2 f => for_each (range (n1 / k1)) (fun i1 f =>
       Sos2.setitem2 f ((n2 - (n2 / k2 - 1) * k2) / 2 + i2 * k2)
         ((n1 - (n1 / k1 - 1) * k1) / 2 + i1 * k1) f1) f) z)
    as (f & Hf & Hwf'); [done| |].
  { intros i2 g Hi2 Hg. apply for_each_invariant; [done|].
    intros i1 g' Hi1 Hg'. destruct (Hb i1 i2 Hi1 Hi2).
    apply setitem2_zero_one; [done|lia|lia|by right]. }
  exists f. unfold Sos2.makeImpulses, Sos2.impulse_count, Sos2.impulse_first.
  repeat (rewrite !py_idiv_nonzero by lia; simpl).
  rewrite Hz. simpl. done.
Qed.

End Sos2Properties.

(** The run [makeImpulses(5,4,2,3)] on binary32 samples. *)
Lemma makeImpulses_in_bounds_witness :
  exists m1 m2 j1 j2 f,
    Sos2.impulse_count 5 2 = Ok m1 /\
    Sos2.impulse_count 4 3 = Ok m2 /\
    Sos2.impulse_first 5 2 m1 = Ok j1 /\
    Sos2.impulse_first 4 3 m2 = Ok j2 /\
    (forall i1 i2, i1 ∈ range m1 -> i2 ∈ range m2 ->
       0 <= j2 + i2 * 3 < 4 /\ 0 <= j1 + i1 * 2 < 5) /\
    Sos2.makeImpulses (F:=spec_float) 5 4 2 3 = Ok f /\
    zero_one_image 5 4 f.
Proof. apply (makeImpulses_in_bounds (F:=spec_float) 5 4 2 3); lia. Defined.

Example makeImpulses_5_4_2_3 :
  Sos2.makeImpulses (F:=spec_float) 5 4 2 3 =
  Ok [[f0; f0; f0; f0; f0]; [f0; f0; f0; f0; f0];
      [f0; f1; f0; f1; f0]; [f0; f0; f0; f0; f0]].
Proof. reflexivity. Qed.

(** ** ArrayMath on the store *)

Section ArrayMathProperties.
Context {F : Type} `{FloatOps F}.

Lemma load_lookup (h : store F) (r : ref) (a : array F) :
  h !! r = Some a -> load r h = (Ok a, h).
Proof. intros Hr. unfold load. by rewrite Hr. Qed.

Lemma zip1_same_length (g : F -> F -> F) (x y : list F) :
  length x = length y -> zip1 g x y = Ok (zip_with g x y).
Proof.
  revert y. induction x as [|a x IH]; intros [|b y] Hl;
    simpl in *; try done.
  rewrite IH by lia. done.
Qed.

Lemma zip2_same_shape (g : F -> F -> F) (x y : list (list F)) :
  length <$> x = length <$> y ->
  zip2 g x y = Ok (zip_with (zip_with g) x y).
Proof.
  revert y. induction x as [|a x IH]; intros [|b y] Hl;
    simpl in *; try done.
  injection Hl as Hab Hxy.
  rewrite zip1_same_length, IH by done. done.
Qed.

Lemma length_zip_with_same {A B C : Type} (g : A -> B -> C) (x : list A) (y : list B) :
  length x = length y -> length (zip_with g x y) = length x.
Proof. intros Hl. rewrite length_zip_with. lia. Qed.

Lemma shape_zip2 (g : F -> F -> F) (x y : list (list F)) :
  length <$> x = length <$> y ->
  length <$> zip_with (zip_with g) x y = length <$> x.
Proof.
  revert y. induction x as [|a x IH]; intros [|b y] Hl;
    simpl in *; try done.
  injection Hl as Hab Hxy. rewrite IH by done.
  by rewrite length_zip_with_same.
Qed.

Lemma azip_same_shape (g : F -> F -> F) (a b : array F) :
  shape a = shape b ->
  exists c, azip g a b = Ok c /\ shape c = shape a.
Proof.
  destruct a as [x|x], b as [y|y]; simpl; intros Hs; try done.
  - injection Hs as Hl. rewrite zip1_same_length by done.
    eexists; split; [reflexivity|]. simpl. by rewrite length_zip_with_same.
  - injection Hs as Hl. rewrite zip2_same_shape by done.
    eexists; split; [reflexivity|]. simpl. by rewrite shape_zip2.
Qed.

Lemma shape_amap (g : F -> F) (a : array F) : shape (amap g a) = shape a.
Proof.
  destruct a as [x|x]; simpl.
  - by rewrite length_fmap.
  - f_equal. rewrite <- list_fmap_compose. apply list_fmap_ext.
    intros i row _. simpl. apply length_map.
Qed.

Lemma blit1_same_length (new old : list F) :
  length new = length old -> blit1 new old = Ok new.
Proof.
  intros Hl. unfold blit1. case_decide; [|lia].
  rewrite drop_ge by lia. by rewrite app_nil_r.
Qed.

Lemma blit2_same_shape (new old : list (list F)) :
  length <$> new = length <$> old -> blit2 new old = Ok new.
Proof.
  revert old. induction new as [|a new IH]; intros [|b old] Hl;
    simpl in *; try done.
  injection Hl as Hab Hrest.
  rewrite blit1_same_length, IH by done. done.
Qed.

Lemma blit_same_shape (new old : array F) :
  shape new = shape old -> blit new old = Ok new.
Proof.
  destruct new as [x|x], old as [y|y]; simpl; intros Hs; try done;
    injection Hs as Hl.
  - by rewrite blit1_same_length.
  - by rewrite blit2_same_shape.
Qed.

Lemma write_into_same_shape (h : store F) (rz : ref) (new old : array F) :
  h !! rz = Some old -> shape new = shape old ->
  write_into rz new h = (Ok tt, <[rz := new]> h).
Proof.
  intros Hr Hs. unfold write_into, mbind, M_bind, lift, store_at.
  rewrite (load_lookup _ _ _ Hr), blit_same_shape by done. done.
Qed.

Lemma elements_amap (g : F -> F) (a : array F) :
  elements (amap g a) = g <$> elements a.
Proof.
  destruct a as [x|x]; simpl; [done|].
  induction x as [|row x IH]; simpl; [done|].
  rewrite fmap_app. f_equal. exact IH.
Qed.

End ArrayMathProperties.

(** ** The in-place helpers [gain] and [normalizeMax] *)

Section HelperClaims.
Context {F : Type} `{FloatOps F}.

Lemma normalizeMax_effect (h : store F) (f : ref) (x : array F) :
  h !! f = Some x ->
  exists r h', Wwab.normalizeMax f h = (r, h') /\
    ((exists scale, r = Ok tt /\
        h' = <[f := amap (fmul (to_float scale)) x]> h) \/
     (exists e, r = Raise e /\ h' = h)).
Proof.
  intros Hf. unfold Wwab.normalizeMax, mbind, M_bind, lift.
  rewrite (load_lookup _ _ _ Hf).
  destruct (amax x) as [mx|e]; [|eauto 7].
  destruct (amin x) as [mn|e]; [|eauto 7].
  destruct (if flt (fabs mn) (fabs mx) then _ else _) as [scale|e];
    [|eauto 7].
  unfold mul_into, mbind, M_bind. rewrite (load_lookup _ _ _ Hf).
  rewrite (write_into_same_shape h f _ x Hf) by apply shape_amap.
  eauto 7.
Qed.

Lemma gain_effect (ref_apply1 : Z -> array F -> array F) (hw : Z)
    (h : store F) (f : ref) (x : array F) :
  h !! f = Some x ->
  (forall a, shape (ref_apply1 hw a) = shape a) ->
  exists xx y,
    azip fmul x x = Ok xx /\
    azip fdiv x (amap fsqrt (ref_apply1 hw xx)) = Ok y /\
    Wwab.gain ref_apply1 hw f h =
      (Ok tt, <[f := y]> (h ++ [ref_apply1 hw xx;
                                amap fsqrt (ref_apply1 hw xx)])).
Proof.
  intros Hf Hshape.
  destruct (azip_same_shape fmul x x) as (xx & Hxx & Sxx); [done|].
  set (g1 := ref_apply1 hw xx). set (s := amap fsqrt g1).
  assert (Sg1 : shape g1 = shape x) by (unfold g1; by rewrite Hshape).
  assert (Ss : shape s = shape x) by (unfold s; by rewrite shape_amap).
  destruct (azip_same_shape fdiv x s) as (y & Hy & Sy); [done|].
  exists xx, y. split; [done|]. split; [done|].
  assert (Hg0 : (h ++ [xx]) !! length h = Some xx)
    by apply list_lookup_middle, eq_refl.
  assert (Hg1 : (h ++ [g1]) !! length h = Some g1)
    by apply list_lookup_middle, eq_refl.
  assert (Hf2 : (h ++ [g1; s]) !! f = Some x)
    by (apply lookup_app_l_Some; done).
  assert (Hs2 : (h ++ [g1; s]) !! S (length h) = Some s).
  { change (h ++ [g1; s]) with (h ++ [g1] ++ [s]). rewrite app_assoc.
    apply list_lookup_middle. rewrite length_app. simpl. lia. }
  unfold Wwab.gain, mul_new, sqrt_new, div_into, mbind, M_bind, lift, alloc.
  do 2 (rewrite (load_lookup _ _ _ Hf); cbv beta match). rewrite Hxx.
  cbv beta match.
  rewrite (load_lookup _ _ _ Hg0). cbv beta match.
  rewrite (write_into_same_shape _ _ _ _ Hg0) by (fold g1; congruence).
  cbv beta match. fold g1.
  rewrite insert_app_r_alt, Nat.sub_diag by lia.
  change (<[0%nat:=g1]> [xx]) with [g1].
  rewrite (load_lookup _ _ _ Hg1). cbv beta match. fold s.
  rewrite <- app_assoc. change ([g1] ++ [s]) with [g1; s].
  rewrite (load_lookup _ _ _ Hf2). cbv beta match.
  replace (length (h ++ [g1])) with (S (length h))
    by (rewrite length_app; simpl; lia).
  rewrite (load_lookup _ _ _ Hs2). cbv beta match. rewrite Hy.
  cbv beta match.
  by rewrite (write_into_same_shape _ _ _ _ Hf2).
Qed.

(** C3 (amended).  [gain] and [normalizeMax] return no new Signal: each
    overwrites the array passed to it.  [normalizeMax(f)] either raises and
    leaves the store as it was, or replaces the contents of [f] by
    [scale*f]; it allocates nothing.  [gain(hw,f)] replaces the contents of
    [f] by [f / sqrt(smooth(f*f))], the smoothing filter keeping the shape
    of its input.  In both cases every other array that existed before the
    call keeps its contents. *)
Theorem helpers_overwrite_in_place (ref_apply1 : Z -> array F -> array F)
    (hw : Z) (h : store F) (f : ref) (x : array F) :
  h !! f = Some x ->
  (forall a, shape (ref_apply1 hw a) = shape a) ->
  (exists r h', Wwab.normalizeMax f h = (r, h') /\
     length h' = length h /\
     (forall k, k <> f -> h' !! k = h !! k) /\
     ((exists scale, r = Ok tt /\
         h' !! f = Some (amap (fmul (to_float scale)) x)) \/
      (exists e, r = Raise e /\ h' = h))) /\
  (exists xx y h', Wwab.gain ref_apply1 hw f h = (Ok tt, h') /\
     azip fmul x x = Ok xx /\
     azip fdiv x (amap fsqrt (ref_apply1 hw xx)) = Ok y /\
     h' !! f = Some y /\
     (forall k, k <> f -> (k < length h)%nat -> h' !! k = h !! k)).
Proof.
  intros Hf Hshape.
  assert (Hlt : (f < length h)%nat) by (eapply lookup_lt_Some; done).
  split.
  - destruct (normalizeMax_effect h f x Hf) as (r & h' & Hrun & Hcase).
    exists r, h'. split; [done|].
    destruct Hcase as [(scale & -> & ->)|(e & -> & ->)].
    + split; [apply length_insert|]. split.
      * intros k Hk. by apply list_lookup_insert_ne.
      * left. exists scale. split; [done|]. by apply list_lookup_insert_eq.
    + split; [done|]. split; [done|]. right. eauto.
  - destruct (gain_effect ref_apply1 hw h f x Hf Hshape)
      as (xx & y & Hxx & Hy & Hrun).
    exists xx, y. eexists. split; [exact Hrun|].
    split; [done|]. split; [done|]. split.
    + apply list_lookup_insert_eq. rewrite length_app. lia.
    + intros k Hk Hkl. rewrite list_lookup_insert_ne by done.
      by apply lookup_app_l.
Qed.

End HelperClaims.

(** The store used in the examples: one binary32 array. *)
Lemma helpers_overwrite_in_place_witness :
  (exists r h',
     Wwab.normalizeMax (F:=spec_float) 0%nat
       [Array1 [float_of_Z 2; float_of_Z 1]] = (r, h') /\
     length h' = 1%nat /\
     (forall k, k <> 0%nat ->
        h' !! k = [Array1 [float_of_Z 2; float_of_Z 1]] !! k) /\
     ((exists scale, r = Ok tt /\
         h' !! 0%nat = Some (amap (fmul (to_float scale))
                               (Array1 [float_of_Z 2; float_of_Z 1]))) \/
      (exists e, r = Raise e /\ h' = [Array1 [float_of_Z 2; float_of_Z 1]]))) /\
  (exists xx y h',
     Wwab.gain (F:=spec_float) (fun _ a => a) 100 0%nat
       [Array1 [float_of_Z 2; float_of_Z 1]] = (Ok tt, h') /\
     azip fmul (Array1 [float_of_Z 2; float_of_Z 1])
               (Array1 [float_of_Z 2; float_of_Z 1]) = Ok xx /\
     azip fdiv (Array1 [float_of_Z 2; float_of_Z 1]) (amap fsqrt xx) = Ok y /\
     h' !! 0%nat = Some y /\
     (forall k, k <> 0%nat -> (k < 1)%nat ->
        h' !! k = [Array1 [float_of_Z 2; float_of_Z 1]] !! k)).
Proof.
  apply (helpers_overwrite_in_place (F:=spec_float) (fun _ a => a) 100
           [Array1 [float_of_Z 2; float_of_Z 1]] 0%nat
           (Array1 [float_of_Z 2; float_of_Z 1])).
  - reflexivity.
  - reflexivity.
Defined.

(** C3 (as stated, refuted).  [normalizeMax] on the array [2.0, 1.0]: after
    the call the array passed in holds [1.0, 0.5]. *)
Lemma normalizeMax_overwrites_its_argument :
  Wwab.normalizeMax (F:=spec_float) 0%nat [Array1 [float_of_Z 2; float_of_Z 1]]
    = (Ok tt, [Array1 [float_of_Z 1; S754_finite false 8388608 (-24)]]) /\
  [Array1 [float_of_Z 1; S754_finite false 8388608 (-24)]]
    <> [Array1 [float_of_Z 2; float_of_Z 1]].
Proof. split; [reflexivity|discriminate]. Qed.


(** [normalizeMax] on zeros, in IEEE arithmetic: the division raises and the
    array is left as it was. *)
Example normalizeMax_zeros_ieee :
  Wwab.normalizeMax (F:=spec_float) 0%nat [Array1 [f0; f0; f0]]
    = (Raise ZeroDivisionError, [Array1 [f0; f0; f0]]).
Proof. reflexivity. Qed.

(** ** [normalizeMax] in exact arithmetic *)

Section NormalizeMaxExact.
Local Open Scope R_scope.






Lemma py_fdiv_R (a b : R) : b <> 0 -> py_fdiv a b = Ok (a / b).
Proof.
  intros Hb. unfold py_fdiv. simpl. by destruct (Req_dec_T b 0).
Qed.

Lemma py_fdiv_R_zero (a : R) : py_fdiv a 0 = Raise ZeroDivisionError.
Proof. unfold py_fdiv. simpl. by destruct (Req_dec_T 0 0). Qed.




End NormalizeMaxExact.

Section NormalizeMaxClaim.
Local Open Scope R_scope.


End NormalizeMaxClaim.


(** ** The warp generators *)

Lemma lookup_range (n : Z) (i : nat) (z : Z) :
  range n !! i = Some z <-> z = Z.of_nat i /\ (i < Z.to_nat n)%nat.
Proof.
  unfold range. rewrite list_lookup_fmap. split.
  - intros Hz. destruct (seq 0 (Z.to_nat n) !! i) as [k|] eqn:E; [|done].
    apply lookup_seq in E as [-> Hi]. simpl in Hz. by injection Hz as <-.
  - intros [-> Hi]. by rewrite lookup_seq_lt.
Qed.

Lemma length_range (n : Z) : length (range n) = Z.to_nat n.
Proof. unfold range. by rewrite length_fmap, length_seq. Qed.

Lemma rampfloat_inv (ra rb : R) (n : Z) (l : list R) :
  rampfloat ra rb n = Ok l ->
  l = (fun i => (ra + rb * IZR i)%R) <$> range n.
Proof.
  unfold rampfloat. destruct (n <? 0); [done|]. by intros [= <-].
Qed.

Lemma rampfloat_nonneg (ra rb : R) (n : Z) :
  0 <= n -> rampfloat ra rb n = Ok ((fun i => (ra + rb * IZR i)%R) <$> range n).
Proof.
  intros Hn. unfold rampfloat. by destruct (Z.ltb_spec n 0); [lia|].
Qed.

Lemma zerofloat_nonneg (n : Z) :
  0 <= n -> zerofloat n = Ok (replicate (Z.to_nat n) 0%R).
Proof.
  intros Hn. unfold zerofloat. by destruct (Z.ltb_spec n 0); [lia|].
Qed.

Lemma lookup_ramp (ra rb : R) (n : Z) (i : nat) (v : R) :
  ((fun i => (ra + rb * IZR i)%R) <$> range n) !! i = Some v ->
  v = (ra + rb * INR i)%R /\ (i < Z.to_nat n)%nat.
Proof.
  rewrite list_lookup_fmap. destruct (range n !! i) as [z|] eqn:E; [|done].
  apply lookup_range in E as [-> Hi]. simpl. intros [= <-].
  by rewrite <- INR_IZR_INZ.
Qed.

Lemma mapM_res_lookup {A B : Type} (g : A -> res B) (l : list A) (l' : list B) :
  mapM g l = Ok l' ->
  forall i y, l' !! i = Some y -> exists x, l !! i = Some x /\ g x = Ok y.
Proof.
  revert l'. induction l as [|a l IH]; intros l'; simpl.
  - intros [= <-] i y Hy. done.
  - destruct (g a) as [b|e] eqn:Ea; [|done]. simpl.
    destruct (mapM g l) as [k|e] eqn:El; [|done]. simpl.
    intros [= <-] [|i] y Hy; simpl in *.
    + injection Hy as <-. eauto.
    + eauto.
Qed.

Lemma mapM_res_total {A B : Type} (g : A -> res B) (l : list A) :
  (forall x, x ∈ l -> exists y, g x = Ok y) ->
  exists l', mapM g l = Ok l'.
Proof.
  induction l as [|a l IH]; intros Hall; simpl; [by eexists|].
  destruct (Hall a) as [b ->]; [left|]. simpl.
  destruct IH as [k ->]; [intros x Hx; apply Hall; by right|]. simpl.
  by eexists.
Qed.

Lemma length_Random_floats (n : nat) (s : Z) :
  length (Random_floats n s).1 = n.
Proof.
  revert s. induction n as [|n IH]; intros s; cbn [Random_floats]; [done|].
  destruct (Random_nextFloat s) as [x s1].
  specialize (IH s1). destruct (Random_floats n s1) as [xs s2].
  simpl in *. by f_equal.
Qed.

Lemma getitem_in_range (x : list R) (i : Z) :
  0 <= i < Z.of_nat (length x) -> exists v, getitem x i = Ok v.
Proof.
  intros Hi. unfold getitem. rewrite py_index_in_range by done. simpl.
  destruct (lookup_lt_is_Some_2 x (Z.to_nat i)) as [v ->]; [lia|]. eauto.
Qed.

Section Curves.
Local Open Scope R_scope.

Lemma real_log_inv (x y : R) : real_log x = Ok y -> 0 < x /\ y = ln x.
Proof. unfold real_log. destruct (Rlt_dec 0 x); [|done]. by intros [= <-]. Qed.

Lemma real_log_pos (x : R) : 0 < x -> real_log x = Ok (ln x).
Proof. intros Hx. unfold real_log. by destruct (Rlt_dec 0 x). Qed.

Lemma real_sqrt_inv (x y : R) : real_sqrt x = Ok y -> 0 <= x /\ y = sqrt x.
Proof. unfold real_sqrt. destruct (Rle_dec 0 x); [|done]. by intros [= <-]. Qed.

Lemma real_sqrt_nonneg (x : R) : 0 <= x -> real_sqrt x = Ok (sqrt x).
Proof. intros Hx. unfold real_sqrt. by destruct (Rle_dec 0 x). Qed.

Lemma py_fdiv_R_inv (a b c : R) : py_fdiv a b = Ok c -> b <> 0 /\ c = a / b.
Proof.
  unfold py_fdiv. simpl. destruct (Req_dec_T b 0); [done|]. by intros [= <-].
Qed.

Lemma ln_ratio_pos (r0 r1 : R) : 0 < r1 -> r1 < r0 -> 0 < ln (r0 / r1).
Proof.
  intros H1 H01. rewrite <- ln_1. apply ln_increasing; [lra|].
  apply Rmult_lt_reg_r with r1; [done|].
  unfold Rdiv. rewrite Rmult_assoc, Rinv_l by lra. lra.
Qed.

Lemma ln_nondecreasing (x y : R) : 0 < x -> x <= y -> ln x <= ln y.
Proof.
  intros Hx [Hlt| ->]; [|lra]. left. by apply ln_increasing.
Qed.

(** The logarithmic curve [a*log(1+b*i)] rises when [a] and [b] are
    positive. *)
Lemma log_curve_step (a b : R) (i : nat) :
  0 < a -> 0 < b -> a * ln (1 + b * INR i) <= a * ln (1 + b * INR (S i)).
Proof.
  intros Ha Hb. pose proof (pos_INR i) as Hi. rewrite S_INR.
  apply Rmult_le_compat_l; [lra|].
  assert (0 <= b * INR i) by (apply Rmult_le_pos; lra).
  apply ln_nondecreasing; nra.
Qed.

End Curves.

(** ** Running a generator *)

Lemma bind_res_inv {A B : Type} (m : res A) (k : A -> res B) (b : B) :
  m ≫= k = Ok b -> exists a, m = Ok a /\ k a = Ok b.
Proof. destruct m as [a|e]; simpl; [eauto|done]. Qed.

Lemma bind_lift_inv {S A B : Type} (r : res A) (k : A -> M S B) (s s' : S) (b : B) :
  (lift r ≫= k) s = (Ok b, s') -> exists a, r = Ok a /\ k a s = (Ok b, s').
Proof.
  unfold mbind, M_bind, lift. destruct r as [a|e]; [eauto|done].
Qed.

Lemma bind_lift_ok {S A B : Type} (r : res A) (k : A -> M S B) (s : S) (a : A) :
  r = Ok a -> (lift r ≫= k) s = k a s.
Proof. intros ->. reflexivity. Qed.

Lemma bind_kernel_inv {B : Type} (emax fmax : R)
    (k : SincInterpolator -> M World B) (w w' : World) (b : B) :
  (fromErrorAndFrequency emax fmax ≫= k) w = (Ok b, w') ->
  k {| si_emax := emax; si_fmax := fmax |}
    {| sincs := sincs w ++ [{| si_emax := emax; si_fmax := fmax |}];
       shared_random := shared_random w |} = (Ok b, w').
Proof. unfold mbind, M_bind, fromErrorAndFrequency. done. Qed.

Section CurveProperties.
Local Open Scope R_scope.

Variable accumulate :
  SincInterpolator -> R -> R -> Z -> R -> R -> list R -> list R.

Lemma logupq_curve_nondecreasing (r0 r1 : R) (nt : Z) (u : list R)
    (t : R -> res R) :
  0 < r1 -> r1 <= r0 ->
  Wwab.logupq_curve r0 r1 nt = Ok (u, t) -> nondecreasing u.
Proof.
  intros H1 H01. unfold Wwab.logupq_curve.
  destruct (Req_dec_T r0 r1) as [Heq|Hne].
  - intros (u0 & Hramp%rampfloat_inv & [= <- _])%bind_res_inv.
    subst u0. intros i x y Hx%lookup_ramp Hy%lookup_ramp.
    destruct Hx as [-> _], Hy as [-> _]. rewrite S_INR. nra.
  - intros (ratio & [_ ->]%py_fdiv_R_inv & H)%bind_res_inv.
    apply bind_res_inv in H as (l & [_ ->]%real_log_inv & H).
    apply bind_res_inv in H as (a & [Hl ->]%py_fdiv_R_inv & H).
    apply bind_res_inv in H as (b & [Ha ->]%py_fdiv_R_inv & H).
    apply bind_res_inv in H as (ramp & ->%rampfloat_inv & H).
    apply bind_res_inv in H as (lg & Hlg & [= <- _]).
    assert (Hlpos : 0 < ln (r0 / r1)) by (apply ln_ratio_pos; lra).
    intros i x y. rewrite !list_lookup_fmap.
    destruct (lg !! i) as [li|] eqn:Ei; [|done].
    destruct (lg !! S i) as [lsi|] eqn:Esi; [|done].
    simpl. intros [= <-] [= <-].
    destruct (mapM_res_lookup _ _ _ Hlg _ _ Ei) as (xi & Hxi & Hli).
    destruct (mapM_res_lookup _ _ _ Hlg _ _ Esi) as (xsi & Hxsi & Hlsi).
    apply lookup_ramp in Hxi as [-> _]. apply lookup_ramp in Hxsi as [-> Hlt].
    apply real_log_inv in Hli as [_ ->]. apply real_log_inv in Hlsi as [_ ->].
    assert (Hnt : (2 <= nt)%Z) by lia.
    assert (Hu : 1 <= IZR (nt - 1)) by (apply IZR_le; lia).
    set (a := IZR (nt - 1) / ln (r0 / r1)) in *.
    assert (Hapos : 0 < a) by (apply Rdiv_lt_0_compat; lra).
    assert (Hbpos : 0 < r0 / a) by (apply Rdiv_lt_0_compat; lra).
    by apply log_curve_step.
Qed.

Lemma logupq_curve_total (r0 r1 : R) (nt : Z) :
  0 < r1 -> r1 <= r0 -> (2 <= nt)%Z ->
  exists u t, Wwab.logupq_curve r0 r1 nt = Ok (u, t) /\
              forall x, exists y, t x = Ok y.
Proof.
  intros H1 H01 Hnt. unfold Wwab.logupq_curve.
  destruct (Req_dec_T r0 r1) as [Heq|Hne].
  - rewrite rampfloat_nonneg by lia. simpl. do 2 eexists. split; [done|].
    intros x. cbv beta. rewrite py_fdiv_R by lra. eauto.
  - assert (Hlpos : 0 < ln (r0 / r1)) by (apply ln_ratio_pos; lra).
    assert (Hu : 1 <= IZR (nt - 1)) by (apply IZR_le; lia).
    set (a := IZR (nt - 1) / ln (r0 / r1)).
    assert (Hapos : 0 < a) by (apply Rdiv_lt_0_compat; lra).
    assert (Hbpos : 0 < r0 / a) by (apply Rdiv_lt_0_compat; lra).
    rewrite py_fdiv_R by lra. simpl.
    rewrite real_log_pos by (apply Rdiv_lt_0_compat; lra). simpl.
    rewrite py_fdiv_R by lra. simpl. fold a.
    rewrite py_fdiv_R by lra. simpl.
    rewrite rampfloat_nonneg by lia. simpl.
    destruct (mapM_res_total real_log
      ((fun i => 1 + r0 / a * IZR i) <$> range nt)) as [lg ->].
    { intros x (i & -> & Hi%elem_of_range)%list_elem_of_fmap.
      exists (ln (1 + r0 / a * IZR i)). apply real_log_pos.
      assert (0 <= IZR i) by (apply IZR_le; lia). nra. }
    simpl. do 2 eexists. split; [done|].
    intros x. cbv beta. rewrite py_fdiv_R by lra. simpl.
    rewrite py_fdiv_R by lra. eauto.
Qed.

End CurveProperties.

Section GeneratorCurves.
Local Open Scope R_scope.

Variable accumulate :
  SincInterpolator -> R -> R -> Z -> R -> R -> list R -> list R.

Lemma logupq_curve_of_run (r0 r1 : R) (nt ni : Z) (w w' : World)
    (u p q : list R) :
  Wwab.logupq accumulate r0 r1 nt ni w = (Ok (u, p, q), w') ->
  exists t, Wwab.logupq_curve r0 r1 nt = Ok (u, t).
Proof.
  unfold Wwab.logupq. intros H.
  apply bind_lift_inv in H as ([x1 rand1] & _ & H).
  apply bind_lift_inv in H as ([x2 rand2] & _ & H).
  apply bind_lift_inv in H as ([u0 t] & Hcurve & H).
  apply bind_lift_inv in H as (p0 & _ & H).
  apply bind_lift_inv in H as (q0 & _ & H).
  apply bind_kernel_inv in H.
  apply bind_lift_inv in H as ([p1 q1] & _ & H).
  injection H as -> _ _ _. eauto.
Qed.

Lemma nmoupq_curve_of_run (r0 r1 : R) (nt ni : Z) (w w' : World)
    (u p q : list R) :
  Wwab.nmoupq accumulate r0 r1 nt ni w = (Ok (u, p, q), w') ->
  exists inv,
    py_fdiv 1 (r1 * r1) = Ok inv /\
    mapM (fun x => real_sqrt (x ^ 2 + IZR (nt - 1) * IZR (nt - 1) * (inv - 1)))
         ((fun i => 0 + 1 * IZR i) <$> range nt) = Ok u.
Proof.
  unfold Wwab.nmoupq. intros H.
  apply bind_lift_inv in H as (inv & Hinv & H). cbv zeta in H.
  apply bind_lift_inv in H as (ramp & ->%rampfloat_inv & H).
  apply bind_lift_inv in H as (u0 & Hu & H).
  apply bind_lift_inv in H as (d & _ & H).
  apply bind_lift_inv in H as (ts & _ & H).
  apply bind_lift_inv in H as (p0 & _ & H).
  apply bind_lift_inv in H as (q0 & _ & H).
  apply bind_kernel_inv in H.
  apply bind_lift_inv in H as ([[p1 q1] rj] & _ & H).
  injection H as -> _ _ _. eauto.
Qed.

Lemma nmo_offset_nonneg (r1 : R) (tmax : Z) :
  0 < r1 -> r1 <= 1 -> 0 <= IZR tmax * IZR tmax * (1 / (r1 * r1) - 1).
Proof.
  intros H0 H1. apply Rmult_le_pos; [nra|].
  assert (1 <= 1 / (r1 * r1)); [|lra].
  apply Rmult_le_reg_r with (r1 * r1); [nra|].
  unfold Rdiv. rewrite Rmult_assoc, Rinv_l by nra. nra.
Qed.

Lemma nmoupq_nondecreasing (r0 r1 : R) (nt ni : Z) (w w' : World)
    (u p q : list R) :
  0 < r1 -> r1 <= 1 ->
  Wwab.nmoupq accumulate r0 r1 nt ni w = (Ok (u, p, q), w') ->
  nondecreasing u.
Proof.
  intros H0 H1 (inv & [_ ->]%py_fdiv_R_inv & Hu)%nmoupq_curve_of_run.
  pose proof (nmo_offset_nonneg r1 (nt - 1) H0 H1) as Ha.
  intros i x y Hx Hy.
  destruct (mapM_res_lookup _ _ _ Hu _ _ Hx) as (xi & Hxi & Hsx).
  destruct (mapM_res_lookup _ _ _ Hu _ _ Hy) as (xsi & Hxsi & Hsy).
  apply lookup_ramp in Hxi as [-> _]. apply lookup_ramp in Hxsi as [-> _].
  apply real_sqrt_inv in Hsx as [_ ->]. apply real_sqrt_inv in Hsy as [_ ->].
  apply sqrt_le_1_alt. pose proof (pos_INR i). rewrite S_INR. nra.
Qed.

End GeneratorCurves.

Section GeneratorsTotal.
Local Open Scope R_scope.

Variable accumulate :
  SincInterpolator -> R -> R -> Z -> R -> R -> list R -> list R.

Lemma randfloat_nonneg (rand n : Z) :
  (0 <= n)%Z -> randfloat rand n = Ok (Random_floats (Z.to_nat n) rand).
Proof.
  intros Hn. unfold randfloat. by destruct (Z.ltb_spec n 0); [lia|].
Qed.

Lemma for_each_total {A S : Type} (xs : list A) (body : A -> S -> res S) (s : S) :
  (forall x s, x ∈ xs -> exists s', body x s = Ok s') ->
  exists s', for_each xs body s = Ok s'.
Proof.
  intros Hbody.
  destruct (for_each_invariant (fun _ => True) xs body s) as (s' & Hs' & _);
    [done| |eauto].
  intros x t Hx _. destruct (Hbody x t Hx) as [t' Ht']. eauto.
Qed.

Lemma logupq_total (r0 r1 : R) (nt ni : Z) (w : World) :
  0 < r1 -> r1 <= r0 -> (2 <= nt)%Z -> (0 <= ni)%Z ->
  exists u p q w',
    Wwab.logupq accumulate r0 r1 nt ni w = (Ok (u, p, q), w').
Proof.
  intros H1 H01 Hnt Hni.
  destruct (logupq_curve_total r0 r1 nt H1 H01 Hnt) as (u & t & Hcurve & Ht).
  unfold Wwab.logupq.
  erewrite bind_lift_ok by (by apply randfloat_nonneg).
  pose proof (length_Random_floats (Z.to_nat ni) (Random_new 3)) as Hl1.
  destruct (Random_floats (Z.to_nat ni) (Random_new 3)) as [x1 rand1].
  cbv beta match zeta.
  erewrite bind_lift_ok by (by apply randfloat_nonneg).
  pose proof (length_Random_floats (Z.to_nat ni) rand1) as Hl2.
  destruct (Random_floats (Z.to_nat ni) rand1) as [x2 rand2].
  cbv beta match zeta. simpl in Hl1, Hl2.
  erewrite bind_lift_ok by exact Hcurve. cbv beta match zeta.
  erewrite bind_lift_ok by (apply zerofloat_nonneg; lia).
  erewrite bind_lift_ok by (apply zerofloat_nonneg; lia).
  unfold mbind at 1, M_bind at 1, fromErrorAndFrequency at 1.
  cbv beta match zeta.
  match goal with |- context [for_each ?xs ?body ?s] =>
    destruct (for_each_total xs body s) as [[p q] Hloop] end.
  { intros ji [p q] Hji%elem_of_range.
    destruct (getitem_in_range (Rmult (IZR (nt - 1)) <$> x1) ji) as [ui ->];
      [rewrite length_fmap; lia|].
    destruct (getitem_in_range
      ((fun x => ((x - 0.5) * 2) ^ 5) <$> x2) ji) as [ri ->];
      [rewrite length_fmap; lia|].
    destruct (Ht ui) as [ti Hti]. simpl. rewrite Hti. simpl. eauto. }
  erewrite bind_lift_ok by exact Hloop. simpl. eauto.
Qed.

Lemma nmoupq_total (r0 r1 : R) (nt ni : Z) (w : World) :
  0 < r1 -> r1 <= 1 -> (0 <= nt)%Z -> (0 <= ni)%Z ->
  exists u p q w',
    Wwab.nmoupq accumulate r0 r1 nt ni w = (Ok (u, p, q), w').
Proof.
  intros H0 H1 Hnt Hni.
  pose proof (nmo_offset_nonneg r1 (nt - 1) H0 H1) as Ha.
  unfold Wwab.nmoupq.
  erewrite bind_lift_ok by (apply py_fdiv_R; nra). cbv zeta.
  erewrite bind_lift_ok by (apply rampfloat_nonneg; lia).
  destruct (mapM_res_total
    (fun x => real_sqrt (x ^ 2 + IZR (nt - 1) * IZR (nt - 1) * (1 / (r1 * r1) - 1)))
    ((fun i => 0 + 1 * IZR i) <$> range nt)) as [u Hu].
  { intros x _. eexists. apply real_sqrt_nonneg. nra. }
  erewrite bind_lift_ok by exact Hu.
  erewrite bind_lift_ok by (apply py_idiv_nonzero; lia).
  erewrite bind_lift_ok by (apply rampfloat_nonneg; lia).
  erewrite bind_lift_ok by (apply zerofloat_nonneg; lia).
  erewrite bind_lift_ok by (apply zerofloat_nonneg; lia).
  unfold mbind at 1, M_bind at 1, fromErrorAndFrequency at 1.
  cbv beta match zeta.
  match goal with |- context [for_each ?xs ?body ?s] =>
    destruct (for_each_total xs body s) as [[[p q] rj] Hloop] end.
  { intros ji [[p q] rj] Hji%elem_of_range.
    match goal with |- context [getitem ?ts ji] =>
      destruct (getitem_in_range ts ji) as [tp ->] end.
    { rewrite length_fmap, length_range. lia. }
    simpl. rewrite real_sqrt_nonneg by nra. simpl. eauto. }
  erewrite bind_lift_ok by exact Hloop. simpl. eauto.
Qed.

End GeneratorsTotal.

(** ** Claims about the warp generators *)

Section GeneratorClaims.
Local Open Scope R_scope.

Variable accumulate :
  SincInterpolator -> R -> R -> Z -> R -> R -> list R -> list R.

(** C5.  For [r0 >= r1 > 0] every warp curve that [logupq] returns is
    non-decreasing, and it returns one for at least two time samples; for
    [0 < r1 <= 1] every warp curve that [nmoupq] returns is
    non-decreasing, and it returns one for any sample count. *)
Theorem warp_curves_nondecreasing (r0 r1 : R) (nt ni : Z) (w : World) :
  0 < r1 ->
  (r1 <= r0 ->
     (forall u p q w',
        Wwab.logupq accumulate r0 r1 nt ni w = (Ok (u, p, q), w') ->
        nondecreasing u) /\
     ((2 <= nt)%Z -> (0 <= ni)%Z ->
      exists u p q w',
        Wwab.logupq accumulate r0 r1 nt ni w = (Ok (u, p, q), w'))) /\
  (r1 <= 1 ->
     (forall u p q w',
        Wwab.nmoupq accumulate r0 r1 nt ni w = (Ok (u, p, q), w') ->
        nondecreasing u) /\
     ((0 <= nt)%Z -> (0 <= ni)%Z ->
      exists u p q w',
        Wwab.nmoupq accumulate r0 r1 nt ni w = (Ok (u, p, q), w'))).
Proof.
  intros H1. split.
  - intros H01. split.
    + intros u p q w' [t Ht]%logupq_curve_of_run.
      by eapply logupq_curve_nondecreasing.
    + intros Hnt Hni. by apply logupq_total.
  - intros Hr1. split.
    + intros u p q w' Hrun. by eapply nmoupq_nondecreasing.
    + intros Hnt Hni. by apply nmoupq_total.
Qed.

End GeneratorClaims.

(** [logupq(3.0,1.0,3,2)] and [nmoupq(3.0,1.0,3,2)], with an accumulator
    that leaves the sequence as it is: both return a curve, and it is
    non-decreasing. *)
Lemma warp_curves_nondecreasing_witness :
  ((forall u p q w',
      Wwab.logupq (fun _ _ _ _ _ _ y => y) 3 1 3 2
        {| sincs := []; shared_random := 0 |} = (Ok (u, p, q), w') ->
      nondecreasing u) /\
   (exists u p q w',
      Wwab.logupq (fun _ _ _ _ _ _ y => y) 3 1 3 2
        {| sincs := []; shared_random := 0 |} = (Ok (u, p, q), w'))) /\
  ((forall u p q w',
      Wwab.nmoupq (fun _ _ _ _ _ _ y => y) 3 1 3 2
        {| sincs := []; shared_random := 0 |} = (Ok (u, p, q), w') ->
      nondecreasing u) /\
   (exists u p q w',
      Wwab.nmoupq (fun _ _ _ _ _ _ y => y) 3 1 3 2
        {| sincs := []; shared_random := 0 |} = (Ok (u, p, q), w'))).
Proof.
  destruct (warp_curves_nondecreasing (fun _ _ _ _ _ _ y => y) 3 1 3 2
              {| sincs := []; shared_random := 0 |}) as [Hlog Hnmo]; [lra|].
  destruct Hlog as [Hl1 Hl2]; [lra|]. destruct Hnmo as [Hn1 Hn2]; [lra|].
  split; (split; [assumption|]).
  - apply Hl2; lia.
  - apply Hn2; lia.
Defined.

(** ** What a computation does to the world *)

Section WorldRules.
Context {A B : Type}.

Lemma default_ret (a : A) : builds_only_default_kernels (mret a).
Proof. intros w. exists []. by rewrite app_nil_r. Qed.

Lemma default_lift (r : res A) : builds_only_default_kernels (lift r).
Proof. intros w. exists []. by rewrite app_nil_r. Qed.

Lemma default_kernel_built :
  builds_only_default_kernels (fromErrorAndFrequency 0.01 0.45).
Proof.
  intros w. eexists. split; [reflexivity|].
  apply Forall_singleton. by split.
Qed.

Lemma default_bind (m : M World A) (k : A -> M World B) :
  builds_only_default_kernels m ->
  (forall a, builds_only_default_kernels (k a)) ->
  builds_only_default_kernels (m ≫= k).
Proof.
  intros Hm Hk w. destruct (Hm w) as (new1 & Hs1 & Hd1).
  unfold mbind, M_bind. destruct (m w) as [[a|e] w1]; simpl in *.
  - destruct (Hk a w1) as (new2 & Hs2 & Hd2).
    exists (new1 ++ new2). rewrite Hs2, Hs1, app_assoc.
    split; [done|]. by apply Forall_app.
  - eauto.
Qed.

Lemma ignores_ret (a : A) : ignores_world (mret a).
Proof. done. Qed.

Lemma ignores_lift (r : res A) : ignores_world (lift r).
Proof. done. Qed.

Lemma ignores_kernel (emax fmax : R) :
  ignores_world (fromErrorAndFrequency emax fmax).
Proof. done. Qed.

Lemma ignores_bind (m : M World A) (k : A -> M World B) :
  ignores_world m ->
  (forall a, ignores_world (k a)) ->
  ignores_world (m ≫= k).
Proof.
  intros Hm Hk w1 w2. destruct (Hm w1 w2) as [Hr Hs].
  unfold mbind, M_bind.
  destruct (m w1) as [r1 v1], (m w2) as [r2 v2]. simpl in *. subst r2.
  destruct r1 as [a|e]; [|done].
  destruct (Hk a v1 v2) as [Hr' Hs']. split; [done|]. congruence.
Qed.

End WorldRules.

(** Apply the rules along the binds of a generator. *)
Ltac world_rules bind_rule lift_rule kernel_rule ret_rule :=
  repeat first
    [ progress cbv beta match zeta
    | apply lift_rule
    | apply kernel_rule
    | apply ret_rule
    | apply bind_rule
    | intros [[? ?] ?]
    | intros [? ?]
    | intro ].

Section GeneratorWorldClaims.
Local Open Scope R_scope.

Variable accumulate :
  SincInterpolator -> R -> R -> Z -> R -> R -> list R -> list R.

(** C4.  Every sinc interpolator built by the drivers (in [logupq],
    [logupqOld], [expupq], [nmoupq] and [makeImpulses], the only places that
    build one) has maximum error 0.01 and passband edge 0.45. *)
Theorem sinc_kernels_have_default_parameters (r0 r1 r : R) (nt ni : Z) :
  builds_only_default_kernels (Wwab.logupq accumulate r0 r1 nt ni) /\
  builds_only_default_kernels (Wwab.logupqOld accumulate r0 r1 nt ni) /\
  builds_only_default_kernels (Wwab.expupq accumulate r0 r1 nt ni) /\
  builds_only_default_kernels (Wwab.nmoupq accumulate r0 r1 nt ni) /\
  builds_only_default_kernels (Wwab.makeImpulses accumulate r nt ni).
Proof.
  repeat split.
  - unfold Wwab.logupq.
    world_rules @default_bind @default_lift @default_kernel_built @default_ret.
  - unfold Wwab.logupqOld.
    world_rules @default_bind @default_lift @default_kernel_built @default_ret.
  - unfold Wwab.expupq.
    world_rules @default_bind @default_lift @default_kernel_built @default_ret.
  - unfold Wwab.nmoupq.
    world_rules @default_bind @default_lift @default_kernel_built @default_ret.
  - unfold Wwab.makeImpulses.
    world_rules @default_bind @default_lift @default_kernel_built @default_ret.
Qed.

(** C10.  Two calls of [logupq] with equal arguments return the same
    triple [(u,p,q)], whatever the world each starts from: its random
    numbers come from a generator it builds itself with seed 3, and the
    shared generator is not advanced. *)
Theorem logupq_deterministic (r0 r1 : R) (nt ni : Z) (w1 w2 : World) :
  (Wwab.logupq accumulate r0 r1 nt ni w1).1
    = (Wwab.logupq accumulate r0 r1 nt ni w2).1 /\
  shared_random (Wwab.logupq accumulate r0 r1 nt ni w1).2
    = shared_random w1.
Proof.
  revert w1 w2. change (ignores_world (Wwab.logupq accumulate r0 r1 nt ni)).
  unfold Wwab.logupq.
  world_rules @ignores_bind @ignores_lift @ignores_kernel @ignores_ret.
Qed.

End GeneratorWorldClaims.

(** The shared generator matters to the code that draws from it:
    [randfloat(1,1)] gives 0 from state 0 and 1502/2^24 from state 1. *)
Example randfloat_shared_reads_world :
  (randfloat_shared 1 1 {| sincs := []; shared_random := 0 |}).1
    = Ok [[(0 / 16777216)%R]] /\
  (randfloat_shared 1 1 {| sincs := []; shared_random := 1 |}).1
    = Ok [[(1502 / 16777216)%R]] /\
  ~ ignores_world (randfloat_shared 1 1).
Proof.
  assert (H0 : (randfloat_shared 1 1 {| sincs := []; shared_random := 0 |}).1
               = Ok [[(0 / 16777216)%R]]) by reflexivity.
  assert (H1 : (randfloat_shared 1 1 {| sincs := []; shared_random := 1 |}).1
               = Ok [[(1502 / 16777216)%R]]) by reflexivity.
  split; [done|]. split; [done|].
  intros Hi.
  destruct (Hi {| sincs := []; shared_random := 0 |}
               {| sincs := []; shared_random := 1 |}) as [Heq _].
  rewrite H0, H1 in Heq. injection Heq as Heq. lra.
Qed.

(** ** The core operations *)

Section ConvolutionProperties.
Local Open Scope R_scope.
Import Core.

Lemma sample_at_lookup (x : list R) (i : nat) (v : R) :
  x !! i = Some v -> sample_at x (Z.of_nat i) = v.
Proof.
  intros Hv. pose proof (lookup_lt_Some _ _ _ Hv) as Hi.
  unfold sample_at.
  destruct (Z.leb_spec 0 (Z.of_nat i)); [|lia].
  destruct (Z.ltb_spec (Z.of_nat i) (Z.of_nat (length x))); [|lia].
  simpl. rewrite Nat2Z.id, nth_lookup. by rewrite Hv.
Qed.

Lemma sample_at_outside (x : list R) (i : Z) :
  (i < 0 \/ Z.of_nat (length x) <= i)%Z -> sample_at x i = 0.
Proof.
  intros Hi. unfold sample_at.
  destruct (Z.leb_spec 0 i); simpl; [|done].
  destruct (Z.ltb_spec i (Z.of_nat (length x))); [lia|done].
Qed.

Lemma sample_at_lincomb (alpha beta : R) (x y : list R) (i : Z) :
  length x = length y ->
  sample_at (lincomb alpha x beta y) i
  = alpha * sample_at x i + beta * sample_at y i.
Proof.
  intros Hl.
  assert (Hlen : length (lincomb alpha x beta y) = length x).
  { unfold lincomb. rewrite length_zip_with. lia. }
  destruct (Z_lt_le_dec i 0) as [Hneg|Hnn].
  { rewrite !sample_at_outside by lia. ring. }
  destruct (Z_lt_le_dec i (Z.of_nat (length x))) as [Hin|Hout].
  - destruct (lookup_lt_is_Some_2 x (Z.to_nat i)) as [a Ha]; [lia|].
    destruct (lookup_lt_is_Some_2 y (Z.to_nat i)) as [b Hb]; [lia|].
    rewrite <- (Z2Nat.id i) by done.
    rewrite (sample_at_lookup _ _ _ Ha), (sample_at_lookup _ _ _ Hb).
    apply sample_at_lookup. unfold lincomb.
    rewrite lookup_zip_with, Ha, Hb. done.
  - rewrite !sample_at_outside by lia. ring.
Qed.

Lemma conv_sum_lincomb (c : list R) (k off : Z) (alpha beta : R)
    (x y : list R) (i : Z) :
  length x = length y ->
  conv_sum c k off (lincomb alpha x beta y) i
  = alpha * conv_sum c k off x i + beta * conv_sum c k off y i.
Proof.
  intros Hl. revert k. induction c as [|ck c IH]; intros k; simpl.
  - ring.
  - rewrite IH, sample_at_lincomb by done. ring.
Qed.

(** C7.  Convolution is linear in the signal: for signals [x] and [y] of
    equal length, [convolve(h, alpha*x + beta*y)] is
    [alpha*convolve(h,x) + beta*convolve(h,y)] in exact arithmetic. *)
Theorem convolve_linear (h : Filter) (alpha beta : R) (x y : list R) :
  length x = length y ->
  convolve h (lincomb alpha x beta y)
  = lincomb alpha (convolve h x) beta (convolve h y).
Proof.
  intros Hl. unfold convolve.
  replace (length (lincomb alpha x beta y)) with (length x)
    by (unfold lincomb; rewrite length_zip_with; lia).
  rewrite <- Hl. unfold lincomb at 2.
  rewrite zip_with_fmap_l, zip_with_fmap_r, zip_with_diag.
  apply list_fmap_ext. intros _ i _. by apply conv_sum_lincomb.
Qed.

End ConvolutionProperties.

(** The filter [1, 2] on [2*(1,0,0) + 3*(0,1,0)]. *)
Lemma convolve_linear_witness :
  Core.convolve {| Core.coeff := [1%R; 2%R]; Core.offset := 0 |}
    (Core.lincomb 2 [1%R; 0%R; 0%R] 3 [0%R; 1%R; 0%R])
  = Core.lincomb 2
      (Core.convolve {| Core.coeff := [1%R; 2%R]; Core.offset := 0 |}
         [1%R; 0%R; 0%R])
      3
      (Core.convolve {| Core.coeff := [1%R; 2%R]; Core.offset := 0 |}
         [0%R; 1%R; 0%R]).
Proof.
  apply (convolve_linear {| Core.coeff := [1%R; 2%R]; Core.offset := 0 |}
           2 3 [1%R; 0%R; 0%R] [0%R; 1%R; 0%R]).
  reflexivity.
Defined.

Section ResamplingProperties.
Import Core.

Variable interpolate : SincInterpolator -> list R -> R -> R.
Variable outside : list R -> R -> R.

(** C6.  The resampled signal has one sample per sample of the warp
    function, whatever the length of the input signal: an 852-sample trace
    warped by a 501-sample warp gives 501 samples. *)
Theorem resample_length (warp x : list R) :
  length (resample interpolate outside warp x) = length warp /\
  (length x = 852%nat -> length warp = 501%nat ->
   length (resample interpolate outside warp x) = 501%nat).
Proof.
  assert (Hl : length (resample interpolate outside warp x) = length warp)
    by (unfold resample; apply length_fmap).
  split; [done|]. intros _ Hw. by rewrite Hl.
Qed.

End ResamplingProperties.

(** ** The estimator on scalar filters under the identity warp *)

Section DegenerateEstimate.
Local Open Scope R_scope.
Import Core.

Variable interpolate : SincInterpolator -> list R -> R -> R.
Variable outside : list R -> R -> R.

(** At a grid position inside the signal the interpolant is the sample
    there: what the spec's degenerate case (objective zero for the identity
    warp) takes for granted. *)
Hypothesis grid_exact : forall si x (i : Z),
  (0 <= i < Z.of_nat (length x))%Z ->
  interpolate si x (IZR i) = sample_at x i.

Lemma convolve_scalar (c : R) (x : list R) :
  convolve (scalar_filter c) x = Rmult c <$> x.
Proof.
  unfold convolve, scalar_filter. simpl. apply list_eq. intros i.
  rewrite !list_lookup_fmap.
  destruct (x !! i) as [v|] eqn:Ev.
  - pose proof (lookup_lt_Some _ _ _ Ev) as Hi.
    rewrite (proj2 (lookup_range _ i (Z.of_nat i))) by (split; [done|lia]).
    simpl. f_equal.
    replace (Z.of_nat i - 0 + 0)%Z with (Z.of_nat i) by lia.
    rewrite (sample_at_lookup _ _ _ Ev). ring.
  - apply lookup_ge_None in Ev.
    rewrite (proj2 (lookup_ge_None _ _)); [done|].
    rewrite length_range. lia.
Qed.

Lemma in_extent_grid (x : list R) (i : Z) :
  (0 <= i < Z.of_nat (length x))%Z -> in_extent x (IZR i) = true.
Proof.
  intros Hi. unfold in_extent.
  destruct (Rle_dec 0 (IZR i)) as [_|Hn]; [|destruct Hn; apply IZR_le; lia].
  destruct (Rle_dec (IZR i) (IZR (Z.of_nat (length x) - 1))) as [_|Hn];
    [done|destruct Hn; apply IZR_le; lia].
Qed.

Lemma sample_at_identity_warp (n : nat) (t : Z) :
  (0 <= t < Z.of_nat n)%Z -> sample_at (identity_warp n) t = IZR t.
Proof.
  intros Ht. rewrite <- (Z2Nat.id t) at 1 by lia.
  apply sample_at_lookup. unfold identity_warp.
  rewrite list_lookup_fmap.
  rewrite (proj2 (lookup_range _ (Z.to_nat t) (Z.of_nat (Z.to_nat t))))
    by (split; [done|lia]).
  simpl. f_equal. f_equal. lia.
Qed.

Lemma resample_identity (x : list R) :
  resample interpolate outside (identity_warp (length x)) x = x.
Proof.
  unfold resample, identity_warp. apply list_eq. intros i.
  rewrite !list_lookup_fmap.
  destruct (x !! i) as [v|] eqn:Ev.
  - pose proof (lookup_lt_Some _ _ _ Ev) as Hi.
    rewrite (proj2 (lookup_range _ i (Z.of_nat i))) by (split; [done|lia]).
    simpl. rewrite in_extent_grid, grid_exact by lia.
    f_equal. by apply sample_at_lookup.
  - apply lookup_ge_None in Ev.
    rewrite (proj2 (lookup_ge_None _ _)); [done|].
    rewrite length_range. lia.
Qed.

Lemma sample_at_scaled (c : R) (x : list R) (t : Z) :
  sample_at (Rmult c <$> x) t = c * sample_at x t.
Proof.
  destruct (Z_lt_le_dec t 0) as [Hneg|Hnn].
  { rewrite !sample_at_outside by (rewrite ?length_fmap; lia). ring. }
  destruct (Z_lt_le_dec t (Z.of_nat (length x))) as [Hin|Hout].
  - destruct (lookup_lt_is_Some_2 x (Z.to_nat t)) as [v Hv]; [lia|].
    rewrite <- (Z2Nat.id t) by done.
    rewrite (sample_at_lookup _ _ _ Hv).
    apply sample_at_lookup. by rewrite list_lookup_fmap, Hv.
  - rewrite !sample_at_outside by (rewrite ?length_fmap; lia). ring.
Qed.

Lemma elem_of_window (tmin tmax t : Z) :
  t ∈ window tmin tmax <-> (tmin <= t <= tmax)%Z.
Proof.
  unfold window. rewrite list_elem_of_fmap. split.
  - intros (k & -> & Hk%elem_of_range). lia.
  - intros Ht. exists (t - tmin)%Z. split; [lia|].
    apply elem_of_range. lia.
Qed.

Lemma filter_all {A : Type} (P : A -> Prop) `{forall x, Decision (P x)}
    (l : list A) :
  Forall P l -> filter P l = l.
Proof.
  induction 1 as [|x l Hx _ IH]; [done|].
  rewrite filter_cons_True by done. by rewrite IH.
Qed.

Lemma rows_identity (f : list R) (tmin tmax : Z) :
  (0 <= tmin)%Z -> (tmax < Z.of_nat (length f))%Z ->
  rows (identity_warp (length f)) (Rmult 0 <$> f) tmin tmax
  = window tmin tmax /\
  forall g, length g = length f ->
    rows (identity_warp (length f)) g tmin tmax = window tmin tmax.
Proof.
  intros Hmin Hmax.
  assert (Hall : forall g, length g = length f ->
    rows (identity_warp (length f)) g tmin tmax = window tmin tmax).
  { intros g Hg. unfold rows.
    apply filter_all, Forall_forall.
    intros t Ht%elem_of_window.
    rewrite sample_at_identity_warp by lia.
    rewrite in_extent_grid by lia. done. }
  split; [|done]. apply Hall. by rewrite length_fmap.
Qed.

Lemma Rsum_scaled {A : Type} (c : R) (g : A -> R) (l : list A) :
  Rsum ((fun t => c * g t) <$> l) = c * Rsum (g <$> l).
Proof.
  unfold Rsum. induction l as [|a l IH]; [simpl; ring|].
  rewrite !fmap_cons. cbn [foldr]. rewrite IH. ring.
Qed.

(** Under the identity warp the objective of two scalar filters on one
    signal is the squared difference of the coefficients times the energy
    in the window. *)
Lemma objective_scalar (a0 b0 : R) (f : list R) (tmin tmax : Z) :
  (0 <= tmin)%Z -> (tmax < Z.of_nat (length f))%Z ->
  objective interpolate outside (scalar_filter a0) (scalar_filter b0)
    (identity_warp (length f)) f f tmin tmax
  = (a0 - b0) ^ 2 * energy f tmin tmax.
Proof.
  intros Hmin Hmax. unfold objective, energy.
  destruct (rows_identity f tmin tmax Hmin Hmax) as [_ Hrows].
  rewrite Hrows by done. rewrite !convolve_scalar.
  replace (identity_warp (length f))
    with (identity_warp (length (Rmult b0 <$> f)))
    by (by rewrite length_fmap).
  rewrite resample_identity.
  rewrite <- Rsum_scaled. f_equal. apply list_fmap_ext.
  intros _ t _. rewrite !sample_at_scaled. ring.
Qed.


Lemma energy_nonneg (f : list R) (tmin tmax : Z) : 0 <= energy f tmin tmax.
Proof.
  unfold energy, Rsum.
  induction (window tmin tmax) as [|t l IH]; [simpl; lra|].
  rewrite fmap_cons. cbn [foldr].
  pose proof (pow2_ge_0 (sample_at f t)). lra.
Qed.

Lemma half_sqrt2_sq : (1 / sqrt 2) ^ 2 = 1 / 2.
Proof.
  assert (Hs : sqrt 2 * sqrt 2 = 2) by (apply sqrt_sqrt; lra).
  assert (Hp : 0 < sqrt 2) by (apply sqrt_lt_R0; lra).
  replace ((1 / sqrt 2) ^ 2) with (1 / (sqrt 2 * sqrt 2)) by (field; lra).
  by rewrite Hs.
Qed.

Lemma norm2_scalar (a0 b0 : R) :
  norm2 (scalar_filter a0) (scalar_filter b0) = a0 ^ 2 + b0 ^ 2.
Proof. unfold norm2, scalar_filter, Rsum. simpl. ring. Qed.

Lemma admissible_scalar (a0 b0 : R) :
  a0 ^ 2 + b0 ^ 2 = 1 ->
  admissible 1 0 1 0 (scalar_filter a0) (scalar_filter b0).
Proof.
  intros Hn. unfold admissible. rewrite norm2_scalar. simpl. done.
Qed.

Lemma admissible_scalar_inv (a b : Filter) :
  admissible 1 0 1 0 a b ->
  exists a0 b0, a = scalar_filter a0 /\ b = scalar_filter b0 /\
                a0 ^ 2 + b0 ^ 2 = 1.
Proof.
  destruct a as [[|a0 [|? ?]] ka], b as [[|b0 [|? ?]] kb];
    intros (Hna & Hka & Hnb & Hkb & Hn);
    simpl in Hna, Hka, Hnb, Hkb; try lia.
  subst ka kb. exists a0, b0. split; [done|]. split; [done|].
  rewrite <- norm2_scalar. exact Hn.
Qed.

(** Both pairs of equal coefficients of unit norm are results. *)
Lemma estimate_scalar_complete (f : list R) (tmin tmax : Z) (sfac c : R) :
  (0 <= tmin)%Z -> (tmax < Z.of_nat (length f))%Z ->
  c = 1 / sqrt 2 \/ c = - (1 / sqrt 2) ->
  is_estimate interpolate outside 1 0 1 0 (identity_warp (length f)) f f
    tmin tmax sfac (scalar_filter c) (scalar_filter c).
Proof.
  intros Hmin Hmax Hc.
  assert (Hcc : c ^ 2 = 1 / 2).
  { destruct Hc as [-> | ->]; [apply half_sqrt2_sq|].
    rewrite <- half_sqrt2_sq. ring. }
  split; [apply admissible_scalar; lra|].
  intros a' b' (a0 & b0 & -> & -> & Hn)%admissible_scalar_inv.
  rewrite !objective_scalar, !norm2_scalar by done.
  pose proof (energy_nonneg f tmin tmax) as He.
  pose proof (pow2_ge_0 (a0 - b0)) as Hd.
  assert (0 <= (a0 - b0) ^ 2 * energy f tmin tmax)
    by (by apply Rmult_le_pos).
  rewrite Hn. replace (c ^ 2 + c ^ 2) with 1 by lra.
  replace ((c - c) ^ 2) with 0 by ring. lra.
Qed.

(** Where the signal has energy in the window, they are the only ones. *)
Lemma estimate_scalar_sound (f : list R) (tmin tmax : Z) (sfac : R)
    (a b : Filter) :
  (0 <= tmin)%Z -> (tmax < Z.of_nat (length f))%Z ->
  0 < energy f tmin tmax ->
  is_estimate interpolate outside 1 0 1 0 (identity_warp (length f)) f f
    tmin tmax sfac a b ->
  exists c, (c = 1 / sqrt 2 \/ c = - (1 / sqrt 2)) /\
            a = scalar_filter c /\ b = scalar_filter c.
Proof.
  intros Hmin Hmax He [Hadm Hbest].
  apply admissible_scalar_inv in Hadm as (a0 & b0 & -> & -> & Hn).
  pose proof half_sqrt2_sq as Hh.
  specialize (Hbest (scalar_filter (1 / sqrt 2)) (scalar_filter (1 / sqrt 2))).
  rewrite !objective_scalar, !norm2_scalar in Hbest by done.
  assert (Hle : (a0 - b0) ^ 2 * energy f tmin tmax <= 0).
  { replace ((1 / sqrt 2 - 1 / sqrt 2) ^ 2) with 0 in Hbest by ring.
    rewrite Hn, Hh in Hbest.
    assert (Hadm' : admissible 1 0 1 0 (scalar_filter (1 / sqrt 2))
                      (scalar_filter (1 / sqrt 2)))
      by (apply admissible_scalar; lra).
    specialize (Hbest Hadm'). lra. }
  assert (Hab : a0 = b0).
  { pose proof (pow2_ge_0 (a0 - b0)) as Hd.
    assert (Hz : (a0 - b0) * (a0 - b0) = 0) by nra.
    apply Rmult_integral in Hz. lra. }
  subst b0. exists a0. split; [|done].
  assert (Hprod : (a0 - 1 / sqrt 2) * (a0 + 1 / sqrt 2) = 0) by nra.
  apply Rmult_integral in Hprod as [H1|H2]; [left|right]; lra.
Qed.

(** What the model of the estimator determines in the degenerate case, for
    a kernel that is exact at the grid positions ([grid_exact]): with the
    identity warp, equal input signals that are not zero throughout the
    time window, and [na = nb = 1], [ka = kb = 0], the unit-norm
    minimisers are exactly the two pairs of equal scalar filters
    [a = b = [1/sqrt 2]] and [a = b = [-1/sqrt 2]], for any stabilization
    factor.  The sign is not determined by the model. *)
Theorem scalar_estimate_under_identity_warp (f : list R) (tmin tmax : Z)
    (sfac : R) (a b : Filter) :
  (0 <= tmin)%Z -> (tmax < Z.of_nat (length f))%Z ->
  0 < energy f tmin tmax ->
  is_estimate interpolate outside 1 0 1 0 (identity_warp (length f)) f f
    tmin tmax sfac a b
  <-> exists c, (c = 1 / sqrt 2 \/ c = - (1 / sqrt 2)) /\
                a = scalar_filter c /\ b = scalar_filter c.
Proof.
  intros Hmin Hmax He. split.
  - by apply estimate_scalar_sound.
  - intros (c & Hc & -> & ->). by apply estimate_scalar_complete.
Qed.

End DegenerateEstimate.

(** ** The concrete scenario: [f = g = [0,1,0,-1,0]], window [0,4] *)

Section Scenario.
Local Open Scope R_scope.
Import Core.

Lemma hold_grid_exact (si : SincInterpolator) (x : list R) (i : Z) :
  (0 <= i < Z.of_nat (length x))%Z -> hold si x (IZR i) = sample_at x i.
Proof.
  intros _. unfold hold. f_equal.
  assert (Hup : (i + 1)%Z = up (IZR i)).
  { apply tech_up; rewrite plus_IZR; lra. }
  lia.
Qed.

Example identity_warp_5 : identity_warp 5 = [0; 1; 2; 3; 4].
Proof. reflexivity. Qed.

Lemma scenario_energy : energy [0; 1; 0; -1; 0] 0 4 = 2.
Proof. unfold energy, Rsum, sample_at. simpl. ring. Qed.

End Scenario.

(** The scenario with the zero-order hold as kernel: the pair
    [a = b = [1/sqrt 2]] is a unit-norm minimiser. *)
Lemma scalar_estimate_under_identity_warp_witness :
  Core.is_estimate Core.hold Core.skip 1 0 1 0
    (Core.identity_warp (length [0; 1; 0; -1; 0]%R))
    [0; 1; 0; -1; 0]%R [0; 1; 0; -1; 0]%R 0 4 0
    (Core.scalar_filter (1 / sqrt 2)) (Core.scalar_filter (1 / sqrt 2)).
Proof.
  apply (scalar_estimate_under_identity_warp Core.hold Core.skip
           hold_grid_exact [0; 1; 0; -1; 0]%R 0 4 0).
  - lia.
  - simpl. lia.
  - rewrite scenario_energy. lra.
  - exists (1 / sqrt 2)%R. split; [by left|done].
Defined.

(** In the same scenario the pair [a = b = [-1/sqrt 2]] is a unit-norm
    minimiser as well, and it is not [[1/sqrt 2]]: which of the two the
    eigen-solver returns is outside the model. *)
Lemma negative_scalar_estimate :
  Core.is_estimate Core.hold Core.skip 1 0 1 0
    (Core.identity_warp 5)
    [0; 1; 0; -1; 0]%R [0; 1; 0; -1; 0]%R 0 4 0
    (Core.scalar_filter (- (1 / sqrt 2)))
    (Core.scalar_filter (- (1 / sqrt 2))) /\
  Core.coeff (Core.scalar_filter (- (1 / sqrt 2))) <> [(1 / sqrt 2)%R].
Proof.
  split.
  - apply (estimate_scalar_complete Core.hold Core.skip hold_grid_exact
             [0; 1; 0; -1; 0]%R 0 4 0); [lia|simpl; lia|by right].
  - intros [= Heq].
    assert (0 < sqrt 2)%R by (apply sqrt_lt_R0; lra).
    assert (0 < 1 / sqrt 2)%R by (apply Rdiv_lt_0_compat; lra).
    lra.
Qed.

(** Without energy in the window every admissible pair is a result: for the
    zero signal the estimator may return [a = [1]], [b = [0]]. *)
Example zero_signal_estimate :
  Core.is_estimate Core.hold Core.skip 1 0 1 0
    (Core.identity_warp 5)
    [0; 0; 0; 0; 0]%R [0; 0; 0; 0; 0]%R 0 4 0
    (Core.scalar_filter 1) (Core.scalar_filter 0) /\
  Core.scalar_filter 1 <> Core.scalar_filter 0.
Proof.
  assert (He : Core.energy [0; 0; 0; 0; 0]%R 0 4 = 0%R)
    by (unfold Core.energy, Core.Rsum, Core.sample_at; simpl; ring).
  split.
  - split; [apply admissible_scalar; ring|].
    intros a' b' (a0 & b0 & -> & -> & Hn)%admissible_scalar_inv.
    change (Core.identity_warp 5)
      with (Core.identity_warp (length [0; 0; 0; 0; 0]%R)).
    rewrite !(objective_scalar Core.hold Core.skip hold_grid_exact)
      by (simpl; lia).
    rewrite He, !norm2_scalar, Hn. lra.
  - intros [= H]. lra.
Qed.

(** * Further properties of the drivers *)

(** ** The warp curves and their inverse maps *)

Section CurveInverse.
Local Open Scope R_scope.

Lemma logupq_curve_inverts (r0 r1 : R) (nt : Z) (u : list R)
    (t : R -> res R) (i : nat) (x : R) :
  r0 <> 0 ->
  Wwab.logupq_curve r0 r1 nt = Ok (u, t) ->
  u !! i = Some x -> t x = Ok (INR i).
Proof.
  intros Hr0. unfold Wwab.logupq_curve.
  destruct (Req_dec_T r0 r1) as [Heq|Hne].
  - intros (u0 & ->%rampfloat_inv & [= <- <-])%bind_res_inv.
    intros [-> _]%lookup_ramp. rewrite py_fdiv_R by done.
    f_equal. field. done.
  - intros (ratio & [_ ->]%py_fdiv_R_inv & H)%bind_res_inv.
    apply bind_res_inv in H as (l & [Hratio ->]%real_log_inv & H).
    apply bind_res_inv in H as (a & [Hl ->]%py_fdiv_R_inv & H).
    apply bind_res_inv in H as (b & [Ha ->]%py_fdiv_R_inv & H).
    apply bind_res_inv in H as (ramp & ->%rampfloat_inv & H).
    apply bind_res_inv in H as (lg & Hlg & [= <- <-]).
    set (a := IZR (nt - 1) / ln (r0 / r1)) in *.
    rewrite list_lookup_fmap.
    destruct (lg !! i) as [li|] eqn:Ei; [|done]. simpl. intros [= <-].
    destruct (mapM_res_lookup _ _ _ Hlg _ _ Ei) as (xi & Hxi & Hli).
    apply lookup_ramp in Hxi as [-> _].
    apply real_log_inv in Hli as [Hpos ->].
    assert (Hb : r0 / a <> 0).
    { unfold Rdiv. apply Rmult_integral_contrapositive_currified; [done|].
      by apply Rinv_neq_0_compat. }
    rewrite py_fdiv_R by done. simpl.
    replace (a * ln (1 + r0 / a * INR i) / a)
      with (ln (1 + r0 / a * INR i)) by (field; done).
    rewrite exp_ln by done. rewrite py_fdiv_R by done.
    f_equal. field. split; [done|]. intros Hr. apply Hb. rewrite Hr.
    unfold Rdiv. ring.
Qed.

Lemma logupq_curve_starts_at_zero (r0 r1 : R) (nt : Z) (u : list R)
    (t : R -> res R) (x : R) :
  Wwab.logupq_curve r0 r1 nt = Ok (u, t) -> u !! 0%nat = Some x -> x = 0.
Proof.
  unfold Wwab.logupq_curve.
  destruct (Req_dec_T r0 r1) as [Heq|Hne].
  - intros (u0 & ->%rampfloat_inv & [= <- _])%bind_res_inv.
    intros [-> _]%lookup_ramp. simpl. ring.
  - intros (ratio & _ & H)%bind_res_inv.
    apply bind_res_inv in H as (l & _ & H).
    apply bind_res_inv in H as (a & _ & H).
    apply bind_res_inv in H as (b & _ & H).
    apply bind_res_inv in H as (ramp & ->%rampfloat_inv & H).
    apply bind_res_inv in H as (lg & Hlg & [= <- _]).
    rewrite list_lookup_fmap.
    destruct (lg !! 0%nat) as [li|] eqn:Ei; [|done]. simpl. intros [= <-].
    destruct (mapM_res_lookup _ _ _ Hlg _ _ Ei) as (xi & Hxi & Hli).
    apply lookup_ramp in Hxi as [-> _].
    apply real_log_inv in Hli as [_ ->]. simpl.
    replace (1 + b * 0) with 1 by ring. rewrite ln_1. ring.
Qed.

(** X1.  The inverse map that [logupq] and [logupqOld] build beside the
    warp curve inverts it: for [r0 >= r1 > 0] and at least two time
    samples the curve [u] and the map [t] are built, [u] has [nt]
    samples, [u[0] = 0] and [t(u[i]) = i] for every sample [i]. *)
Theorem logupq_inverse_map (r0 r1 : R) (nt : Z) :
  0 < r1 -> r1 <= r0 -> (2 <= nt)%Z ->
  exists u t,
    Wwab.logupq_curve r0 r1 nt = Ok (u, t) /\
    length u = Z.to_nat nt /\
    (forall x, u !! 0%nat = Some x -> x = 0) /\
    (forall i x, u !! i = Some x -> t x = Ok (INR i)).
Proof.
  intros H1 H01 Hnt.
  destruct (logupq_curve_total r0 r1 nt H1 H01 Hnt) as (u & t & Hc & _).
  exists u, t. split; [done|]. split.
  - revert Hc. unfold Wwab.logupq_curve.
    destruct (Req_dec_T r0 r1) as [Heq|Hne].
    + intros (u0 & ->%rampfloat_inv & [= <- _])%bind_res_inv.
      by rewrite length_fmap, length_range.
    + intros (ratio & _ & H)%bind_res_inv.
      apply bind_res_inv in H as (l & _ & H).
      apply bind_res_inv in H as (a & _ & H).
      apply bind_res_inv in H as (b & _ & H).
      apply bind_res_inv in H as (ramp & ->%rampfloat_inv & H).
      apply bind_res_inv in H as (lg & Hlg & [= <- _]).
      rewrite length_fmap.
      assert (Hlen : forall (l : list R) l', mapM real_log l = Ok l' ->
                length l' = length l).
      { clear. induction l as [|a l IH]; intros l'; simpl.
        - by intros [= <-].
        - destruct (real_log a); [|done]. simpl.
          destruct (mapM real_log l) as [k|] eqn:E; [|done]. simpl.
          intros [= <-]. simpl. f_equal. by apply IH. }
      rewrite (Hlen _ _ Hlg). by rewrite length_fmap, length_range.
  - split.
    + intros x. by eapply logupq_curve_starts_at_zero.
    + intros i x Hx.
      apply (logupq_curve_inverts r0 r1 nt u t i x); [lra|done|done].
Qed.

End CurveInverse.

(** [logupq_curve(3.0,1.0,3)]. *)
Lemma logupq_inverse_map_witness :
  exists u t,
    Wwab.logupq_curve 3 1 3 = Ok (u, t) /\
    length u = Z.to_nat 3 /\
    (forall x, u !! 0%nat = Some x -> x = 0%R) /\
    (forall i x, u !! i = Some x -> t x = Ok (INR i)).
Proof. apply (logupq_inverse_map 3 1 3); [lra|lra|lia]. Defined.

Section MoreCurves.
Local Open Scope R_scope.

Variable accumulate :
  SincInterpolator -> R -> R -> Z -> R -> R -> list R -> list R.

Lemma expupq_curve_of_run (r0 r1 : R) (nt ni : Z) (w w' : World)
    (u p q : list R) :
  Wwab.expupq accumulate r0 r1 nt ni w = (Ok (u, p, q), w') ->
  exists a b,
    b <> 0 /\ a = r0 / b /\
    u = (fun i => IZR (nt - 1) - a * (exp (0 + b * IZR i) - 1)) <$> range nt.
Proof.
  unfold Wwab.expupq. intros H.
  apply bind_lift_inv in H as (ratio & _ & H).
  apply bind_lift_inv in H as (l & _ & H).
  apply bind_lift_inv in H as (b & _ & H).
  apply bind_lift_inv in H as (a & [Hb ->]%py_fdiv_R_inv & H).
  apply bind_lift_inv in H as (ramp & ->%rampfloat_inv & H).
  cbv zeta in H.
  apply bind_lift_inv in H as (d & _ & H).
  apply bind_lift_inv in H as (ts & _ & H).
  apply bind_lift_inv in H as (p0 & _ & H).
  apply bind_lift_inv in H as (q0 & _ & H).
  apply bind_kernel_inv in H.
  apply bind_lift_inv in H as ([[p1 q1] rj] & _ & H).
  injection H as <- _ _ _. exists (r0 / b), b.
  split; [done|]. split; [done|].
  by rewrite <- list_fmap_compose.
Qed.

Lemma exp_curve_step (a b : R) (i : nat) :
  0 < a * b ->
  a * (exp (0 + b * INR i) - 1) < a * (exp (0 + b * INR (S i)) - 1).
Proof.
  intros Hab. rewrite S_INR.
  destruct (Rtotal_order b 0) as [Hb|[Hb|Hb]].
  - assert (Ha : a < 0).
    { destruct (Rlt_dec a 0) as [|Hn]; [done|]. exfalso.
      assert (0 <= a) by lra. assert (0 <= a * (- b)); [|lra].
      apply Rmult_le_pos; lra. }
    assert (He : exp (0 + b * (INR i + 1)) < exp (0 + b * INR i))
      by (apply exp_increasing; lra).
    apply Ropp_lt_cancel.
    replace (- (a * (exp (0 + b * (INR i + 1)) - 1)))
      with ((- a) * (exp (0 + b * (INR i + 1)) - 1)) by ring.
    replace (- (a * (exp (0 + b * INR i) - 1)))
      with ((- a) * (exp (0 + b * INR i) - 1)) by ring.
    apply Rmult_lt_compat_l; lra.
  - subst b. rewrite Rmult_0_r in Hab. lra.
  - assert (Ha : 0 < a).
    { destruct (Rlt_dec 0 a) as [|Hn]; [done|]. exfalso.
      assert (a <= 0) by lra. assert (0 <= (- a) * b); [|lra].
      apply Rmult_le_pos; lra. }
    assert (He : exp (0 + b * INR i) < exp (0 + b * (INR i + 1)))
      by (apply exp_increasing; lra).
    apply Rmult_lt_compat_l; lra.
Qed.

Lemma expupq_total (r0 r1 : R) (nt ni : Z) (w : World) :
  0 < r0 -> 0 < r1 -> r0 <> r1 -> (2 <= nt)%Z -> (0 <= ni)%Z ->
  exists u p q w',
    Wwab.expupq accumulate r0 r1 nt ni w = (Ok (u, p, q), w').
Proof.
  intros H0 H1 Hne Hnt Hni.
  assert (Hratio : 0 < r1 / r0) by (by apply Rdiv_lt_0_compat).
  assert (Hl : ln (r1 / r0) <> 0).
  { apply ln_neq_0; [|done]. intros Hone. apply Hne.
    apply (f_equal (fun x => x * r0)) in Hone. field_simplify in Hone; lra. }
  assert (Ht : IZR (nt - 1) <> 0) by (apply not_0_IZR; lia).
  assert (Hb : ln (r1 / r0) / IZR (nt - 1) <> 0).
  { unfold Rdiv. apply Rmult_integral_contrapositive_currified; [done|].
    by apply Rinv_neq_0_compat. }
  unfold Wwab.expupq.
  erewrite bind_lift_ok by (apply py_fdiv_R; lra).
  erewrite bind_lift_ok by (by apply real_log_pos).
  erewrite bind_lift_ok by (by apply py_fdiv_R).
  erewrite bind_lift_ok by (by apply py_fdiv_R).
  erewrite bind_lift_ok by (apply rampfloat_nonneg; lia). cbv zeta.
  erewrite bind_lift_ok by (apply py_idiv_nonzero; lia).
  erewrite bind_lift_ok by (apply rampfloat_nonneg; lia).
  erewrite bind_lift_ok by (apply zerofloat_nonneg; lia).
  erewrite bind_lift_ok by (apply zerofloat_nonneg; lia).
  unfold mbind at 1, M_bind at 1, fromErrorAndFrequency at 1.
  cbv beta match zeta.
  match goal with |- context [for_each ?xs ?body ?s] =>
    destruct (for_each_total xs body s) as [[[p q] rj] Hloop] end.
  { intros ji [[p q] rj] Hji%elem_of_range.
    match goal with |- context [getitem ?ts ji] =>
      destruct (getitem_in_range ts ji) as [tp ->] end.
    { rewrite length_fmap, length_range. lia. }
    simpl. eauto. }
  erewrite bind_lift_ok by exact Hloop. simpl. eauto.
Qed.

(** X2.  The warp curve of [expupq] runs backwards: for positive
    [r0 <> r1], at least two time samples and [ni >= 0], [expupq] returns
    a curve of [nt] samples that starts at [u[0] = nt-1] and is strictly
    decreasing. *)
Theorem expupq_curve_decreasing (r0 r1 : R) (nt ni : Z) (w : World) :
  0 < r0 -> 0 < r1 -> r0 <> r1 -> (2 <= nt)%Z -> (0 <= ni)%Z ->
  exists u p q w',
    Wwab.expupq accumulate r0 r1 nt ni w = (Ok (u, p, q), w') /\
    length u = Z.to_nat nt /\
    (forall x, u !! 0%nat = Some x -> x = IZR (nt - 1)) /\
    strictly_decreasing u.
Proof.
  intros H0 H1 Hne Hnt Hni.
  destruct (expupq_total r0 r1 nt ni w H0 H1 Hne Hnt Hni)
    as (u & p & q & w' & Hrun).
  exists u, p, q, w'. split; [done|].
  apply expupq_curve_of_run in Hrun as (a & b & Hb & -> & ->).
  assert (Hab : 0 < r0 / b * b).
  { replace (r0 / b * b) with r0 by (field; done). done. }
  split; [by rewrite length_fmap, length_range|]. split.
  - intros x Hx. rewrite list_lookup_fmap in Hx.
    destruct (range nt !! 0%nat) as [z|] eqn:E; [|done].
    apply lookup_range in E as [-> _]. simpl in Hx. injection Hx as <-.
    replace (0 + b * IZR (Z.of_nat 0)) with 0 by (simpl; ring).
    rewrite exp_0. ring.
  - intros i x y Hx Hy.
    rewrite list_lookup_fmap in Hx, Hy.
    destruct (range nt !! i) as [zi|] eqn:Ei; [|done].
    destruct (range nt !! S i) as [zs|] eqn:Es; [|done].
    apply lookup_range in Ei as [-> _]. apply lookup_range in Es as [-> _].
    simpl in Hx, Hy. injection Hx as <-. injection Hy as <-.
    rewrite <- !INR_IZR_INZ.
    pose proof (exp_curve_step (r0 / b) b i Hab). lra.
Qed.

(** X3.  The warp curve of [nmoupq] never maps a time to an earlier one
    and ends at [(nt-1)/r1]: for [0 < r1 <= 1], every curve it returns has
    [u[i] >= i] for every sample and, when there is one, the last sample
    [u[nt-1] = (nt-1)/r1]; it has [nt] samples. *)
Theorem nmoupq_curve_stretches (r0 r1 : R) (nt ni : Z) (w : World) :
  0 < r1 -> r1 <= 1 ->
  (forall u p q w',
     Wwab.nmoupq accumulate r0 r1 nt ni w = (Ok (u, p, q), w') ->
     (forall i x, u !! i = Some x -> INR i <= x) /\
     (forall x, (1 <= nt)%Z -> u !! Z.to_nat (nt - 1) = Some x ->
        x = IZR (nt - 1) / r1)) /\
  ((0 <= nt)%Z -> (0 <= ni)%Z ->
   exists u p q w',
     Wwab.nmoupq accumulate r0 r1 nt ni w = (Ok (u, p, q), w') /\
     length u = Z.to_nat nt).
Proof.
  intros H0 H1.
  pose proof (nmo_offset_nonneg r1 (nt - 1) H0 H1) as Ha.
  assert (Hlook : forall u i x,
    mapM (fun x => real_sqrt (x ^ 2 + IZR (nt - 1) * IZR (nt - 1)
                                       * (1 / (r1 * r1) - 1)))
         ((fun i => 0 + 1 * IZR i) <$> range nt) = Ok u ->
    u !! i = Some x ->
    x = sqrt (INR i ^ 2 + IZR (nt - 1) * IZR (nt - 1) * (1 / (r1 * r1) - 1))).
  { intros u i x Hu Hx.
    destruct (mapM_res_lookup _ _ _ Hu _ _ Hx) as (xi & Hxi & Hsx).
    apply lookup_ramp in Hxi as [-> _].
    apply real_sqrt_inv in Hsx as [_ ->]. f_equal. ring. }
  split.
  - intros u p q w' (inv & [_ ->]%py_fdiv_R_inv & Hu)%nmoupq_curve_of_run.
    split.
    + intros i x Hx. rewrite (Hlook u i x Hu Hx).
      pose proof (pos_INR i) as Hi.
      rewrite <- (sqrt_pow2 (INR i)) at 1 by done.
      apply sqrt_le_1_alt. lra.
    + intros x Hnt Hx. rewrite (Hlook u _ x Hu Hx).
      rewrite INR_IZR_INZ, Z2Nat.id by lia.
      assert (Ht : 0 <= IZR (nt - 1)) by (apply IZR_le; lia).
      replace (IZR (nt - 1) ^ 2
               + IZR (nt - 1) * IZR (nt - 1) * (1 / (r1 * r1) - 1))
        with ((IZR (nt - 1) / r1) ^ 2) by (field; lra).
      apply sqrt_pow2. apply Rmult_le_pos; [done|].
      left. by apply Rinv_0_lt_compat.
  - intros Hnt Hni.
    destruct (nmoupq_total accumulate r0 r1 nt ni w H0 H1 Hnt Hni)
      as (u & p & q & w' & Hrun).
    exists u, p, q, w'. split; [done|].
    apply nmoupq_curve_of_run in Hrun as (inv & _ & Hu).
    assert (Hlen : forall (g : R -> res R) (l : list R) l',
              mapM g l = Ok l' -> length l' = length l).
    { clear. intros g. induction l as [|a l IH]; intros l'; simpl.
      - by intros [= <-].
      - destruct (g a); [|done]. simpl.
        destruct (mapM g l) as [k|] eqn:E; [|done]. simpl.
        intros [= <-]. simpl. f_equal. by apply IH. }
    rewrite (Hlen _ _ _ Hu). by rewrite length_fmap, length_range.
Qed.

End MoreCurves.

(** [expupq(1.0,2.0,3,2)] with an accumulator that leaves the sequence as
    it is. *)
Lemma expupq_curve_decreasing_witness :
  exists u p q w',
    Wwab.expupq (fun _ _ _ _ _ _ y => y) 1 2 3 2
      {| sincs := []; shared_random := 0 |} = (Ok (u, p, q), w') /\
    length u = Z.to_nat 3 /\
    (forall x, u !! 0%nat = Some x -> x = IZR (3 - 1)) /\
    strictly_decreasing u.
Proof.
  apply (expupq_curve_decreasing (fun _ _ _ _ _ _ y => y) 1 2 3 2
           {| sincs := []; shared_random := 0 |}); [lra|lra|lra|lia|lia].
Defined.

(** [nmoupq(0.0,0.5,3,2)] with an accumulator that leaves the sequence as
    it is. *)
Lemma nmoupq_curve_stretches_witness :
  (forall u p q w',
     Wwab.nmoupq (fun _ _ _ _ _ _ y => y) 0 (1 / 2) 3 2
       {| sincs := []; shared_random := 0 |} = (Ok (u, p, q), w') ->
     (forall i x, u !! i = Some x -> (INR i <= x)%R) /\
     (forall x, 1 <= 3 -> u !! Z.to_nat (3 - 1) = Some x ->
        x = (IZR (3 - 1) / (1 / 2))%R)) /\
  (exists u p q w',
     Wwab.nmoupq (fun _ _ _ _ _ _ y => y) 0 (1 / 2) 3 2
       {| sincs := []; shared_random := 0 |} = (Ok (u, p, q), w') /\
     length u = Z.to_nat 3).
Proof.
  destruct (nmoupq_curve_stretches (fun _ _ _ _ _ _ y => y) 0 (1 / 2) 3 2
              {| sincs := []; shared_random := 0 |}) as [Hs Ht]; [lra|lra|].
  split; [exact Hs|]. apply Ht; lia.
Defined.

(** ** sos2.makeImpulses: where the impulses are *)

Lemma for_each_prefix {A S : Type} (I : list A -> S -> Prop) (xs : list A)
    (body : A -> S -> res S) (s : S) :
  I [] s ->
  (forall pre x post s, xs = pre ++ x :: post -> I pre s ->
     exists s', body x s = Ok s' /\ I (pre ++ [x]) s') ->
  exists s', for_each xs body s = Ok s' /\ I xs s'.
Proof.
  intros H0 Hstep.
  assert (Hgen : forall post pre s, xs = pre ++ post -> I pre s ->
            exists s', for_each post body s = Ok s' /\ I xs s').
  { induction post as [|x post IH]; intros pre t Hxs Ht; simpl.
    - rewrite app_nil_r in Hxs. subst pre. eauto.
    - destruct (Hstep pre x post t Hxs Ht) as (t' & -> & Ht'). simpl.
      apply (IH (pre ++ [x])); [|done]. by rewrite <- app_assoc. }
  by apply (Hgen xs []).
Qed.

Section ImpulseGrid.
Context {F : Type} `{FloatOps F}.

Lemma image_of_iff (n1 n2 : nat) (W W' : nat -> nat -> Prop)
    (f : list (list F)) :
  (forall r2 r1, W r2 r1 <-> W' r2 r1) -> image_of n1 n2 W f ->
  image_of n1 n2 W' f.
Proof.
  intros Hiff (Hl & Hrows & Hent). split; [done|]. split; [done|].
  intros r2 r1 v Hv. destruct (Hent r2 r1 v Hv) as [H1 H0].
  split; intros HW; [apply H1|apply H0]; by rewrite Hiff.
Qed.

Lemma zerofloat2_image (n1 n2 : Z) :
  0 <= n1 -> 0 <= n2 ->
  image_of (Z.to_nat n1) (Z.to_nat n2) (fun _ _ => False)
    (replicate (Z.to_nat n2) (replicate (Z.to_nat n1) f0)).
Proof.
  intros H1 H2. split; [apply length_replicate|]. split.
  - apply Forall_replicate, length_replicate.
  - intros r2 r1 v. unfold entry. intros Hv.
    destruct (replicate _ _ !! r2) as [row|] eqn:Er; [|done]. simpl in Hv.
    apply lookup_replicate in Er as [-> _].
    apply lookup_replicate in Hv as [-> _]. done.
Qed.

Lemma setitem2_image (n1 n2 : nat) (W : nat -> nat -> Prop)
    (f : list (list F)) (i2 i1 : Z) :
  image_of n1 n2 W f ->
  0 <= i2 < Z.of_nat n2 -> 0 <= i1 < Z.of_nat n1 ->
  exists f', Sos2.setitem2 f i2 i1 f1 = Ok f' /\
    image_of n1 n2
      (fun r2 r1 => W r2 r1 \/ (Z.of_nat r2 = i2 /\ Z.of_nat r1 = i1)) f'.
Proof.
  intros (Hlen & Hrows & Hent) H2 H1. unfold Sos2.setitem2.
  rewrite py_index_in_range by lia. simpl.
  destruct (lookup_lt_is_Some_2 f (Z.to_nat i2)) as [row Hrow]; [lia|].
  rewrite Hrow.
  pose proof (Forall_lookup_1 _ _ _ _ Hrows Hrow) as Hlrow. simpl in Hlrow.
  rewrite py_index_in_range by lia. simpl.
  eexists; split; [reflexivity|]. split; [by rewrite length_insert|]. split.
  { apply Forall_insert; [done|]. by rewrite length_insert. }
  intros r2 r1 v. unfold entry.
  destruct (decide (r2 = Z.to_nat i2)) as [->|Hr2].
  - rewrite list_lookup_insert_eq by lia. simpl.
    destruct (decide (r1 = Z.to_nat i1)) as [->|Hr1].
    + rewrite list_lookup_insert_eq by lia. intros [= <-].
      split; [done|]. intros Hn. destruct Hn. right. lia.
    + rewrite list_lookup_insert_ne by done. intros Hv.
      destruct (Hent (Z.to_nat i2) r1 v) as [Hw1 Hw0].
      { unfold entry. by rewrite Hrow. }
      split.
      * intros [HW|[_ Heq]]; [auto|lia].
      * intros Hn. apply Hw0. intros HW. apply Hn. by left.
  - rewrite list_lookup_insert_ne by done. intros Hv.
    destruct (Hent r2 r1 v Hv) as [Hw1 Hw0]. split.
    + intros [HW|[Heq _]]; [auto|lia].
    + intros Hn. apply Hw0. intros HW. apply Hn. by left.
Qed.

(** X4.  [makeImpulses] puts a 1.0 exactly on the lattice: for positive
    sizes and spacings the sample at row [r2], column [r1] of the returned
    image is 1.0 when [r2] is one of the [n2/k2] lattice rows and [r1] one
    of the [n1/k1] lattice columns, and 0.0 everywhere else. *)
Theorem makeImpulses_lattice (n1 n2 k1 k2 : Z) :
  0 < n1 -> 0 < n2 -> 0 < k1 -> 0 < k2 ->
  exists f, Sos2.makeImpulses n1 n2 k1 k2 = Ok f /\
    forall r2 r1, (r2 < Z.to_nat n2)%nat -> (r1 < Z.to_nat n1)%nat ->
      exists v, entry f r2 r1 = Some v /\
        (on_lattice n2 k2 r2 /\ on_lattice n1 k1 r1 -> v = f1) /\
        (~ (on_lattice n2 k2 r2 /\ on_lattice n1 k1 r1) -> v = f0).
Proof.
  intros Hn1 Hn2 Hk1 Hk2.
  set (m1 := n1 / k1). set (m2 := n2 / k2).
  set (j1 := (n1 - (m1 - 1) * k1) / 2). set (j2 := (n2 - (m2 - 1) * k2) / 2).
  set (N1 := Z.to_nat n1). set (N2 := Z.to_nat n2).
  set (W := fun (done2 : list Z) (r2 r1 : nat) =>
    exists i2 i1, i2 ∈ done2 /\ i1 ∈ range m1 /\
      Z.of_nat r2 = j2 + i2 * k2 /\ Z.of_nat r1 = j1 + i1 * k1).
  destruct (for_each_prefix (fun done2 => image_of N1 N2 (W done2))
    (range m2)
    (fun i2 f => for_each (range m1) (fun i1 f =>
       Sos2.setitem2 f (j2 + i2 * k2) (j1 + i1 * k1) f1) f)
    (replicate N2 (replicate N1 f0))) as (f & Hf & Himg).
  { eapply image_of_iff; [|apply zerofloat2_image; lia].
    intros r2 r1. split; [done|]. intros (i2 & i1 & Hi2 & _). inversion Hi2. }
  { intros done2 i2 post g Hsplit Hg.
    assert (Hi2 : 0 <= i2 < m2).
    { apply elem_of_range. rewrite Hsplit. apply elem_of_app. right. left. }
    destruct (for_each_prefix
      (fun done1 => image_of N1 N2 (fun r2 r1 =>
         W done2 r2 r1 \/
         exists i1, i1 ∈ done1 /\
           Z.of_nat r2 = j2 + i2 * k2 /\ Z.of_nat r1 = j1 + i1 * k1))
      (range m1)
      (fun i1 f => Sos2.setitem2 f (j2 + i2 * k2) (j1 + i1 * k1) f1) g)
      as (g' & Hg' & Himg').
    { eapply image_of_iff; [|exact Hg]. intros r2 r1. split; [by left|].
      intros [HW|(i1 & Hin & _)]; [done|inversion Hin]. }
    { intros done1 i1 post1 g1 Hsplit1 Hg1.
      assert (Hi1 : 0 <= i1 < m1).
      { apply elem_of_range. rewrite Hsplit1. apply elem_of_app. right. left. }
      pose proof (impulse_index_in_axis n1 k1 i1 Hn1 Hk1 Hi1) as Hb1.
      pose proof (impulse_index_in_axis n2 k2 i2 Hn2 Hk2 Hi2) as Hb2.
      destruct (setitem2_image N1 N2 _ g1 (j2 + i2 * k2) (j1 + i1 * k1) Hg1)
        as (g2 & Hset & Himg2); [unfold N2, j2, m2; lia|unfold N1, j1, m1; lia|].
      exists g2. split; [done|].
      eapply image_of_iff; [|exact Himg2]. intros r2 r1. split.
      - intros [[HW|(i & Hin & E2 & E1)]|[E2 E1]].
        + by left.
        + right. exists i. split; [apply elem_of_app; by left|done].
        + right. exists i1.
          split; [apply elem_of_app; right; apply list_elem_of_singleton; done|done].
      - intros [HW|(i & Hin & E2 & E1)]; [by left; left|].
        apply elem_of_app in Hin as [Hin|Hin%list_elem_of_singleton].
        + left. right. eauto.
        + subst i. by right. }
    exists g'. split; [done|].
    eapply image_of_iff; [|exact Himg']. intros r2 r1. split.
    - intros [(a & b & Ha & Hb & E2 & E1)|(i1 & Hin & E2 & E1)].
      + exists a, b. split; [apply elem_of_app; by left|done].
      + exists i2, i1.
        split; [apply elem_of_app; right; apply list_elem_of_singleton; done|done].
    - intros (a & b & Ha & Hb & E2 & E1).
      apply elem_of_app in Ha as [Ha|Ha%list_elem_of_singleton].
      + left. exists a, b. done.
      + subst a. right. eauto. }
  exists f. split.
  { unfold Sos2.makeImpulses, Sos2.impulse_count, Sos2.impulse_first.
    repeat (rewrite !py_idiv_nonzero by lia; simpl).
    unfold Sos2.zerofloat2.
    destruct (Z.ltb_spec n1 0); [lia|]. destruct (Z.ltb_spec n2 0); [lia|].
    simpl. exact Hf. }
  destruct Himg as (Hlen & Hrows & Hent).
  intros r2 r1 Hr2 Hr1.
  destruct (lookup_lt_is_Some_2 f r2) as [row Hrow]; [unfold N2 in *; lia|].
  pose proof (Forall_lookup_1 _ _ _ _ Hrows Hrow) as Hlrow. simpl in Hlrow.
  destruct (lookup_lt_is_Some_2 row r1) as [v Hv]; [unfold N1 in *; lia|].
  assert (He : entry f r2 r1 = Some v) by (unfold entry; by rewrite Hrow).
  exists v. split; [done|].
  destruct (Hent r2 r1 v He) as [Hw1 Hw0].
  assert (Hiff : W (range m2) r2 r1 <->
                 on_lattice n2 k2 r2 /\ on_lattice n1 k1 r1).
  { unfold W, on_lattice. fold m1 m2 j1 j2. split.
    - intros (i2 & i1 & Hi2%elem_of_range & Hi1%elem_of_range & E2 & E1).
      split; eauto.
    - intros [(i2 & Hi2 & E2) (i1 & Hi1 & E1)].
      exists i2, i1. rewrite !elem_of_range. done. }
  split; intros HL.
  - apply Hw1. by apply Hiff.
  - apply Hw0. intros HW. apply HL. by apply Hiff.
Qed.

End ImpulseGrid.

(** [makeImpulses(5,4,2,3)] on binary32 samples. *)
Lemma makeImpulses_lattice_witness :
  exists f, Sos2.makeImpulses (F:=spec_float) 5 4 2 3 = Ok f /\
    forall r2 r1, (r2 < Z.to_nat 4)%nat -> (r1 < Z.to_nat 5)%nat ->
      exists v, entry f r2 r1 = Some v /\
        (on_lattice 4 3 r2 /\ on_lattice 5 2 r1 -> v = f1) /\
        (~ (on_lattice 4 3 r2 /\ on_lattice 5 2 r1) -> v = f0).
Proof. apply (makeImpulses_lattice (F:=spec_float) 5 4 2 3); lia. Defined.

(** X5.  The lattice of [makeImpulses] is centred on its axis: when the
    spacing [k] fits into the [n] samples, there is at least one impulse,
    the first one is at an index [j] below the spacing, and the number of
    samples after the last one is [j] or [j - 1]. *)
Theorem impulse_lattice_centred (n k : Z) :
  0 < k -> k <= n ->
  exists m j,
    Sos2.impulse_count n k = Ok m /\ Sos2.impulse_first n k m = Ok j /\
    1 <= m /\ 0 <= j < k /\
    j - 1 <= (n - 1) - (j + (m - 1) * k) <= j.
Proof.
  intros Hk Hn.
  exists (n / k), ((n - (n / k - 1) * k) / 2).
  unfold Sos2.impulse_count, Sos2.impulse_first.
  rewrite !py_idiv_nonzero by lia. split; [done|]. split; [done|].
  pose proof (Z.mul_div_le n k Hk) as Hle.
  pose proof (Z.mul_succ_div_gt n k Hk) as Hgt.
  assert (Hm : 1 <= n / k) by (apply Z.div_le_lower_bound; lia).
  set (m := n / k) in *. set (r := n - (m - 1) * k).
  assert (Hr : k <= r < 2 * k) by (unfold r; nia).
  pose proof (Z.div_mod r 2 ltac:(lia)) as Hdm.
  pose proof (Z.mod_pos_bound r 2 ltac:(lia)) as Hmod.
  split; [done|]. split; [lia|]. unfold r in *. lia.
Qed.

Lemma impulse_lattice_centred_witness :
  exists m j,
    Sos2.impulse_count 500 41 = Ok m /\ Sos2.impulse_first 500 41 m = Ok j /\
    1 <= m /\ 0 <= j < 41 /\
    j - 1 <= (500 - 1) - (j + (m - 1) * 41) <= j.
Proof. apply (impulse_lattice_centred 500 41); lia. Defined.

Section ImpulseEdges.
Context {F : Type} `{FloatOps F}.

Lemma for_each_skip {A S : Type} (xs : list A) (body : A -> S -> res S) (s : S) :
  (forall x s, body x s = Ok s) -> for_each xs body s = Ok s.
Proof.
  intros Hbody. induction xs as [|x xs IH]; simpl; [done|].
  by rewrite Hbody.
Qed.

(** X6.  A zero spacing makes [makeImpulses] raise ZeroDivisionError,
    whatever the sizes. *)
Theorem makeImpulses_zero_spacing (n1 n2 k1 k2 : Z) :
  k1 = 0 \/ k2 = 0 ->
  Sos2.makeImpulses (F:=F) n1 n2 k1 k2 = Raise ZeroDivisionError.
Proof.
  unfold Sos2.makeImpulses, Sos2.impulse_count, py_idiv.
  intros [-> | ->]; simpl; [done|].
  by destruct (k1 =? 0).
Qed.

(** X7.  A spacing larger than its axis leaves the image blank:
    [makeImpulses] returns [n2] rows of [n1] zeros. *)
Theorem makeImpulses_wide_spacing (n1 n2 k1 k2 : Z) :
  0 <= n1 -> 0 <= n2 -> 0 < k1 -> 0 < k2 ->
  n1 < k1 \/ n2 < k2 ->
  Sos2.makeImpulses (F:=F) n1 n2 k1 k2
  = Ok (replicate (Z.to_nat n2) (replicate (Z.to_nat n1) f0)).
Proof.
  intros Hn1 Hn2 Hk1 Hk2 Hwide.
  unfold Sos2.makeImpulses, Sos2.impulse_count, Sos2.impulse_first.
  repeat (rewrite !py_idiv_nonzero by lia; simpl).
  unfold Sos2.zerofloat2.
  destruct (Z.ltb_spec n1 0); [lia|]. destruct (Z.ltb_spec n2 0); [lia|].
  simpl. destruct Hwide as [Hw|Hw].
  - rewrite (Z.div_small n1 k1) by lia. by apply for_each_skip.
  - by rewrite (Z.div_small n2 k2) by lia.
Qed.

End ImpulseEdges.

Lemma makeImpulses_zero_spacing_witness :
  Sos2.makeImpulses (F:=spec_float) 5 4 0 3 = Raise ZeroDivisionError.
Proof. apply (makeImpulses_zero_spacing (F:=spec_float) 5 4 0 3). by left. Defined.

Lemma makeImpulses_wide_spacing_witness :
  Sos2.makeImpulses (F:=spec_float) 5 4 6 3
  = Ok (replicate (Z.to_nat 4) (replicate (Z.to_nat 5) f0)).
Proof.
  apply (makeImpulses_wide_spacing (F:=spec_float) 5 4 6 3); lia.
Defined.

(** ** normalizeMax: which sample becomes the unit *)

Section NormalizeMaxPolarity.
Local Open Scope R_scope.



End NormalizeMaxPolarity.


(** ** normalizeRms and rms *)

Section RmsProperties.
Local Open Scope R_scope.

Lemma zip_with_square_rows (x : list (list R)) :
  concat (zip_with (zip_with Rmult) x x) = (fun v => v * v) <$> concat x.
Proof.
  induction x as [|row x IH]; [done|].
  cbn [zip_with concat]. rewrite IH, fmap_app, zip_with_diag. done.
Qed.

Lemma squares_of_array2 (x : list (list R)) :
  exists xx, azip fmul (Array2 x) (Array2 x) = Ok xx /\
             shape xx = shape (Array2 x) /\ Wwab.asum xx = sumsq (Array2 x).
Proof.
  destruct (azip_same_shape fmul (Array2 x) (Array2 x)) as (xx & Hxx & Hs);
    [done|].
  exists xx. split; [done|]. split; [done|].
  simpl in Hxx. rewrite zip2_same_shape in Hxx by done.
  injection Hxx as <-. unfold Wwab.asum, sumsq. simpl.
  by rewrite zip_with_square_rows.
Qed.

Lemma sumsq_nonneg (a : array R) : 0 <= sumsq a.
Proof.
  unfold sumsq. induction (elements a) as [|v l IH]; [simpl; lra|].
  rewrite fmap_cons. cbn [foldr]. nra.
Qed.

Lemma sumsq_pos (a : array R) :
  (exists v, v ∈ elements a /\ v <> 0) -> 0 < sumsq a.
Proof.
  unfold sumsq. intros (v & Hv & Hv0).
  induction (elements a) as [|u l IH]; [inversion Hv|].
  rewrite fmap_cons. cbn [foldr].
  assert (Hrest : 0 <= foldr Rplus 0 ((fun v => v * v) <$> l)).
  { clear. induction l as [|u l IH]; [simpl; lra|].
    rewrite fmap_cons. cbn [foldr]. nra. }
  apply elem_of_cons in Hv as [<-|Hv].
  - assert (0 < v * v) by nra. lra.
  - specialize (IH Hv). nra.
Qed.

Lemma sumsq_zero (a : array R) :
  (forall v, v ∈ elements a -> v = 0) -> sumsq a = 0.
Proof.
  unfold sumsq. intros Hz.
  induction (elements a) as [|u l IH]; [done|].
  rewrite fmap_cons. cbn [foldr].
  rewrite IH by (intros v Hv; apply Hz; by right).
  rewrite (Hz u) by left. ring.
Qed.

Lemma sumsq_scaled (s : R) (a : array R) :
  sumsq (amap (Rmult s) a) = s * s * sumsq a.
Proof.
  unfold sumsq. rewrite elements_amap.
  induction (elements a) as [|u l IH]; [simpl; ring|].
  rewrite !fmap_cons. cbn [foldr]. rewrite IH. ring.
Qed.

(** What [rms] computes on a two-dimensional array with a non-empty first
    row, and the array of squares it leaves behind. *)
Lemma rms_run (h : store R) (f : ref) (row : list R) (rest : list (list R)) :
  h !! f = Some (Array2 (row :: rest)) -> row <> [] ->
  exists xx,
    shape xx = shape (Array2 (row :: rest)) /\
    Wwab.rms f h =
      (Ok (sqrt (sumsq (Array2 (row :: rest))
                 / IZR (Z.of_nat (S (length rest)))
                 / IZR (Z.of_nat (length row)))),
       h ++ [xx]).
Proof.
  intros Hf Hrow.
  destruct (squares_of_array2 (row :: rest)) as (xx & Hxx & Hs & Hsum).
  exists xx. split; [done|].
  assert (Hg : (h ++ [xx]) !! length h = Some xx)
    by apply list_lookup_middle, eq_refl.
  assert (Hf' : (h ++ [xx]) !! f = Some (Array2 (row :: rest)))
    by (by apply lookup_app_l_Some).
  assert (Hn2 : IZR (Z.of_nat (S (length rest))) <> 0)
    by (apply not_0_IZR; lia).
  assert (Hn1 : IZR (Z.of_nat (length row)) <> 0).
  { apply not_0_IZR. destruct row; [done|simpl; lia]. }
  assert (Hn2' : 0 < IZR (Z.of_nat (S (length rest))))
    by (apply IZR_lt; lia).
  assert (Hn1' : 0 < IZR (Z.of_nat (length row))).
  { apply IZR_lt. destruct row; [done|simpl; lia]. }
  unfold Wwab.rms, mul_new, mbind, M_bind, lift, alloc.
  do 2 (rewrite (load_lookup _ _ _ Hf); cbv beta match).
  rewrite Hxx. cbv beta match.
  rewrite (load_lookup _ _ _ Hg). cbv beta match.
  rewrite (load_lookup _ _ _ Hf'). cbv beta match.
  cbn [Wwab.alen Wwab.alen0 length].
  rewrite Hsum, py_fdiv_R by done. cbv beta match.
  rewrite py_fdiv_R by done. cbv beta match.
  rewrite real_sqrt_nonneg; [done|].
  pose proof (sumsq_nonneg (Array2 (row :: rest))).
  apply Rmult_le_pos; [apply Rmult_le_pos|]; try done;
    left; by apply Rinv_0_lt_compat.
Qed.

(** X9.  [normalizeRms] followed by [rms] gives 1 in exact arithmetic: for
    a two-dimensional array with a non-empty first row and at least one
    nonzero sample, [normalizeRms(f)] succeeds, leaves every other array
    of the store as it was, and [rms(f)] is exactly 1 afterwards.  For
    such an array of zeros it raises ZeroDivisionError and leaves [f]
    untouched. *)
Theorem normalizeRms_unit_rms (h : store R) (f : ref)
    (row : list R) (rest : list (list R)) :
  h !! f = Some (Array2 (row :: rest)) -> row <> [] ->
  ((exists v, v ∈ elements (Array2 (row :: rest)) /\ v <> 0) ->
   exists h1 h2,
     Wwab.normalizeRms f h = (Ok tt, h1) /\
     (forall k, k <> f -> (k < length h)%nat -> h1 !! k = h !! k) /\
     Wwab.rms f h1 = (Ok 1, h2)) /\
  ((forall v, v ∈ elements (Array2 (row :: rest)) -> v = 0) ->
   exists h1,
     Wwab.normalizeRms f h = (Raise ZeroDivisionError, h1) /\
     h1 !! f = Some (Array2 (row :: rest))).
Proof.
  intros Hf Hrow.
  destruct (rms_run h f row rest Hf Hrow) as (xx & Hsxx & Hrms).
  set (x := Array2 (row :: rest)) in *.
  set (n2 := IZR (Z.of_nat (S (length rest)))) in *.
  set (n1 := IZR (Z.of_nat (length row))) in *.
  assert (Hn2 : 0 < n2) by (apply IZR_lt; lia).
  assert (Hn1 : 0 < n1).
  { apply IZR_lt. destruct row; [done|simpl; lia]. }
  assert (Hf' : (h ++ [xx]) !! f = Some x) by (by apply lookup_app_l_Some).
  assert (Hlt : (f < length h)%nat) by (by eapply lookup_lt_Some).
  split.
  - intros Hnz. pose proof (sumsq_pos x Hnz) as HS.
    set (Q := sumsq x / n2 / n1) in *.
    assert (HQ : 0 < Q).
    { unfold Q. apply Rmult_lt_0_compat; [apply Rmult_lt_0_compat|];
        try done; by apply Rinv_0_lt_compat. }
    assert (Hr : 0 < sqrt Q) by (by apply sqrt_lt_R0).
    set (y := amap (Rmult (1 / sqrt Q)) x).
    assert (Hy : y = Array2 ((map (Rmult (1 / sqrt Q)) row)
                   :: (map (Rmult (1 / sqrt Q)) <$> rest))) by done.
    exists (<[f := y]> (h ++ [xx])).
    assert (Hf1 : (<[f := y]> (h ++ [xx])) !! f = Some y).
    { apply list_lookup_insert_eq. rewrite length_app. lia. }
    rewrite Hy in Hf1.
    destruct (rms_run _ f _ _ Hf1) as (yy & _ & Hrms1).
    { destruct row; [done|discriminate]. }
    exists (<[f := y]> (h ++ [xx]) ++ [yy]). split; [|split].
    + unfold Wwab.normalizeRms, mbind, M_bind, lift. rewrite Hrms.
      cbv beta match. rewrite py_fdiv_R by lra. cbv beta match.
      unfold mul_into, mbind, M_bind. rewrite (load_lookup _ _ _ Hf').
      cbv beta match.
      by rewrite (write_into_same_shape _ f _ x Hf') by apply shape_amap.
    + intros k Hk Hkl. rewrite list_lookup_insert_ne by done.
      by apply lookup_app_l.
    + rewrite <- Hy in Hrms1. rewrite Hrms1. f_equal. f_equal.
      rewrite length_map, length_fmap.
      unfold y. rewrite sumsq_scaled. fold n2 n1.
      assert (Hrr : sqrt Q * sqrt Q = Q) by (apply sqrt_sqrt; lra).
      set (r := sqrt Q) in *. clearbody r.
      replace (1 / r * (1 / r) * sumsq x / n2 / n1)
        with (Q / (r * r)) by (unfold Q; field; lra).
      rewrite Hrr.
      replace (Q / Q) with 1 by (field; lra). apply sqrt_1.
  - intros Hz. exists (h ++ [xx]). split; [|done].
    unfold Wwab.normalizeRms, mbind, M_bind, lift. rewrite Hrms.
    cbv beta match. rewrite (sumsq_zero x Hz).
    replace (0 / n2 / n1) with 0 by (field; lra).
    rewrite sqrt_0, py_fdiv_R_zero. done.
Qed.

End RmsProperties.

(** The 2 by 2 array [[3,0],[0,4]] in a store of its own. *)
Lemma normalizeRms_unit_rms_witness :
  exists h1 h2,
    Wwab.normalizeRms 0%nat [Array2 [[3%R; 0%R]; [0%R; 4%R]]] = (Ok tt, h1) /\
    (forall k, k <> 0%nat -> (k < 1)%nat ->
       h1 !! k = [Array2 [[3%R; 0%R]; [0%R; 4%R]]] !! k) /\
    Wwab.rms 0%nat h1 = (Ok 1%R, h2).
Proof.
  apply (normalizeRms_unit_rms [Array2 [[3%R; 0%R]; [0%R; 4%R]]] 0%nat
           [3%R; 0%R] [[0%R; 4%R]]); [reflexivity|discriminate|].
  exists 3%R. split; [left|lra].
Defined.

(** ** sos2.makeRandom and the shared generator *)

Section RandomProperties.

Lemma Random_next_24_range (s : Z) :
  0 <= (Random_next 24 s).1 < 2 ^ 24.
Proof.
  unfold Random_next. cbn [fst].
  change RANDOM_MASK with (Z.ones 48).
  rewrite Z.land_ones by lia.
  change (48 - 24) with 24. rewrite Z.shiftr_div_pow2 by lia.
  pose proof (Z.mod_pos_bound (s * RANDOM_MULTIPLIER + RANDOM_ADDEND)
                (2 ^ 48) ltac:(lia)) as Hm.
  split.
  - apply Z.div_pos; lia.
  - apply Z.div_lt_upper_bound; [lia|]. change (2 ^ 24 * 2 ^ 24) with (2 ^ 48).
    lia.
Qed.

Lemma Random_nextFloat_unit (s : Z) :
  (0 <= (Random_nextFloat s).1 < 1)%R.
Proof.
  unfold Random_nextFloat.
  pose proof (Random_next_24_range s) as Hn.
  destruct (Random_next 24 s) as [n s']. cbn [fst] in *.
  change (Z.shiftl 1 24) with (2 ^ 24).
  assert (H24 : (0 < IZR (2 ^ 24))%R) by (apply IZR_lt; lia).
  assert (H0 : (0 <= IZR n)%R) by (apply IZR_le; lia).
  assert (H1 : (IZR n < IZR (2 ^ 24))%R) by (apply IZR_lt; lia).
  split.
  - apply Rmult_le_pos; [done|]. left. by apply Rinv_0_lt_compat.
  - apply Rmult_lt_reg_r with (IZR (2 ^ 24)); [done|].
    unfold Rdiv. rewrite Rmult_assoc, Rinv_l by lra. lra.
Qed.

Lemma Random_floats_unit (n : nat) (s : Z) :
  length (Random_floats n s).1 = n /\
  Forall (fun x => (0 <= x < 1)%R) (Random_floats n s).1.
Proof.
  revert s. induction n as [|n IH]; intros s; cbn [Random_floats].
  - done.
  - pose proof (Random_nextFloat_unit s) as Hx.
    destruct (Random_nextFloat s) as [x s1]. cbn [fst] in Hx.
    destruct (IH s1) as [Hl Hall].
    destruct (Random_floats n s1) as [xs s2]. cbn [fst] in *.
    split; [simpl; by f_equal|]. by constructor.
Qed.

Lemma Random_rows_unit (n2 n1 : nat) (s : Z) :
  length (Random_rows n2 n1 s).1 = n2 /\
  Forall (fun row => length row = n1 /\ Forall (fun x => (0 <= x < 1)%R) row)
    (Random_rows n2 n1 s).1.
Proof.
  revert s. induction n2 as [|n2 IH]; intros s; cbn [Random_rows].
  - done.
  - pose proof (Random_floats_unit n1 s) as Hrow.
    destruct (Random_floats n1 s) as [row s1]. cbn [fst] in Hrow.
    destruct (IH s1) as [Hl Hall].
    destruct (Random_rows n2 n1 s1) as [rows s2]. cbn [fst] in *.
    split; [simpl; by f_equal|]. by constructor.
Qed.

Variable apply0X : list (list R) -> list (list R) -> list (list R).
Variable applyX0 : list (list R) -> list (list R) -> list (list R).

(** X10.  In exact arithmetic [makeRandom] draws its field from the shared
    generator: with [(x, s')] the [n2] rows of [n1] draws taken from the
    state of the shared generator, the field is [f = 2*(2*9*x - 9)],
    sample by sample, every sample lies in [-18, 18), and the generator
    is left in the state [s'].  For [n2 >= 1] the result is the field
    smoothed, both passes of the recursive filter running into arrays of
    [n2] rows of [n1] zeros; for [n2 = 0] the field is empty and
    [smooth] raises IndexError at [x[0]].  No sinc interpolator is
    built. *)
Theorem makeRandom_field (n1 n2 : Z) (w : World) :
  0 <= n1 -> 0 <= n2 ->
  let x := (Random_rows (Z.to_nat n2) (Z.to_nat n1) (shared_random w)).1 in
  let s' := (Random_rows (Z.to_nat n2) (Z.to_nat n1) (shared_random w)).2 in
  let f := map (fun v => (2 * (2 * 9 * v - 9))%R) <$> x in
  let zeros := replicate (Z.to_nat n2) (replicate (Z.to_nat n1) 0%R) in
  (1 <= n2 ->
   Sos2.makeRandom apply0X applyX0 n1 n2 w
   = (Ok (applyX0 (apply0X f zeros) zeros),
      {| sincs := sincs w; shared_random := s' |})) /\
  (n2 = 0 ->
   Sos2.makeRandom apply0X applyX0 n1 n2 w
   = (Raise IndexError,
      {| sincs := sincs w; shared_random := shared_random w |})) /\
  length f = Z.to_nat n2 /\
  Forall (fun row => length row = Z.to_nat n1 /\
                     Forall (fun v => (-18 <= v < 18)%R) row) f.
Proof.
  intros H1 H2. cbv zeta.
  destruct (Random_rows_unit (Z.to_nat n2) (Z.to_nat n1) (shared_random w))
    as [Hl Hall].
  assert (Hrun : Sos2.makeRandom apply0X applyX0 n1 n2 w
    = (Sos2.smooth apply0X applyX0
         (map (fun v => (2 * v)%R) <$>
            (map (fun v => (2 * Sos2.fClip * v - Sos2.fClip)%R) <$>
               (Random_rows (Z.to_nat n2) (Z.to_nat n1) (shared_random w)).1)),
       {| sincs := sincs w;
          shared_random :=
            (Random_rows (Z.to_nat n2) (Z.to_nat n1) (shared_random w)).2 |})).
  { unfold Sos2.makeRandom, mbind, M_bind, randfloat_shared, lift.
    destruct (Z.ltb_spec n1 0); [lia|]. destruct (Z.ltb_spec n2 0); [lia|].
    cbn [orb].
    by destruct (Random_rows (Z.to_nat n2) (Z.to_nat n1) (shared_random w)). }
  assert (Hf : map (fun v => (2 * v)%R) <$>
            (map (fun v => (2 * Sos2.fClip * v - Sos2.fClip)%R) <$>
               (Random_rows (Z.to_nat n2) (Z.to_nat n1) (shared_random w)).1)
          = map (fun v => (2 * (2 * 9 * v - 9))%R) <$>
              (Random_rows (Z.to_nat n2) (Z.to_nat n1) (shared_random w)).1).
  { rewrite <- list_fmap_compose. apply list_fmap_ext. intros i row _.
    unfold compose. rewrite map_map. reflexivity. }
  rewrite Hf in Hrun. clear Hf.
  split; [|split; [|split]].
  - intros Hn2. rewrite Hrun. f_equal.
    destruct (Random_rows (Z.to_nat n2) (Z.to_nat n1) (shared_random w))
      as [x s']. cbn [fst snd] in *.
    destruct x as [|row rows]; [simpl in Hl; lia|].
    apply Forall_cons in Hall as [[Hrow _] _].
    unfold Sos2.smooth. rewrite fmap_cons. cbn [mbind res_bind].
    rewrite length_map, Hrow. rewrite <- fmap_cons, length_fmap, Hl.
    unfold Sos2.zerofloat2.
    destruct (Z.ltb_spec (Z.of_nat (Z.to_nat n1)) 0); [lia|].
    destruct (Z.ltb_spec (Z.of_nat (Z.to_nat n2)) 0); [lia|].
    cbn [orb mbind res_bind]. by rewrite !Nat2Z.id.
  - intros ->. rewrite Hrun. reflexivity.
  - by rewrite length_fmap.
  - apply Forall_fmap.
    eapply Forall_impl; [exact Hall|]. intros row [Hlr Hrow]. simpl.
    split; [by rewrite length_map|].
    apply Forall_forall. intros v Hv.
    apply list_elem_of_In, in_map_iff in Hv as (x0 & <- & Hx0).
    apply list_elem_of_In in Hx0.
    pose proof (proj1 (Forall_forall _ _) Hrow x0 Hx0) as Hx.
    simpl in Hx. lra.
Qed.

End RandomProperties.

(** [makeRandom(1,1)] from the generator state 1, with filter passes that
    copy their input: the one draw is 1502/2^24. *)
Lemma makeRandom_field_witness :
  Sos2.makeRandom (fun x _ => x) (fun x _ => x) 1 1
    {| sincs := []; shared_random := 1 |}
  = (Ok [[(2 * (2 * 9 * (1502 / 16777216) - 9))%R]],
     {| sincs := [];
        shared_random :=
          (Random_rows 1 1 1).2 |}).
Proof.
  destruct (makeRandom_field (fun x _ => x) (fun x _ => x) 1 1
              {| sincs := []; shared_random := 1 |}) as [Hrun _];
    [lia|lia|].
  exact (Hrun ltac:(lia)).
Defined.

(** ** The impulse trains of the generators *)

Section ImpulseTrains.
Local Open Scope R_scope.

(** The loop shared by [expupq], [nmoupq] and [makeImpulses]: impulse
    number [ji] goes to time [tp] in [p] and to time [tq] in [q], with the
    sign flipped at every step. *)
Lemma impulse_loop_calls (g : Z -> res R) (h : R -> res R)
    (P Q : R -> R -> list R -> list R) (xs : list Z)
    (p q : list R) (rj : R) (p' q' : list R) (rj' : R) :
  for_each xs (fun ji '(p, q, rj) =>
      tp ← g ji; tq ← h tp; Ok (P tp (- rj) p, Q tq (- rj) q, - rj))
    (p, q, rj) = Ok (p', q', rj') ->
  exists calls : list (R * R * R),
    length calls = length xs /\
    p' = foldl (fun p '(tp, tq, r) => P tp r p) p calls /\
    q' = foldl (fun q '(tp, tq, r) => Q tq r q) q calls /\
    forall k tp tq r, calls !! k = Some (tp, tq, r) ->
      r = (-1) ^ S k * rj /\
      exists ji, xs !! k = Some ji /\ g ji = Ok tp /\ h tp = Ok tq.
Proof.
  revert p q rj. induction xs as [|ji xs IH]; intros p q rj; cbn [for_each].
  - intros [= <- <- <-]. exists []. repeat split; done.
  - intros (s1 & Hbody & Hrest)%bind_res_inv.
    apply bind_res_inv in Hbody as (tp & Htp & Hbody).
    apply bind_res_inv in Hbody as (tq & Htq & [= <-]).
    destruct (IH _ _ _ Hrest) as (calls & Hlen & Hp & Hq & Hcalls).
    exists ((tp, tq, - rj) :: calls).
    split; [simpl; by f_equal|]. split; [done|]. split; [done|].
    intros [|k] tp' tq' r' Hk; simpl in Hk.
    + injection Hk as <- <- <-. split; [simpl; ring|]. exists ji. done.
    + destruct (Hcalls k tp' tq' r' Hk) as (-> & ji' & Hji' & Hg & Hh).
      split; [simpl; ring|]. exists ji'. done.
Qed.

Lemma getitem_nonneg_inv (x : list R) (i : Z) (v : R) :
  (0 <= i)%Z -> getitem x i = Ok v ->
  x !! Z.to_nat i = Some v /\ (i < Z.of_nat (length x))%Z.
Proof.
  intros Hi. unfold getitem, py_index.
  destruct (Z.ltb_spec i 0); [lia|].
  destruct (Z.leb_spec 0 i); [|lia].
  destruct (Z.ltb_spec i (Z.of_nat (length x))); simpl; [|done].
  destruct (x !! Z.to_nat i) as [v'|]; [|done]. by intros [= <-].
Qed.

Lemma mapM_res_forward {A B : Type} (g : A -> res B) (l : list A)
    (l' : list B) :
  mapM g l = Ok l' ->
  forall i x, l !! i = Some x -> exists y, l' !! i = Some y /\ g x = Ok y.
Proof.
  revert l'. induction l as [|a l IH]; intros l'; simpl.
  - intros _ i x Hx. done.
  - destruct (g a) as [b|e] eqn:Ea; [|done]. simpl.
    destruct (mapM g l) as [k|e] eqn:El; [|done]. simpl.
    intros [= <-] [|i] x Hx; simpl in *.
    + injection Hx as <-. eauto.
    + eauto.
Qed.

(** Impulse number [k] sits at sample [d*(k+1)], inside the trace. *)
Lemma impulse_time_in_trace (nt ni k : Z) :
  (1 <= nt)%Z -> (0 <= k < ni)%Z ->
  (0 <= (nt - 1) / (ni + 1) * (k + 1) <= nt - 1)%Z.
Proof.
  intros Hnt Hk.
  pose proof (Z.mul_div_le (nt - 1) (ni + 1) ltac:(lia)) as Hle.
  assert (Hd : (0 <= (nt - 1) / (ni + 1))%Z) by (apply Z.div_pos; lia).
  split; nia.
Qed.

Variable accumulate :
  SincInterpolator -> R -> R -> Z -> R -> R -> list R -> list R.

(** X11.  [nmoupq] places its impulses along the warp curve it returns:
    with at least one time sample and [0 < r1 <= 1], the sequences [p] and
    [q] are obtained from zeros by accumulating [ni] impulses, the one
    numbered [k] with amplitude [(-1)^k], in [p] at the integer time
    [tp = d*(k+1)] (with [d = (nt-1)/(ni+1)], inside the trace) and in [q]
    at the time [tq = u[tp] >= tp]. *)
Theorem nmoupq_impulses_follow_curve (r0 r1 : R) (nt ni : Z) (w w' : World)
    (u p q : list R) :
  0 < r1 -> r1 <= 1 -> (1 <= nt)%Z ->
  Wwab.nmoupq accumulate r0 r1 nt ni w = (Ok (u, p, q), w') ->
  exists calls : list (R * R * R),
    length calls = Z.to_nat ni /\
    p = foldl (fun p '(tp, tq, r) =>
                 accumulate {| si_emax := 0.01; si_fmax := 0.45 |}
                   tp r nt 1 0 p)
              (replicate (Z.to_nat nt) 0) calls /\
    q = foldl (fun q '(tp, tq, r) =>
                 accumulate {| si_emax := 0.01; si_fmax := 0.45 |}
                   tq r nt 1 0 q)
              (replicate (Z.to_nat nt) 0) calls /\
    forall (k : nat) tp tq r, calls !! k = Some (tp, tq, r) ->
      r = (-1) ^ k /\
      tp = IZR ((nt - 1) / (ni + 1) * (Z.of_nat k + 1)) /\
      (0 <= (nt - 1) / (ni + 1) * (Z.of_nat k + 1) <= nt - 1)%Z /\
      u !! Z.to_nat ((nt - 1) / (ni + 1) * (Z.of_nat k + 1)) = Some tq /\
      tp <= tq.
Proof.
  intros H0 H1 Hnt. unfold Wwab.nmoupq. intros H.
  apply bind_lift_inv in H as (inv & [_ ->]%py_fdiv_R_inv & H). cbv zeta in H.
  apply bind_lift_inv in H as (ramp & ->%rampfloat_inv & H).
  apply bind_lift_inv in H as (u0 & Hu & H).
  apply bind_lift_inv in H as (d & Hd & H).
  apply bind_lift_inv in H as (ts & Hts & H).
  apply bind_lift_inv in H as (p0 & Hp0 & H).
  apply bind_lift_inv in H as (q0 & Hq0 & H).
  apply bind_kernel_inv in H.
  apply bind_lift_inv in H as ([[p1 q1] rj] & Hloop & H).
  injection H as -> -> -> _.
  assert (Hni : (0 <= ni)%Z).
  { unfold rampfloat in Hts. by destruct (Z.ltb_spec ni 0). }
  rewrite py_idiv_nonzero in Hd by lia. injection Hd as <-.
  apply rampfloat_inv in Hts as ->.
  rewrite zerofloat_nonneg in Hp0, Hq0 by lia.
  injection Hp0 as <-. injection Hq0 as <-.
  pose proof (nmo_offset_nonneg r1 (nt - 1) H0 H1) as Ha.
  set (a := IZR (nt - 1) * IZR (nt - 1) * (1 / (r1 * r1) - 1)) in *.
  set (d := ((nt - 1) / (ni + 1))%Z) in *.
  apply (impulse_loop_calls
           (getitem ((fun i => IZR d + IZR d * IZR i) <$> range ni))
           (fun tp => real_sqrt (tp * tp + a))
           (fun tp r p =>
              accumulate {| si_emax := 0.01; si_fmax := 0.45 |} tp r nt 1 0 p)
           (fun tq r q =>
              accumulate {| si_emax := 0.01; si_fmax := 0.45 |} tq r nt 1 0 q))
    in Hloop
    as (calls & Hlen & Hp & Hq & Hcalls).
  exists calls. split; [by rewrite Hlen, length_range|].
  split; [done|]. split; [done|].
  intros k tp tq r Hk.
  destruct (Hcalls k tp tq r Hk) as (-> & ji & Hji & Htp & Htq).
  apply lookup_range in Hji as [-> Hklt].
  apply getitem_nonneg_inv in Htp as [Htp _]; [|lia].
  rewrite Nat2Z.id in Htp. apply lookup_ramp in Htp as [-> _].
  apply real_sqrt_inv in Htq as [_ ->].
  pose proof (impulse_time_in_trace nt ni (Z.of_nat k) Hnt ltac:(lia)) as Hin.
  fold d in Hin.
  assert (Htime : IZR d + IZR d * INR k = IZR (d * (Z.of_nat k + 1))).
  { rewrite mult_IZR, plus_IZR, <- INR_IZR_INZ. simpl. ring. }
  split; [simpl; ring|]. split; [done|]. split; [done|]. split.
  - destruct (mapM_res_forward _ _ _ Hu
               (Z.to_nat (d * (Z.of_nat k + 1)))
               (0 + 1 * IZR (d * (Z.of_nat k + 1)))) as (y & Hy & Hsq).
    { rewrite list_lookup_fmap.
      rewrite (proj2 (lookup_range nt _ (d * (Z.of_nat k + 1))%Z))
        by (split; lia).
      done. }
    rewrite Hy. f_equal. apply real_sqrt_inv in Hsq as [_ ->].
    f_equal. rewrite Htime. fold a. ring.
  - rewrite Htime.
    assert (Hnn : 0 <= IZR (d * (Z.of_nat k + 1))) by (apply IZR_le; lia).
    rewrite <- (sqrt_square (IZR (d * (Z.of_nat k + 1)))) at 1 by done.
    apply sqrt_le_1_alt. lra.
Qed.

(** X12.  [expupq] places its impulses along its warp curve as well: with
    at least one time sample, whenever it returns, [p] and [q] are zeros
    with [ni] impulses accumulated, number [k] with amplitude [(-1)^k],
    in [p] at the integer time [tp = d*(k+1)] inside the trace and in [q]
    at [tq = u[tp]]. *)
Theorem expupq_impulses_follow_curve (r0 r1 : R) (nt ni : Z) (w w' : World)
    (u p q : list R) :
  (1 <= nt)%Z ->
  Wwab.expupq accumulate r0 r1 nt ni w = (Ok (u, p, q), w') ->
  exists calls : list (R * R * R),
    length calls = Z.to_nat ni /\
    p = foldl (fun p '(tp, tq, r) =>
                 accumulate {| si_emax := 0.01; si_fmax := 0.45 |}
                   tp r nt 1 0 p)
              (replicate (Z.to_nat nt) 0) calls /\
    q = foldl (fun q '(tp, tq, r) =>
                 accumulate {| si_emax := 0.01; si_fmax := 0.45 |}
                   tq r nt 1 0 q)
              (replicate (Z.to_nat nt) 0) calls /\
    forall (k : nat) tp tq r, calls !! k = Some (tp, tq, r) ->
      r = (-1) ^ k /\
      tp = IZR ((nt - 1) / (ni + 1) * (Z.of_nat k + 1)) /\
      (0 <= (nt - 1) / (ni + 1) * (Z.of_nat k + 1) <= nt - 1)%Z /\
      u !! Z.to_nat ((nt - 1) / (ni + 1) * (Z.of_nat k + 1)) = Some tq.
Proof.
  intros Hnt. unfold Wwab.expupq. intros H.
  apply bind_lift_inv in H as (ratio & _ & H).
  apply bind_lift_inv in H as (l & _ & H).
  apply bind_lift_inv in H as (b & _ & H).
  apply bind_lift_inv in H as (a & _ & H).
  apply bind_lift_inv in H as (ramp & ->%rampfloat_inv & H).
  cbv zeta in H.
  apply bind_lift_inv in H as (d & Hd & H).
  apply bind_lift_inv in H as (ts & Hts & H).
  apply bind_lift_inv in H as (p0 & Hp0 & H).
  apply bind_lift_inv in H as (q0 & Hq0 & H).
  apply bind_kernel_inv in H.
  apply bind_lift_inv in H as ([[p1 q1] rj] & Hloop & H).
  injection H as <- -> -> _.
  assert (Hni : (0 <= ni)%Z).
  { unfold rampfloat in Hts. by destruct (Z.ltb_spec ni 0). }
  rewrite py_idiv_nonzero in Hd by lia. injection Hd as <-.
  apply rampfloat_inv in Hts as ->.
  rewrite zerofloat_nonneg in Hp0, Hq0 by lia.
  injection Hp0 as <-. injection Hq0 as <-.
  set (d := ((nt - 1) / (ni + 1))%Z) in *.
  apply (impulse_loop_calls
           (getitem ((fun i => IZR d + IZR d * IZR i) <$> range ni))
           (fun tp => Ok (IZR (nt - 1) - a * (exp (b * tp) - 1)))
           (fun tp r p =>
              accumulate {| si_emax := 0.01; si_fmax := 0.45 |} tp r nt 1 0 p)
           (fun tq r q =>
              accumulate {| si_emax := 0.01; si_fmax := 0.45 |} tq r nt 1 0 q))
    in Hloop as (calls & Hlen & Hp & Hq & Hcalls).
  exists calls. split; [by rewrite Hlen, length_range|].
  split; [done|]. split; [done|].
  intros k tp tq r Hk.
  destruct (Hcalls k tp tq r Hk) as (-> & ji & Hji & Htp & Htq).
  apply lookup_range in Hji as [-> Hklt].
  apply getitem_nonneg_inv in Htp as [Htp _]; [|lia].
  rewrite Nat2Z.id in Htp. apply lookup_ramp in Htp as [-> _].
  injection Htq as <-.
  pose proof (impulse_time_in_trace nt ni (Z.of_nat k) Hnt ltac:(lia)) as Hin.
  fold d in Hin.
  assert (Htime : IZR d + IZR d * INR k = IZR (d * (Z.of_nat k + 1))).
  { rewrite mult_IZR, plus_IZR, <- INR_IZR_INZ. simpl. ring. }
  split; [simpl; ring|]. split; [done|]. split; [done|].
  rewrite !list_lookup_fmap.
  rewrite (proj2 (lookup_range nt _ (d * (Z.of_nat k + 1))%Z))
    by (split; lia).
  simpl. f_equal. rewrite Htime. by rewrite Rplus_0_l.
Qed.

End ImpulseTrains.

Lemma nmoupq_impulses_follow_curve_witness :
  exists u p q w' calls,
    Wwab.nmoupq (fun _ _ _ _ _ _ y => y) 0 (1 / 2) 7 2
      {| sincs := []; shared_random := 0 |} = (Ok (u, p, q), w') /\
    length calls = Z.to_nat 2 /\
    forall (k : nat) tp tq r, calls !! k = Some (tp, tq, r) ->
      r = ((-1) ^ k)%R /\
      tp = IZR ((7 - 1) / (2 + 1) * (Z.of_nat k + 1)) /\
      (0 <= (7 - 1) / (2 + 1) * (Z.of_nat k + 1) <= 7 - 1)%Z /\
      u !! Z.to_nat ((7 - 1) / (2 + 1) * (Z.of_nat k + 1)) = Some tq /\
      (tp <= tq)%R.
Proof.
  destruct (nmoupq_total (fun _ _ _ _ _ _ y => y) 0 (1 / 2) 7 2
              {| sincs := []; shared_random := 0 |})
    as (u & p & q & w' & Hrun); [lra|lra|lia|lia|].
  destruct (nmoupq_impulses_follow_curve (fun _ _ _ _ _ _ y => y)
              0 (1 / 2) 7 2 {| sincs := []; shared_random := 0 |} w' u p q) as (calls & Hlen & _ & _ & Hcalls);
    [lra|lra|lia|exact Hrun|].
  exists u, p, q, w', calls. done.
Defined.

Lemma expupq_impulses_follow_curve_witness :
  exists u p q w' calls,
    Wwab.expupq (fun _ _ _ _ _ _ y => y) 1 2 7 2
      {| sincs := []; shared_random := 0 |} = (Ok (u, p, q), w') /\
    length calls = Z.to_nat 2 /\
    forall (k : nat) tp tq r, calls !! k = Some (tp, tq, r) ->
      r = ((-1) ^ k)%R /\
      tp = IZR ((7 - 1) / (2 + 1) * (Z.of_nat k + 1)) /\
      (0 <= (7 - 1) / (2 + 1) * (Z.of_nat k + 1) <= 7 - 1)%Z /\
      u !! Z.to_nat ((7 - 1) / (2 + 1) * (Z.of_nat k + 1)) = Some tq.
Proof.
  destruct (expupq_total (fun _ _ _ _ _ _ y => y) 1 2 7 2
              {| sincs := []; shared_random := 0 |})
    as (u & p & q & w' & Hrun); [lra|lra|lra|lia|lia|].
  destruct (expupq_impulses_follow_curve (fun _ _ _ _ _ _ y => y)
              1 2 7 2 {| sincs := []; shared_random := 0 |} w' u p q) as (calls & Hlen & _ & _ & Hcalls);
    [lia|exact Hrun|].
  exists u, p, q, w', calls. done.
Defined.

(** ** sos2.makeTensorVectors: one segment per lattice point *)

Section TensorSegments.
Local Open Scope R_scope.

Lemma zerofloat2_nonneg (n1 n2 : Z) :
  (0 <= n1)%Z -> (0 <= n2)%Z ->
  Sos2.zerofloat2 (F:=R) n1 n2
  = Ok (replicate (Z.to_nat n2) (replicate (Z.to_nat n1) 0)).
Proof.
  intros H1 H2. unfold Sos2.zerofloat2.
  destruct (Z.ltb_spec n1 0); [lia|]. by destruct (Z.ltb_spec n2 0); [lia|].
Qed.

Lemma two_point_rows_zero (M : nat) :
  two_point_rows M (replicate M (replicate 2 0)).
Proof.
  split; [apply length_replicate|]. by apply Forall_replicate.
Qed.

Lemma two_point_rows_alter (M : nat) (x : list (list R)) (j k : nat) (v : R) :
  two_point_rows M x -> two_point_rows M (alter (<[k := v]>) j x).
Proof.
  intros [Hlen Hrows]. split; [by rewrite length_alter|].
  apply Forall_alter; [done|]. intros row _ Hrow. by rewrite length_insert.
Qed.

Lemma setitem2_alter (M : nat) (x : list (list R)) (ll i : Z) (v : R) :
  two_point_rows M x -> (0 <= ll < Z.of_nat M)%Z -> (0 <= i < 2)%Z ->
  Sos2.setitem2 x ll i v
  = Ok (alter (<[Z.to_nat i := v]>) (Z.to_nat ll) x).
Proof.
  intros [Hlen Hrows] Hll Hi. unfold Sos2.setitem2.
  rewrite py_index_in_range by lia. cbn [mbind res_bind].
  destruct (lookup_lt_is_Some_2 x (Z.to_nat ll)) as [row Hrow]; [lia|].
  rewrite Hrow.
  pose proof (Forall_lookup_1 _ _ _ _ Hrows Hrow) as Hl. simpl in Hl.
  rewrite py_index_in_range by lia. cbn [mbind res_bind]. f_equal.
  apply list_eq. intros j. destruct (decide (j = Z.to_nat ll)) as [->|Hj].
  - rewrite list_lookup_insert_eq by lia.
    by rewrite list_lookup_alter_eq, Hrow.
  - by rewrite list_lookup_insert_ne, list_lookup_alter_ne.
Qed.

Lemma rows_filled_step (M c : nat) (A : nat -> list R) (x : list (list R))
    (a b : R) :
  rows_filled M c A x -> (c < M)%nat -> A c = [a; b] ->
  rows_filled M (S c) A
    (alter (<[1%nat := b]>) c (alter (<[0%nat := a]>) c x)).
Proof.
  intros [Hrows Hfill] Hc HA. split; [by do 2 apply two_point_rows_alter|].
  intros ll Hll. destruct (decide (ll = c)) as [->|Hne].
  - rewrite !list_lookup_alter_eq.
    destruct Hrows as [Hlen Hrows].
    destruct (lookup_lt_is_Some_2 x c) as [row Hrow]; [lia|].
    pose proof (Forall_lookup_1 _ _ _ _ Hrows Hrow) as Hl. simpl in Hl.
    rewrite Hrow, HA.
    by destruct row as [|r0 [|r1 [|r2 row]]].
  - rewrite !list_lookup_alter_ne by done. apply Hfill. lia.
Qed.

Lemma range_split (m : Z) (pre post : list Z) (x : Z) :
  range m = pre ++ x :: post ->
  x = Z.of_nat (length pre) /\ (length pre < Z.to_nat m)%nat.
Proof.
  intros Hsplit.
  assert (Hx : range m !! length pre = Some x).
  { rewrite Hsplit. by rewrite list_lookup_middle. }
  apply lookup_range in Hx as [-> Hlt]. done.
Qed.

(** X13.  In exact arithmetic, for an image of [n1] by [n2] samples whose
    tensor field can be read with a nonzero first eigenvalue at every
    lattice point, [makeTensorVectors] returns four arrays of
    [(n1/30)*(n2/30)] rows; the row numbered [l1 + l2*(n1/30)] holds the
    segment of lattice point [(l1,l2)]: centred on the point [(i1,i2)],
    along the eigenvector [u] (in [xu1], [xu2]) or [v] (in [xv1], [xv2]),
    of half length [10*(eu-ev)/eu]. *)
Theorem makeTensorVectors_segments (n1 n2 : Z) (t : Sos2.EigenTensors2)
    (U V E : Z -> Z -> R * R) :
  (0 <= n1)%Z -> (0 <= n2)%Z ->
  (forall l1 l2, (0 <= l1 < n1 / 30)%Z -> (0 <= l2 < n2 / 30)%Z ->
     let i1 := lattice_point n1 30 l1 in
     let i2 := lattice_point n2 30 l2 in
     Sos2.getEigenvectorU t i1 i2 = Ok (U i1 i2) /\
     Sos2.getEigenvectorV t i1 i2 = Ok (V i1 i2) /\
     Sos2.getEigenvalues t i1 i2 = Ok (E i1 i2) /\
     fst (E i1 i2) <> 0) ->
  exists xu1 xu2 xv1 xv2,
    Sos2.makeTensorVectors n1 n2 t = Ok (xu1, xu2, xv1, xv2) /\
    (length xu1 = Z.to_nat (n1 / 30 * (n2 / 30)) /\
     length xu2 = Z.to_nat (n1 / 30 * (n2 / 30)) /\
     length xv1 = Z.to_nat (n1 / 30 * (n2 / 30)) /\
     length xv2 = Z.to_nat (n1 / 30 * (n2 / 30))) /\
    forall l1 l2, (0 <= l1 < n1 / 30)%Z -> (0 <= l2 < n2 / 30)%Z ->
      let ll := Z.to_nat (l1 + l2 * (n1 / 30)) in
      let i1 := lattice_point n1 30 l1 in
      let i2 := lattice_point n2 30 l2 in
      let el := (fst (E i1 i2) - snd (E i1 i2)) / fst (E i1 i2) in
      xu1 !! ll = Some (segment (IZR i1) (fst (U i1 i2) * (30 / 3) * el)) /\
      xu2 !! ll = Some (segment (IZR i2) (snd (U i1 i2) * (30 / 3) * el)) /\
      xv1 !! ll = Some (segment (IZR i1) (fst (V i1 i2) * (30 / 3) * el)) /\
      xv2 !! ll = Some (segment (IZR i2) (snd (V i1 i2) * (30 / 3) * el)).
Proof.
  intros Hn1 Hn2 Ht.
  set (m1 := (n1 / 30)%Z) in *. set (m2 := (n2 / 30)%Z) in *.
  assert (Hm1 : (0 <= m1)%Z) by (apply Z.div_pos; lia).
  assert (Hm2 : (0 <= m2)%Z) by (apply Z.div_pos; lia).
  set (M := Z.to_nat (m1 * m2)).
  set (el := fun i1 i2 => (fst (E i1 i2) - snd (E i1 i2)) / fst (E i1 i2)).
  set (at_row := fun (g : Z -> Z -> list R) (ll : nat) =>
    g (lattice_point n1 30 (Z.of_nat ll mod m1))
      (lattice_point n2 30 (Z.of_nat ll / m1))).
  set (A1 := at_row (fun i1 i2 =>
    segment (IZR i1) (fst (U i1 i2) * (30 / 3) * el i1 i2))).
  set (A2 := at_row (fun i1 i2 =>
    segment (IZR i2) (snd (U i1 i2) * (30 / 3) * el i1 i2))).
  set (B1 := at_row (fun i1 i2 =>
    segment (IZR i1) (fst (V i1 i2) * (30 / 3) * el i1 i2))).
  set (B2 := at_row (fun i1 i2 =>
    segment (IZR i2) (snd (V i1 i2) * (30 / 3) * el i1 i2))).
  set (filled := fun (c : nat) (s : Sos2.segments) =>
    let '(xu1, xu2, xv1, xv2) := s in
    rows_filled M c A1 xu1 /\ rows_filled M c A2 xu2 /\
    rows_filled M c B1 xv1 /\ rows_filled M c B2 xv2).
  unfold Sos2.makeTensorVectors. cbv zeta.
  rewrite py_idiv_nonzero by lia. cbn [mbind res_bind].
  rewrite py_idiv_nonzero by lia. cbn [mbind res_bind].
  rewrite py_idiv_nonzero by lia. cbn [mbind res_bind].
  rewrite py_idiv_nonzero by lia. cbn [mbind res_bind].
  fold m1 m2.
  rewrite zerofloat2_nonneg by lia. cbn [mbind res_bind].
  change (Z.to_nat 2) with 2%nat. fold M.
  match goal with |- context [for_each (range m2) ?body ?s] =>
    destruct (for_each_prefix
      (fun pre2 => filled (length pre2 * Z.to_nat m1)%nat)
      (range m2) body s) as ([[[xu1 xu2] xv1] xv2] & Hrun & Hfilled)
  end.
  { simpl. repeat split; try apply two_point_rows_zero; intros ll Hll; lia. }
  { intros pre2 l2 post2 s Hsplit2 Hs.
    apply range_split in Hsplit2 as [Hl2 Hc2].
    match goal with |- context [for_each (range m1) ?body s] =>
      destruct (for_each_prefix
        (fun pre1 =>
           filled (length pre2 * Z.to_nat m1 + length pre1)%nat)
        (range m1) body s) as (s' & Hrun & Hs')
    end.
    { by rewrite Nat.add_0_r. }
    { intros pre1 l1 post1 [[[xu1 xu2] xv1] xv2] Hsplit1 Hinv.
      apply range_split in Hsplit1 as [Hl1 Hc1].
      set (c := (length pre2 * Z.to_nat m1 + length pre1)%nat) in *.
      destruct Hinv as (H1 & H2 & H3 & H4).
      assert (Hll : (l1 + l2 * m1)%Z = Z.of_nat c) by (unfold c; nia).
      assert (HcM : (c < M)%nat) by (unfold c, M; nia).
      assert (Hmod : (Z.of_nat c mod m1)%Z = l1).
      { rewrite <- Hll, Z_mod_plus_full. apply Z.mod_small. lia. }
      assert (Hdiv : (Z.of_nat c / m1)%Z = l2).
      { rewrite <- Hll, Z_div_plus_full by lia.
        rewrite Z.div_small by lia. lia. }
      destruct (Ht l1 l2) as (HU & HV & HE & Hne); [lia|lia|].
      cbv zeta in HU, HV, HE, Hne.
      assert (HA1 : A1 c = segment (IZR (lattice_point n1 30 l1))
                (fst (U (lattice_point n1 30 l1) (lattice_point n2 30 l2))
                 * (30 / 3)
                 * el (lattice_point n1 30 l1) (lattice_point n2 30 l2)))
        by (unfold A1, at_row; by rewrite Hmod, Hdiv).
      assert (HA2 : A2 c = segment (IZR (lattice_point n2 30 l2))
                (snd (U (lattice_point n1 30 l1) (lattice_point n2 30 l2))
                 * (30 / 3)
                 * el (lattice_point n1 30 l1) (lattice_point n2 30 l2)))
        by (unfold A2, at_row; by rewrite Hmod, Hdiv).
      assert (HB1 : B1 c = segment (IZR (lattice_point n1 30 l1))
                (fst (V (lattice_point n1 30 l1) (lattice_point n2 30 l2))
                 * (30 / 3)
                 * el (lattice_point n1 30 l1) (lattice_point n2 30 l2)))
        by (unfold B1, at_row; by rewrite Hmod, Hdiv).
      assert (HB2 : B2 c = segment (IZR (lattice_point n2 30 l2))
                (snd (V (lattice_point n1 30 l1) (lattice_point n2 30 l2))
                 * (30 / 3)
                 * el (lattice_point n1 30 l1) (lattice_point n2 30 l2)))
        by (unfold B2, at_row; by rewrite Hmod, Hdiv).
      unfold el in HA1, HA2, HB1, HB2.
      unfold lattice_point in HU, HV, HE, Hne, HA1, HA2, HB1, HB2.
      fold m1 m2 in HU, HV, HE, Hne, HA1, HA2, HB1, HB2.
      rewrite HU, HV, HE, Hll.
      destruct (U _ _) as [u1 u2]. destruct (V _ _) as [v1 v2].
      destruct (E _ _) as [eu ev]. cbn [fst snd] in *.
      cbn [mbind res_bind].
      rewrite (py_fdiv_R _ _ Hne). cbn [mbind res_bind].
      pose proof (proj1 H1) as R1. pose proof (proj1 H2) as R2.
      pose proof (proj1 H3) as R3. pose proof (proj1 H4) as R4.
      repeat (rewrite (setitem2_alter M)
                by (try apply two_point_rows_alter; (done || lia));
              cbn [mbind res_bind]).
      change (Z.to_nat 0) with 0%nat. change (Z.to_nat 1) with 1%nat.
      rewrite Nat2Z.id.
      eexists. split; [reflexivity|].
      rewrite length_app. cbn [length].
      replace (length pre2 * Z.to_nat m1 + (length pre1 + 1))%nat
        with (S c) by (unfold c; lia).
      unfold filled.
      split; [|split; [|split]]; by apply rows_filled_step. }
    exists s'. split; [done|].
    rewrite length_app. cbn [length].
    replace ((length pre2 + 1) * Z.to_nat m1)%nat
      with (length pre2 * Z.to_nat m1 + length (range m1))%nat
      by (rewrite length_range; lia).
    done. }
  exists xu1, xu2, xv1, xv2. split; [done|].
  rewrite length_range in Hfilled.
  replace (Z.to_nat m2 * Z.to_nat m1)%nat with M in Hfilled
    by (unfold M; nia).
  destruct Hfilled as ([[L1 _] F1] & [[L2 _] F2] & [[L3 _] F3] & [[L4 _] F4]).
  split; [done|].
  intros l1 l2 Hl1 Hl2. cbv zeta.
  set (ll := Z.to_nat (l1 + l2 * m1)).
  assert (HllM : (ll < M)%nat) by (unfold ll, M; nia).
  assert (Hmod : (Z.of_nat ll mod m1)%Z = l1).
  { unfold ll. rewrite Z2Nat.id by nia.
    rewrite Z_mod_plus_full. apply Z.mod_small. lia. }
  assert (Hdiv : (Z.of_nat ll / m1)%Z = l2).
  { unfold ll. rewrite Z2Nat.id by nia.
    rewrite Z_div_plus_full by lia. rewrite Z.div_small by lia. lia. }
  rewrite (F1 ll HllM), (F2 ll HllM), (F3 ll HllM), (F4 ll HllM).
  unfold A1, A2, B1, B2, at_row, el. rewrite Hmod, Hdiv. done.
Qed.

Lemma row_index_in_range (m1 m2 l1 l2 : Z) :
  (0 <= l1 < m1)%Z -> (0 <= l2 < m2)%Z ->
  (0 <= l1 + l2 * m1 < Z.of_nat (Z.to_nat (m1 * m2)))%Z.
Proof. intros Hl1 Hl2. rewrite Z2Nat.id by nia. nia. Qed.

Lemma for_each_ok_or_raises {A S : Type} (I : S -> Prop) (e : error)
    (xs : list A) (body : A -> S -> res S) (s : S) :
  (forall x s, x ∈ xs -> I s ->
     (exists s', body x s = Ok s' /\ I s') \/ body x s = Raise e) ->
  I s ->
  (exists s', for_each xs body s = Ok s' /\ I s') \/
  for_each xs body s = Raise e.
Proof.
  revert s. induction xs as [|x xs IH]; intros s Hbody Hs; simpl.
  - left. eauto.
  - destruct (Hbody x s) as [(s' & -> & Hs')| ->];
      [left|done| |by right].
    cbn [mbind res_bind]. apply IH; [|done].
    intros y s0 Hy. apply Hbody. by right.
Qed.

Lemma for_each_raises {A S : Type} (I : S -> Prop) (e : error)
    (xs : list A) (body : A -> S -> res S) (s : S) (bad : A) :
  (forall x s, x ∈ xs -> I s ->
     (exists s', body x s = Ok s' /\ I s') \/ body x s = Raise e) ->
  bad ∈ xs -> (forall s, I s -> body bad s = Raise e) ->
  I s -> for_each xs body s = Raise e.
Proof.
  intros Hbody Hin Hbad. revert s.
  induction xs as [|x xs IH]; intros s Hs; simpl; [inversion Hin|].
  destruct (Hbody x s) as [(s' & Hx & Hs')| ->]; [left|done| |done].
  rewrite Hx. cbn [mbind res_bind].
  apply elem_of_cons in Hin as [->|Hin].
  - rewrite (Hbad s Hs) in Hx. discriminate.
  - apply IH; [|done|done]. intros y s0 Hy. apply Hbody. by right.
Qed.

(** X14.  A vanishing first eigenvalue stops [makeTensorVectors]: if the
    tensor field can be read at every lattice point and [eu] is zero at one
    of them, the division [(eu-ev)/eu] raises ZeroDivisionError and no
    segments are returned. *)
Theorem makeTensorVectors_zero_eigenvalue (n1 n2 : Z)
    (t : Sos2.EigenTensors2) (b1 b2 : Z) (ev : R) :
  (0 <= n1)%Z -> (0 <= n2)%Z ->
  (forall l1 l2, (0 <= l1 < n1 / 30)%Z -> (0 <= l2 < n2 / 30)%Z ->
     let i1 := lattice_point n1 30 l1 in
     let i2 := lattice_point n2 30 l2 in
     exists u v e,
       Sos2.getEigenvectorU t i1 i2 = Ok u /\
       Sos2.getEigenvectorV t i1 i2 = Ok v /\
       Sos2.getEigenvalues t i1 i2 = Ok e) ->
  (0 <= b1 < n1 / 30)%Z -> (0 <= b2 < n2 / 30)%Z ->
  Sos2.getEigenvalues t (lattice_point n1 30 b1) (lattice_point n2 30 b2)
  = Ok (0, ev) ->
  Sos2.makeTensorVectors n1 n2 t = Raise ZeroDivisionError.
Proof.
  intros Hn1 Hn2 Ht Hb1 Hb2 Hzero.
  set (m1 := (n1 / 30)%Z) in *. set (m2 := (n2 / 30)%Z) in *.
  assert (Hm1 : (0 <= m1)%Z) by (apply Z.div_pos; lia).
  assert (Hm2 : (0 <= m2)%Z) by (apply Z.div_pos; lia).
  set (M := Z.to_nat (m1 * m2)).
  set (shaped := fun s : Sos2.segments =>
    let '(xu1, xu2, xv1, xv2) := s in
    two_point_rows M xu1 /\ two_point_rows M xu2 /\
    two_point_rows M xv1 /\ two_point_rows M xv2).
  unfold Sos2.makeTensorVectors. cbv zeta.
  rewrite py_idiv_nonzero by lia. cbn [mbind res_bind].
  rewrite py_idiv_nonzero by lia. cbn [mbind res_bind].
  rewrite py_idiv_nonzero by lia. cbn [mbind res_bind].
  rewrite py_idiv_nonzero by lia. cbn [mbind res_bind].
  fold m1 m2.
  rewrite zerofloat2_nonneg by lia. cbn [mbind res_bind].
  change (Z.to_nat 2) with 2%nat. fold M.
  unfold lattice_point in Ht, Hzero. fold m1 m2 in Ht, Hzero.
  cbv zeta in Ht.
  assert (Hstep : forall l1 l2 xu1 xu2 xv1 xv2,
    (0 <= l1 < m1)%Z -> (0 <= l2 < m2)%Z ->
    shaped (xu1, xu2, xv1, xv2) ->
    (0 <= l1 + l2 * m1 < Z.of_nat M)%Z).
  { intros l1 l2 ? ? ? ? Hl1 Hl2 _. by apply row_index_in_range. }
  match goal with |- for_each (range m2) ?body ?s = _ =>
    apply (for_each_raises shaped ZeroDivisionError (range m2) body s b2)
  end.
  - intros l2 s Hl2%elem_of_range Hs.
    apply for_each_ok_or_raises; [|done].
    intros l1 [[[xu1 xu2] xv1] xv2] Hl1%elem_of_range (R1 & R2 & R3 & R4).
    destruct (Ht l1 l2) as ([u1 u2] & [v1 v2] & [eu e'] & -> & -> & ->);
      [lia|lia|].
    cbn [mbind res_bind].
    destruct (Req_dec_T eu 0) as [->|Hne].
    { right. by rewrite py_fdiv_R_zero. }
    left. rewrite (py_fdiv_R _ _ Hne). cbn [mbind res_bind].
    pose proof (Hstep l1 l2 xu1 xu2 xv1 xv2 Hl1 Hl2
                  (conj R1 (conj R2 (conj R3 R4)))) as Hll.
    repeat (rewrite (setitem2_alter M)
              by (try apply two_point_rows_alter; (done || lia));
            cbn [mbind res_bind]).
    eexists. split; [reflexivity|].
    unfold shaped.
      split; [|split; [|split]]; by do 2 apply two_point_rows_alter.
  - apply elem_of_range. lia.
  - intros s Hs.
    match goal with |- for_each (range m1) ?body s = _ =>
      apply (for_each_raises shaped ZeroDivisionError (range m1) body s b1)
    end; [|by apply elem_of_range| |done].
    + intros l1 [[[xu1 xu2] xv1] xv2] Hl1%elem_of_range (R1 & R2 & R3 & R4).
      destruct (Ht l1 b2) as ([u1 u2] & [v1 v2] & [eu e'] & -> & -> & ->);
        [lia|lia|].
      cbn [mbind res_bind].
      destruct (Req_dec_T eu 0) as [->|Hne].
      { right. by rewrite py_fdiv_R_zero. }
      left. rewrite (py_fdiv_R _ _ Hne). cbn [mbind res_bind].
      pose proof (Hstep l1 b2 xu1 xu2 xv1 xv2 Hl1 Hb2
                    (conj R1 (conj R2 (conj R3 R4)))) as Hll.
      repeat (rewrite (setitem2_alter M)
                by (try apply two_point_rows_alter; (done || lia));
              cbn [mbind res_bind]).
      eexists. split; [reflexivity|].
      unfold shaped.
      split; [|split; [|split]]; by do 2 apply two_point_rows_alter.
    + intros [[[xu1 xu2] xv1] xv2] _.
      destruct (Ht b1 b2) as ([u1 u2] & [v1 v2] & e & -> & -> & He);
        [lia|lia|].
      rewrite Hzero in *. cbn [mbind res_bind].
      by rewrite py_fdiv_R_zero.
  - unfold shaped. split; [|split; [|split]]; apply two_point_rows_zero.
Qed.

End TensorSegments.

Lemma makeTensorVectors_segments_witness :
  exists xu1 xu2 xv1 xv2,
    Sos2.makeTensorVectors 60 30
      {| Sos2.getEigenvectorU := fun _ _ => Ok (1, 0)%R;
         Sos2.getEigenvectorV := fun _ _ => Ok (0, 1)%R;
         Sos2.getEigenvalues := fun _ _ => Ok (2, 1)%R |}
    = Ok (xu1, xu2, xv1, xv2) /\
    length xu1 = 2%nat /\
    xu1 !! 1%nat = Some [(45 - 1 * (30 / 3) * ((2 - 1) / 2))%R;
                         (45 + 1 * (30 / 3) * ((2 - 1) / 2))%R].
Proof.
  destruct (makeTensorVectors_segments 60 30
    {| Sos2.getEigenvectorU := fun _ _ => Ok (1, 0)%R;
       Sos2.getEigenvectorV := fun _ _ => Ok (0, 1)%R;
       Sos2.getEigenvalues := fun _ _ => Ok (2, 1)%R |}
    (fun _ _ => (1, 0)%R) (fun _ _ => (0, 1)%R) (fun _ _ => (2, 1)%R))
    as (xu1 & xu2 & xv1 & xv2 & Hrun & (L1 & _) & Hseg); [lia|lia| |].
  { intros l1 l2 _ _. simpl. repeat split. lra. }
  exists xu1, xu2, xv1, xv2. split; [exact Hrun|]. split; [exact L1|].
  destruct (Hseg 1%Z 0%Z) as (H1 & _); [by vm_compute|by vm_compute|].
  exact H1.
Defined.

Lemma makeTensorVectors_zero_eigenvalue_witness :
  Sos2.makeTensorVectors 60 30
    {| Sos2.getEigenvectorU := fun _ _ => Ok (1, 0)%R;
       Sos2.getEigenvectorV := fun _ _ => Ok (0, 1)%R;
       Sos2.getEigenvalues := fun _ _ => Ok (0, 0)%R |}
  = Raise ZeroDivisionError.
Proof.
  apply (makeTensorVectors_zero_eigenvalue 60 30 _ 1 0 0%R);
    [lia|lia| |by vm_compute|by vm_compute|reflexivity].
  intros l1 l2 _ _. by exists (1, 0)%R, (0, 1)%R, (0, 0)%R.
Defined.

(** ** waveletwarpingab.makeImpulses: the two impulse trains *)

Section ImpulsePairs.
Local Open Scope R_scope.

Variable accumulate :
  SincInterpolator -> R -> R -> Z -> R -> R -> list R -> list R.

Lemma makeImpulses_total (r : R) (nt ni : Z) (w : World) :
  0 < r -> (0 <= nt)%Z -> (0 <= ni)%Z ->
  exists p q w',
    Wwab.makeImpulses accumulate r nt ni w = (Ok (p, q), w').
Proof.
  intros Hr Hnt Hni. unfold Wwab.makeImpulses.
  erewrite bind_lift_ok by (apply zerofloat_nonneg; lia).
  erewrite bind_lift_ok by (apply zerofloat_nonneg; lia). cbv zeta.
  erewrite bind_lift_ok by (apply py_idiv_nonzero; lia).
  assert (Hts : exists a, (if Rle_dec r 1
             then rampfloat (IZR ((nt - 1) / (ni + 1)))
                    (IZR ((nt - 1) / (ni + 1))) ni
             else dr ← py_fdiv (IZR ((nt - 1) / (ni + 1))) r;
                  dr' ← py_fdiv (IZR ((nt - 1) / (ni + 1))) r;
                  rampfloat dr dr' ni)
           = Ok ((fun i => a + a * IZR i) <$> range ni)).
  { destruct (Rle_dec r 1).
    - eexists. apply rampfloat_nonneg. lia.
    - rewrite py_fdiv_R by lra. cbn [mbind res_bind].
      eexists. apply rampfloat_nonneg. lia. }
  destruct Hts as [a Hts].
  erewrite bind_lift_ok by exact Hts.
  unfold mbind at 1, M_bind at 1, fromErrorAndFrequency at 1.
  cbv beta match zeta.
  match goal with |- context [for_each ?xs ?body ?s] =>
    destruct (for_each_total xs body s) as [[[p q] rj] Hloop] end.
  { intros ji [[p q] rj] Hji%elem_of_range.
    match goal with |- context [getitem ?ts ji] =>
      destruct (getitem_in_range ts ji) as [tp ->] end.
    { rewrite length_fmap, length_range. lia. }
    cbn [mbind res_bind]. eauto. }
  erewrite bind_lift_ok by exact Hloop. cbv beta match. eauto.
Qed.

(** X15.  [makeImpulses] keeps both impulse trains inside the trace and
    delays the second one: for [r > 0] and at least one time sample, [p]
    and [q] are zeros with [ni] impulses accumulated, number [k] with
    amplitude [(-1)^k], at times [0 <= tp <= tq <= nt-1].  For [r <= 1]
    the times counted back from the end of the trace are scaled by [r]
    ([tmax - tq = r*(tmax - tp)], [tp] on the integer grid); for [r > 1]
    the times themselves are ([tq = r*tp], [tq] on the integer grid). *)
Theorem makeImpulses_trains_in_trace (r : R) (nt ni : Z) (w w' : World)
    (p q : list R) :
  0 < r -> (1 <= nt)%Z ->
  Wwab.makeImpulses accumulate r nt ni w = (Ok (p, q), w') ->
  exists calls : list (R * R * R),
    length calls = Z.to_nat ni /\
    p = foldl (fun p '(tp, tq, a) =>
                 accumulate {| si_emax := 0.01; si_fmax := 0.45 |}
                   tp a nt 1 0 p)
              (replicate (Z.to_nat nt) 0) calls /\
    q = foldl (fun q '(tp, tq, a) =>
                 accumulate {| si_emax := 0.01; si_fmax := 0.45 |}
                   tq a nt 1 0 q)
              (replicate (Z.to_nat nt) 0) calls /\
    forall (k : nat) tp tq a, calls !! k = Some (tp, tq, a) ->
      a = (-1) ^ k /\
      0 <= tp /\ tp <= tq /\ tq <= IZR (nt - 1) /\
      (r <= 1 ->
         tp = IZR ((nt - 1) / (ni + 1) * (Z.of_nat k + 1)) /\
         IZR (nt - 1) - tq = r * (IZR (nt - 1) - tp)) /\
      (1 < r ->
         tq = IZR ((nt - 1) / (ni + 1) * (Z.of_nat k + 1)) /\
         tq = r * tp).
Proof.
  intros Hr Hnt. unfold Wwab.makeImpulses. intros H.
  apply bind_lift_inv in H as (p0 & Hp0 & H).
  apply bind_lift_inv in H as (q0 & Hq0 & H). cbv zeta in H.
  apply bind_lift_inv in H as (d & Hd & H).
  apply bind_lift_inv in H as (ts & Hts & H).
  apply bind_kernel_inv in H.
  apply bind_lift_inv in H as ([[p1 q1] rj] & Hloop & H).
  injection H as -> -> _.
  rewrite zerofloat_nonneg in Hp0, Hq0 by lia.
  injection Hp0 as <-. injection Hq0 as <-.
  apply (impulse_loop_calls
           (getitem ts)
           (fun tp => Ok (if Rle_dec r 1
                          then r * tp + (1 - r) * IZR (nt - 1)
                          else r * tp))
           (fun tp a p =>
              accumulate {| si_emax := 0.01; si_fmax := 0.45 |} tp a nt 1 0 p)
           (fun tq a q =>
              accumulate {| si_emax := 0.01; si_fmax := 0.45 |} tq a nt 1 0 q))
    in Hloop as (calls & Hlen & Hp & Hq & Hcalls).
  exists calls. split; [by rewrite Hlen, length_range|].
  split; [done|]. split; [done|].
  intros k tp tq a Hk.
  destruct (Hcalls k tp tq a Hk) as (-> & ji & Hji & Htp & Htq).
  apply lookup_range in Hji as [-> Hklt].
  apply getitem_nonneg_inv in Htp as [Htp _]; [|lia].
  rewrite Nat2Z.id in Htp.
  assert (Hni : (0 <= ni)%Z) by lia.
  rewrite py_idiv_nonzero in Hd by lia. injection Hd as <-.
  pose proof (impulse_time_in_trace nt ni (Z.of_nat k) Hnt ltac:(lia)) as Hin.
  set (d := ((nt - 1) / (ni + 1))%Z) in *.
  assert (Htime : IZR d + IZR d * INR k = IZR (d * (Z.of_nat k + 1))).
  { rewrite mult_IZR, plus_IZR, <- INR_IZR_INZ. simpl. ring. }
  assert (H0 : 0 <= IZR (d * (Z.of_nat k + 1))) by (apply IZR_le; lia).
  assert (H1 : IZR (d * (Z.of_nat k + 1)) <= IZR (nt - 1))
    by (apply IZR_le; lia).
  split; [simpl; ring|].
  destruct (Rle_dec r 1) as [Hle|Hgt].
  - apply rampfloat_inv in Hts as ->.
    apply lookup_ramp in Htp as [-> _]. injection Htq as <-.
    rewrite Htime.
    set (x := IZR (d * (Z.of_nat k + 1))) in *.
    set (T := IZR (nt - 1)) in *.
    repeat split; try nra; try lra.
  - apply bind_res_inv in Hts as (dr & [_ ->]%py_fdiv_R_inv & Hts).
    apply bind_res_inv in Hts as (dr' & [_ ->]%py_fdiv_R_inv & Hts).
    apply rampfloat_inv in Hts as ->.
    apply lookup_ramp in Htp as [-> _]. injection Htq as <-.
    assert (Hq' : r * (IZR d / r + IZR d / r * INR k)
                  = IZR (d * (Z.of_nat k + 1))).
    { rewrite <- Htime. field. lra. }
    assert (Hp' : IZR d / r + IZR d / r * INR k
                  = IZR (d * (Z.of_nat k + 1)) / r).
    { rewrite <- Htime. field. lra. }
    rewrite Hq', Hp'.
    set (x := IZR (d * (Z.of_nat k + 1))) in *.
    assert (Hinv : / r <= 1).
    { rewrite <- Rinv_1. apply Rinv_le_contravar; lra. }
    assert (Hinv0 : 0 < / r) by (apply Rinv_0_lt_compat; lra).
    assert (Hxr : 0 <= x / r) by (unfold Rdiv; nra).
    assert (Hxr' : x / r <= x) by (unfold Rdiv; nra).
    repeat split; try lra.
Qed.

End ImpulsePairs.

Lemma makeImpulses_trains_in_trace_witness :
  exists p q w' calls,
    Wwab.makeImpulses (fun _ _ _ _ _ _ y => y) 2 7 2
      {| sincs := []; shared_random := 0 |} = (Ok (p, q), w') /\
    length calls = Z.to_nat 2 /\
    forall (k : nat) tp tq a, calls !! k = Some (tp, tq, a) ->
      a = ((-1) ^ k)%R /\
      (0 <= tp)%R /\ (tp <= tq)%R /\ (tq <= IZR (7 - 1))%R.
Proof.
  destruct (makeImpulses_total (fun _ _ _ _ _ _ y => y) 2 7 2
              {| sincs := []; shared_random := 0 |})
    as (p & q & w' & Hrun); [lra|lia|lia|].
  destruct (makeImpulses_trains_in_trace (fun _ _ _ _ _ _ y => y)
              2 7 2 {| sincs := []; shared_random := 0 |} w' p q)
    as (calls & Hlen & _ & _ & Hcalls); [lra|lia|exact Hrun|].
  exists p, q, w', calls. split; [exact Hrun|]. split; [exact Hlen|].
  intros k tp tq a Hk.
  destruct (Hcalls k tp tq a Hk) as (Ha & H0 & H1 & H2 & _).
  done.
Defined.

(** ** The impulses of logupq and logupqOld *)

Section LogImpulses.
Local Open Scope R_scope.

(** The loop shared by [logupq] and [logupqOld]: impulse number [ji] goes
    to time [ui] in [q] and to time [t(ui)] in [p]. *)
Lemma warped_loop_calls (g1 g2 : Z -> res R) (h : R -> res R)
    (P Q : R -> R -> list R -> list R) (xs : list Z)
    (p q p' q' : list R) :
  for_each xs (fun ji '(p, q) =>
      ui ← g1 ji; ri ← g2 ji; ti ← h ui; Ok (P ti ri p, Q ui ri q))
    (p, q) = Ok (p', q') ->
  exists calls : list (R * R * R),
    length calls = length xs /\
    p' = foldl (fun p '(ti, ui, ri) => P ti ri p) p calls /\
    q' = foldl (fun q '(ti, ui, ri) => Q ui ri q) q calls /\
    forall k ti ui ri, calls !! k = Some (ti, ui, ri) ->
      exists ji, xs !! k = Some ji /\
                 g1 ji = Ok ui /\ g2 ji = Ok ri /\ h ui = Ok ti.
Proof.
  revert p q. induction xs as [|ji xs IH]; intros p q; cbn [for_each].
  - intros [= <- <-]. exists []. repeat split; done.
  - intros (s1 & Hbody & Hrest)%bind_res_inv.
    apply bind_res_inv in Hbody as (ui & Hui & Hbody).
    apply bind_res_inv in Hbody as (ri & Hri & Hbody).
    apply bind_res_inv in Hbody as (ti & Hti & [= <-]).
    destruct (IH _ _ Hrest) as (calls & Hlen & Hp & Hq & Hcalls).
    exists ((ti, ui, ri) :: calls).
    split; [simpl; by f_equal|]. split; [done|]. split; [done|].
    intros [|k] ti' ui' ri' Hk; simpl in Hk.
    + injection Hk as <- <- <-. exists ji. done.
    + destruct (Hcalls k ti' ui' ri' Hk) as (ji' & Hji' & Hrest').
      exists ji'. done.
Qed.

Lemma Rdiv_nonneg (a b : R) : 0 <= a -> 0 < b -> 0 <= a / b.
Proof.
  intros Ha Hb. unfold Rdiv. apply Rmult_le_pos; [done|].
  left. by apply Rinv_0_lt_compat.
Qed.

Lemma fifth_power_range (y : R) : -1 <= y < 1 -> -1 <= y ^ 5 < 1.
Proof.
  intros [Hlo Hhi].
  assert (Hs : 0 <= y * y <= 1) by nra.
  assert (Hq : 0 <= (y * y) * (y * y) <= 1) by nra.
  replace (y ^ 5) with (y * ((y * y) * (y * y))) by ring.
  set (s := y * y * (y * y)) in *. nra.
Qed.

(** Where the inverse map of the curve is defined it sends times that
    are not negative to times that are not negative. *)
Lemma logupq_inverse_nonneg (r0 r1 : R) (nt : Z) (u : list R)
    (t : R -> res R) (x y : R) :
  0 < r1 -> r1 <= r0 -> (1 <= nt)%Z ->
  Wwab.logupq_curve r0 r1 nt = Ok (u, t) ->
  0 <= x -> t x = Ok y -> 0 <= y.
Proof.
  intros H1 H01 Hnt. unfold Wwab.logupq_curve.
  destruct (Req_dec_T r0 r1) as [Heq|Hne].
  - intros (u0 & _ & [= _ <-])%bind_res_inv Hx [_ ->]%py_fdiv_R_inv.
    apply Rdiv_nonneg; lra.
  - intros (ratio & [_ ->]%py_fdiv_R_inv & H)%bind_res_inv.
    apply bind_res_inv in H as (l & [_ ->]%real_log_inv & H).
    apply bind_res_inv in H as (a & [Hl ->]%py_fdiv_R_inv & H).
    apply bind_res_inv in H as (b & [Ha ->]%py_fdiv_R_inv & H).
    apply bind_res_inv in H as (ramp & _ & H).
    apply bind_res_inv in H as (lg & _ & [= _ <-]).
    intros Hx (e & [_ ->]%py_fdiv_R_inv & [_ ->]%py_fdiv_R_inv)%bind_res_inv.
    assert (Hlpos : 0 < ln (r0 / r1)) by (apply ln_ratio_pos; lra).
    assert (Hu : 0 <= IZR (nt - 1)) by (apply IZR_le; lia).
    set (a := IZR (nt - 1) / ln (r0 / r1)) in *.
    assert (Ha0 : 0 <= a) by (apply Rdiv_nonneg; lra).
    assert (Hapos : 0 < a) by lra.
    assert (Hbpos : 0 < r0 / a) by (apply Rdiv_lt_0_compat; lra).
    assert (He : 0 <= x / a) by (apply Rdiv_nonneg; lra).
    assert (Hexp : 1 <= exp (x / a)).
    { destruct He as [He| <-]; [|rewrite exp_0; lra].
      assert (Hne0 : x / a <> 0) by lra.
      pose proof (exp_ineq1 (x / a) Hne0). lra. }
    apply Rdiv_nonneg; lra.
Qed.

Variable accumulate :
  SincInterpolator -> R -> R -> Z -> R -> R -> list R -> list R.

Lemma logupqOld_total (r0 r1 : R) (nt ni : Z) (w : World) :
  0 < r1 -> r1 <= r0 -> (2 <= nt)%Z -> (0 <= ni)%Z ->
  exists u p q w',
    Wwab.logupqOld accumulate r0 r1 nt ni w = (Ok (u, p, q), w').
Proof.
  intros H1 H01 Hnt Hni.
  destruct (logupq_curve_total r0 r1 nt H1 H01 Hnt) as (u & t & Hcurve & Ht).
  unfold Wwab.logupqOld. cbv zeta.
  erewrite bind_lift_ok by (apply py_idiv_nonzero; lia).
  erewrite bind_lift_ok by (apply rampfloat_nonneg; lia).
  erewrite bind_lift_ok by exact Hcurve. cbv beta match zeta.
  erewrite bind_lift_ok by (apply zerofloat_nonneg; lia).
  erewrite bind_lift_ok by (apply zerofloat_nonneg; lia).
  unfold mbind at 1, M_bind at 1, fromErrorAndFrequency at 1.
  cbv beta match zeta.
  match goal with |- context [for_each ?xs ?body ?s] =>
    destruct (for_each_total xs body s) as [[p q] Hloop] end.
  { intros ji [p q] Hji%elem_of_range.
    match goal with |- context [getitem ?us ji] =>
      destruct (getitem_in_range us ji) as [ui ->] end.
    { rewrite length_fmap, length_range. lia. }
    cbn [mbind res_bind].
    destruct (Ht ui) as [ti ->]. cbn [mbind res_bind]. eauto. }
  erewrite bind_lift_ok by exact Hloop. cbv beta match. eauto.
Qed.

(** X16.  The random impulses of [logupq]: with at least one time sample,
    whenever it returns, [p] and [q] are zeros with [ni] impulses
    accumulated, each in [q] at a time [0 <= ui <= nt-1] inside the
    trace, in [p] at the time [t(ui)] given by the inverse map of the
    returned curve, and with an amplitude in [-1, 1); for [r0 >= r1 > 0]
    no impulse of [p] lies before the start of the trace. *)
Theorem logupq_random_impulses (r0 r1 : R) (nt ni : Z) (w w' : World)
    (u p q : list R) :
  (1 <= nt)%Z ->
  Wwab.logupq accumulate r0 r1 nt ni w = (Ok (u, p, q), w') ->
  exists (t : R -> res R) (calls : list (R * R * R)),
    Wwab.logupq_curve r0 r1 nt = Ok (u, t) /\
    length calls = Z.to_nat ni /\
    p = foldl (fun p '(ti, ui, ri) =>
                 accumulate {| si_emax := 0.01; si_fmax := 0.45 |}
                   ti ri nt 1 0 p)
              (replicate (Z.to_nat nt) 0) calls /\
    q = foldl (fun q '(ti, ui, ri) =>
                 accumulate {| si_emax := 0.01; si_fmax := 0.45 |}
                   ui ri nt 1 0 q)
              (replicate (Z.to_nat nt) 0) calls /\
    forall (k : nat) ti ui ri, calls !! k = Some (ti, ui, ri) ->
      t ui = Ok ti /\
      0 <= ui <= IZR (nt - 1) /\
      -1 <= ri < 1 /\
      (0 < r1 -> r1 <= r0 -> 0 <= ti).
Proof.
  intros Hnt. unfold Wwab.logupq. cbv zeta. intros H.
  apply bind_lift_inv in H as ([x1 rand1] & Hx1 & H).
  apply bind_lift_inv in H as ([x2 rand2] & Hx2 & H).
  apply bind_lift_inv in H as ([u0 t] & Hcurve & H).
  apply bind_lift_inv in H as (p0 & Hp0 & H).
  apply bind_lift_inv in H as (q0 & Hq0 & H).
  apply bind_kernel_inv in H.
  apply bind_lift_inv in H as ([p1 q1] & Hloop & H).
  injection H as -> -> -> _.
  rewrite zerofloat_nonneg in Hp0, Hq0 by lia.
  injection Hp0 as <-. injection Hq0 as <-.
  assert (Hni : (0 <= ni)%Z).
  { unfold randfloat in Hx1. by destruct (Z.ltb_spec ni 0). }
  rewrite randfloat_nonneg in Hx1, Hx2 by done.
  pose proof (Random_floats_unit (Z.to_nat ni) (Random_new 3)) as [_ Hu1].
  injection Hx1 as Hx1. rewrite Hx1 in Hu1. cbn [fst] in Hu1.
  pose proof (Random_floats_unit (Z.to_nat ni) rand1) as [_ Hu2].
  injection Hx2 as Hx2. rewrite Hx2 in Hu2. cbn [fst] in Hu2.
  apply (warped_loop_calls
           (getitem (Rmult (IZR (nt - 1)) <$> x1))
           (getitem ((fun x => ((x - 0.5) * 2) ^ 5) <$> x2))
           t
           (fun ti ri p =>
              accumulate {| si_emax := 0.01; si_fmax := 0.45 |} ti ri nt 1 0 p)
           (fun ui ri q =>
              accumulate {| si_emax := 0.01; si_fmax := 0.45 |} ui ri nt 1 0 q))
    in Hloop as (calls & Hlen & Hp & Hq & Hcalls).
  exists t, calls. split; [done|].
  split; [by rewrite Hlen, length_range|]. split; [done|]. split; [done|].
  intros k ti ui ri Hk.
  destruct (Hcalls k ti ui ri Hk) as (ji & Hji & Hui & Hri & Hti).
  apply lookup_range in Hji as [-> Hklt].
  apply getitem_nonneg_inv in Hui as [Hui _]; [|lia].
  apply getitem_nonneg_inv in Hri as [Hri _]; [|lia].
  rewrite Nat2Z.id in Hui, Hri.
  rewrite list_lookup_fmap in Hui, Hri.
  destruct (x1 !! k) as [a1|] eqn:E1; [|done].
  destruct (x2 !! k) as [a2|] eqn:E2; [|done].
  injection Hui as <-. injection Hri as <-.
  pose proof (Forall_lookup_1 _ _ _ _ Hu1 E1) as Ha1.
  pose proof (Forall_lookup_1 _ _ _ _ Hu2 E2) as Ha2.
  cbv beta in Ha1, Ha2.
  assert (Hmax : 0 <= IZR (nt - 1)) by (apply IZR_le; lia).
  assert (Hui : 0 <= IZR (nt - 1) * a1 <= IZR (nt - 1)) by nra.
  split; [done|]. split; [done|]. split.
  - apply fifth_power_range. lra.
  - intros H1 H01.
    apply (logupq_inverse_nonneg r0 r1 nt u t (IZR (nt - 1) * a1) ti);
      try done. lra.
Qed.

(** X17.  The impulses of [logupqOld] are evenly spaced in [q]: with at
    least one time sample, whenever it returns, impulse number [k] has
    amplitude 1 and lies in [q] at the integer time [ui = d*(k+1)] (with
    [d = (nt-1)/(ni+1)], inside the trace) and in [p] at the time
    [t(ui)] given by the inverse map of the returned curve, which is not
    negative for [r0 >= r1 > 0]. *)
Theorem logupqOld_even_impulses (r0 r1 : R) (nt ni : Z) (w w' : World)
    (u p q : list R) :
  (1 <= nt)%Z ->
  Wwab.logupqOld accumulate r0 r1 nt ni w = (Ok (u, p, q), w') ->
  exists (t : R -> res R) (calls : list (R * R * R)),
    Wwab.logupq_curve r0 r1 nt = Ok (u, t) /\
    length calls = Z.to_nat ni /\
    p = foldl (fun p '(ti, ui, ri) =>
                 accumulate {| si_emax := 0.01; si_fmax := 0.45 |}
                   ti ri nt 1 0 p)
              (replicate (Z.to_nat nt) 0) calls /\
    q = foldl (fun q '(ti, ui, ri) =>
                 accumulate {| si_emax := 0.01; si_fmax := 0.45 |}
                   ui ri nt 1 0 q)
              (replicate (Z.to_nat nt) 0) calls /\
    forall (k : nat) ti ui ri, calls !! k = Some (ti, ui, ri) ->
      ri = 1 /\
      ui = IZR ((nt - 1) / (ni + 1) * (Z.of_nat k + 1)) /\
      (0 <= (nt - 1) / (ni + 1) * (Z.of_nat k + 1) <= nt - 1)%Z /\
      t ui = Ok ti /\
      (0 < r1 -> r1 <= r0 -> 0 <= ti).
Proof.
  intros Hnt. unfold Wwab.logupqOld. cbv zeta. intros H.
  apply bind_lift_inv in H as (d & Hd & H).
  apply bind_lift_inv in H as (us & Hus & H).
  apply bind_lift_inv in H as ([u0 t] & Hcurve & H).
  apply bind_lift_inv in H as (p0 & Hp0 & H).
  apply bind_lift_inv in H as (q0 & Hq0 & H).
  apply bind_kernel_inv in H.
  apply bind_lift_inv in H as ([p1 q1] & Hloop & H).
  injection H as -> -> -> _.
  rewrite zerofloat_nonneg in Hp0, Hq0 by lia.
  injection Hp0 as <-. injection Hq0 as <-.
  assert (Hni : (0 <= ni)%Z).
  { unfold rampfloat in Hus. by destruct (Z.ltb_spec ni 0). }
  rewrite py_idiv_nonzero in Hd by lia. injection Hd as <-.
  apply rampfloat_inv in Hus as ->.
  set (d := ((nt - 1) / (ni + 1))%Z) in *.
  apply (warped_loop_calls
           (getitem ((fun i => IZR d + IZR d * IZR i) <$> range ni))
           (fun _ => Ok 1)
           t
           (fun ti ri p =>
              accumulate {| si_emax := 0.01; si_fmax := 0.45 |} ti ri nt 1 0 p)
           (fun ui ri q =>
              accumulate {| si_emax := 0.01; si_fmax := 0.45 |} ui ri nt 1 0 q))
    in Hloop as (calls & Hlen & Hp & Hq & Hcalls).
  exists t, calls. split; [done|].
  split; [by rewrite Hlen, length_range|]. split; [done|]. split; [done|].
  intros k ti ui ri Hk.
  destruct (Hcalls k ti ui ri Hk) as (ji & Hji & Hui & [= <-] & Hti).
  apply lookup_range in Hji as [-> Hklt].
  apply getitem_nonneg_inv in Hui as [Hui _]; [|lia].
  rewrite Nat2Z.id in Hui. apply lookup_ramp in Hui as [-> _].
  pose proof (impulse_time_in_trace nt ni (Z.of_nat k) Hnt ltac:(lia)) as Hin.
  fold d in Hin.
  assert (Htime : IZR d + IZR d * INR k = IZR (d * (Z.of_nat k + 1))).
  { rewrite mult_IZR, plus_IZR, <- INR_IZR_INZ. simpl. ring. }
  split; [done|]. split; [done|]. split; [done|]. split; [done|].
  intros H1 H01.
  apply (logupq_inverse_nonneg r0 r1 nt u t
           (IZR d + IZR d * INR k) ti H1 H01 Hnt Hcurve); [|done].
  rewrite Htime. apply IZR_le. lia.
Qed.

End LogImpulses.

Lemma logupq_random_impulses_witness :
  exists u p q w' t calls,
    Wwab.logupq (fun _ _ _ _ _ _ y => y) 3 1 5 2
      {| sincs := []; shared_random := 0 |} = (Ok (u, p, q), w') /\
    Wwab.logupq_curve 3 1 5 = Ok (u, t) /\
    length calls = Z.to_nat 2 /\
    forall (k : nat) ti ui ri, calls !! k = Some (ti, ui, ri) ->
      t ui = Ok ti /\
      (0 <= ui <= IZR (5 - 1))%R /\
      (-1 <= ri < 1)%R.
Proof.
  destruct (logupq_total (fun _ _ _ _ _ _ y => y) 3 1 5 2
              {| sincs := []; shared_random := 0 |})
    as (u & p & q & w' & Hrun); [lra|lra|lia|lia|].
  destruct (logupq_random_impulses (fun _ _ _ _ _ _ y => y)
              3 1 5 2 {| sincs := []; shared_random := 0 |} w' u p q)
    as (t & calls & Hcurve & Hlen & _ & _ & Hcalls); [lia|exact Hrun|].
  exists u, p, q, w', t, calls.
  split; [exact Hrun|]. split; [exact Hcurve|]. split; [exact Hlen|].
  intros k ti ui ri Hk.
  destruct (Hcalls k ti ui ri Hk) as (Ht & Hui & Hri & _). done.
Defined.

Lemma logupqOld_even_impulses_witness :
  exists u p q w' t calls,
    Wwab.logupqOld (fun _ _ _ _ _ _ y => y) 3 1 7 2
      {| sincs := []; shared_random := 0 |} = (Ok (u, p, q), w') /\
    Wwab.logupq_curve 3 1 7 = Ok (u, t) /\
    length calls = Z.to_nat 2 /\
    forall (k : nat) ti ui ri, calls !! k = Some (ti, ui, ri) ->
      ri = 1%R /\
      ui = IZR ((7 - 1) / (2 + 1) * (Z.of_nat k + 1)) /\
      t ui = Ok ti.
Proof.
  destruct (logupqOld_total (fun _ _ _ _ _ _ y => y) 3 1 7 2
              {| sincs := []; shared_random := 0 |})
    as (u & p & q & w' & Hrun); [lra|lra|lia|lia|].
  destruct (logupqOld_even_impulses (fun _ _ _ _ _ _ y => y)
              3 1 7 2 {| sincs := []; shared_random := 0 |} w' u p q)
    as (t & calls & Hcurve & Hlen & _ & _ & Hcalls); [lia|exact Hrun|].
  exists u, p, q, w', t, calls.
  split; [exact Hrun|]. split; [exact Hcurve|]. split; [exact Hlen|].
  intros k ti ui ri Hk.
  destruct (Hcalls k ti ui ri Hk) as (Hr & Hui & _ & Ht & _). done.
Defined.
